(** * wav2flac: the batch conversion pipeline, embedded and verified

  The development follows [wav2flac_cmdline.py] (and the two GUI variants,
  whose scanner, per-file converter and cleanup are the same code):

  - [Py]        the Python values the code manipulates: exceptions,
                outcomes of calls, [str.strip], [str.lower];
  - [PurePath]  [pathlib]'s pure POSIX paths as the program uses them
                ([/], [relative_to], [parent], [name], [stem]);
  - [Scanner]   [find_wav_files] over a directory tree;
  - [Layout]    [create_output_directory], the destination path computed by
                [convert_wav_to_flac_ffmpeg], and the staging copy;
  - [Convert]   the per-file conversion with its subprocess outcome;
  - [Sys]       the console and the file system as a state, and the
                commands that act on it;
  - [Capacity]  [check_cache_disk_space] with binary64 arithmetic;
  - [Run]       the guarded part of [main] with its [finally] cleanup, and
                the directory prompt;
  - [Examples]  sample surroundings for the closed examples;
  - [Numbers]   [int] on text, as the prompts and the version check call it;
  - [Prompts]   [get_compression_level], [get_thread_count] and
                [ask_user_about_caching];
  - [Pools]     [copy_files_to_cache] and the conversion pool of [main],
                result by result;
  - [Listing]   the names that directory listings hold;
  - [Gui]       [compare_versions] and [browse_input_dir] of the GUI;
  - [Installer] [check_pip_available] and [install_python_package];
  - [Samples]   more sample surroundings.

  What the program asks of the operating system and of Python's library
  ([pathlib], [shutil], [subprocess], binary64 floats) is written out as
  the library documents it; the floats are those of [SpecFloat].
  Definitions come first; the lemmas and the theorems follow them. *)

From Stdlib Require Import ZArith QArith Lia List String Ascii SpecFloat.
From stdpp Require Import base list strings pretty sorting.

Open Scope string_scope.
Open Scope list_scope.
Open Scope Z_scope.

(* ===================================================================== *)
(** * Part I. The embedding                                               *)
(* ===================================================================== *)

(** ** Python values *)

Module Py.

(** The exceptions the program meets.  [KeyboardInterrupt] and
    [SystemExit] derive from [BaseException] only: an [except Exception]
    clause lets them through. *)
Inductive exn :=
| KeyboardInterrupt
| SystemExit
| TimeoutExpired
| ValueError (msg : string)
| OSError (msg : string)
| EOFError
| OverflowError
| ZeroDivisionError.

Definition is_Exception (e : exn) : bool :=
  match e with
  | KeyboardInterrupt | SystemExit => false
  | _ => true
  end.

(** What a call does: it returns a value or raises. *)
Inductive outcome (A : Type) :=
| Returned (a : A)
| Raised (e : exn).
Arguments Returned {A} a.
Arguments Raised {A} e.

Definition bind {A B} (x : outcome A) (f : A -> outcome B) : outcome B :=
  match x with
  | Returned a => f a
  | Raised e => Raised e
  end.

(** [str.isspace] on the ASCII range: TAB, LF, VT, FF, CR, FS, GS, RS, US
    and the blank. *)
Definition isspace (c : ascii) : bool :=
  let n := nat_of_ascii c in
  ((9 <=? n)%nat && (n <=? 13)%nat) || ((28 <=? n)%nat && (n <=? 32)%nat).

Fixpoint lstrip (s : string) : string :=
  match s with
  | String c s' => if isspace c then lstrip s' else s
  | EmptyString => EmptyString
  end.

(** [s.strip()] *)
Definition strip (s : string) : string :=
  String.rev (lstrip (String.rev (lstrip s))).

Definition lower_char (c : ascii) : ascii :=
  let n := nat_of_ascii c in
  if (65 <=? n)%nat && (n <=? 90)%nat then ascii_of_nat (n + 32) else c.

(** [s.lower()] on ASCII letters. *)
Fixpoint lower (s : string) : string :=
  match s with
  | String c s' => String (lower_char c) (lower s')
  | EmptyString => EmptyString
  end.

(** [s.rfind(c)]: the index of the last occurrence, if any. *)
Fixpoint rfind (c : ascii) (s : string) : option nat :=
  match s with
  | EmptyString => None
  | String a s' =>
      match rfind c s' with
      | Some i => Some (S i)
      | None => if Ascii.eqb a c then Some O else None
      end
  end.

(** [s.split(c)] for a one-character separator. *)
Fixpoint split (c : ascii) (s : string) : list string :=
  match s with
  | EmptyString => [EmptyString]
  | String a s' =>
      if Ascii.eqb a c then EmptyString :: split c s'
      else match split c s' with
           | w :: ws => String a w :: ws
           | [] => [String a EmptyString]
           end
  end.

(** [sep in s] for a one-character [sep]. *)
Fixpoint contains (c : ascii) (s : string) : bool :=
  match s with
  | EmptyString => false
  | String a s' => Ascii.eqb a c || contains c s'
  end.

(** [x in ['y', 'yes']] and [x in ['n', 'no', '']], the two tests of every
    yes/no prompt of the program. *)
Definition is_yes (choice : string) : bool :=
  String.eqb choice "y" || String.eqb choice "yes".
Definition is_no (choice : string) : bool :=
  String.eqb choice "n" || String.eqb choice "no" || String.eqb choice "".

End Py.

Import Py.

(** ** pathlib's pure POSIX paths *)

Module PurePath.

(** A path is its list of parts, as [PurePosixPath._parts] has it: the
    anchor (["/"], or ["//"] for exactly two leading slashes) is the first
    part of an absolute path; equality, hashing and ordering of paths are
    those of this list. *)
Definition Path := list string.

Definition is_anchor (s : string) : bool :=
  match s with
  | String "/" _ => true
  | _ => false
  end.

(** [self._root] is not empty. *)
Definition has_root (p : Path) : bool :=
  match p with
  | a :: _ => is_anchor a
  | [] => false
  end.

(** [splitroot]: the root and the rest of one string. *)
Fixpoint lstrip_sep (s : string) : string :=
  match s with
  | String "/" s' => lstrip_sep s'
  | _ => s
  end.

Definition splitroot (s : string) : string * string :=
  match s with
  | String "/" _ =>
      let rest := lstrip_sep s in
      if (String.length s - String.length rest =? 2)%nat
      then ("//", rest) else ("/", rest)
  | _ => ("", s)
  end.

Definition keep_part (x : string) : bool :=
  negb (String.eqb x "") && negb (String.eqb x ".").

(** [PurePosixPath(s)]: empty and ["."] components vanish, [".."] stays. *)
Definition of_str (s : string) : Path :=
  let '(root, rel) := splitroot s in
  (if String.eqb root "" then [] else [root])
    ++ List.filter keep_part (split "/" rel).

(** [p / q] for two paths. *)
Definition joinpath (p q : Path) : Path :=
  if has_root q then q else p ++ q.

(** [p / s] for a string [s]. *)
Definition join_str (p : Path) (s : string) : Path :=
  joinpath p (of_str s).

Fixpoint is_prefix (p q : list string) : bool :=
  match p, q with
  | [], _ => true
  | a :: p', b :: q' => String.eqb a b && is_prefix p' q'
  | _ :: _, [] => false
  end.

(** [p.relative_to(other)]: [ValueError] unless [other] is a prefix of
    [p]; with an empty [other] (the path ["."]) unless [p] is relative. *)
Definition relative_to (p other : Path) : outcome Path :=
  match other with
  | [] =>
      if has_root p
      then Raised (ValueError "is not in the subpath of")
      else Returned p
  | _ :: _ =>
      if is_prefix other p
      then Returned (drop (length other) p)
      else Raised (ValueError "is not in the subpath of")
  end.

(** [p.parent]: the anchor is its own parent. *)
Definition parent (p : Path) : Path :=
  match p with
  | [a] => if is_anchor a then p else []
  | _ => removelast p
  end.

(** [p.name]: empty for the anchor and for the empty path. *)
Definition name (p : Path) : string :=
  match p with
  | [a] => if is_anchor a then "" else a
  | _ => List.last p ""
  end.

(** The index at which [stem] and [suffix] cut a name:
    [i = name.rfind('.')] when [0 < i < len(name) - 1]. *)
Definition suffix_cut (nm : string) : option nat :=
  match rfind "." nm with
  | Some i =>
      if (0 <? i)%nat && (i <? String.length nm - 1)%nat
      then Some i else None
  | None => None
  end.

Definition stem_of (nm : string) : string :=
  match suffix_cut nm with
  | Some i => substring 0 i nm
  | None => nm
  end.

Definition suffix_of (nm : string) : string :=
  match suffix_cut nm with
  | Some i => substring i (String.length nm - i) nm
  | None => ""
  end.

(** [p.stem] and [p.suffix] *)
Definition stem (p : Path) : string := stem_of (name p).
Definition suffix (p : Path) : string := suffix_of (name p).

(** [str(p)] *)
Definition str (p : Path) : string :=
  match p with
  | [] => "."
  | a :: rest =>
      if is_anchor a then a +:+ String.concat "/" rest
      else String.concat "/" p
  end.

(** The order of [sorted] on paths: Python compares the lists of parts,
    part by part, each part as a string by code points. *)
Fixpoint parts_leb (p q : list string) : bool :=
  match p, q with
  | [], _ => true
  | _ :: _, [] => false
  | a :: p', b :: q' =>
      if String.eqb a b then parts_leb p' q' else String.ltb a b
  end.

Definition path_le (p q : Path) : Prop := parts_leb p q = true.

(** A part that [of_str] can produce as a single component. *)
Definition good_part (x : string) : bool :=
  keep_part x && negb (contains "/" x).

End PurePath.

Import PurePath.

(** ** The scanner: [find_wav_files] *)

Module Scanner.

(** What the operating system shows under a directory: regular files with
    their size, and directories with their entries in the order in which
    [os.scandir] lists them (an order the program does not control). *)
#[warnings="-register-all"] Inductive node :=
| File (size : Z)
| Dir (entries : list (string * node)).

(** The shell patterns of [fnmatch] that the program uses: [*] matches any
    run of characters, [?] any one character, every other character
    itself.  The POSIX flavour of [pathlib] matches names case sensitively
    and lets [*] match a leading dot. *)
Fixpoint fnmatch (pat nm : string) : bool :=
  match pat with
  | EmptyString =>
      match nm with EmptyString => true | _ => false end
  | String "*" pat' =>
      (fix star (s : string) : bool :=
         fnmatch pat' s
         || match s with
            | EmptyString => false
            | String _ s' => star s'
            end) nm
  | String "?" pat' =>
      match nm with String _ nm' => fnmatch pat' nm' | EmptyString => false end
  | String c pat' =>
      match nm with
      | String d nm' => Ascii.eqb c d && fnmatch pat' nm'
      | EmptyString => false
      end
  end.

(** The entries of one directory that match, as children of [here]. *)
Definition select (pat : string) (here : Path) (es : list (string * node))
  : list Path :=
  map (fun e => here ++ [fst e]) (List.filter (fun e => fnmatch pat (fst e)) es).

(** [here.rglob(pat)] below a node: the matching entries of the directory,
    then those of each sub-directory in turn.  Entries of every kind are
    matched, directories too. *)
Fixpoint rglob_node (pat : string) (here : Path) (n : node) : list Path :=
  match n with
  | File _ => []
  | Dir es =>
      select pat here es
        ++ flat_map (fun e => rglob_node pat (here ++ [fst e]) (snd e)) es
  end.

(** [directory.rglob(pat)], where [target] is what the operating system
    finds at [directory]: nothing, a regular file or a directory.  The
    selector starts with [if not is_dir(parent_path): return iter([])]. *)
Definition rglob (pat : string) (directory : Path) (target : option node)
  : list Path :=
  match target with
  | Some (Dir es) => rglob_node pat directory (Dir es)
  | _ => []
  end.

#[global] Instance path_le_dec : RelDecision path_le.
Proof. intros p q. unfold path_le. apply _. Defined.

(** [set(l)] then [sorted(...)]: the set keeps one copy of each path, in
    an order of its own; [sorted] returns the increasing arrangement, which
    does not depend on that order (lemma [py_sorted_order_irrelevant]). *)
Definition py_set (l : list Path) : list Path := remove_dups l.
Definition py_sorted (l : list Path) : list Path := merge_sort path_le l.

Definition find_wav_files (directory : Path) (target : option node)
  : outcome (list Path) :=
  let wav_files := [] in
  let wav_files := wav_files ++ rglob "*.wav" directory target in
  let wav_files := wav_files ++ rglob "*.WAV" directory target in
  Returned (py_sorted (py_set wav_files)).

(** The files strictly below a node, with their paths. *)
Fixpoint files_under (here : Path) (n : node) : list Path :=
  match n with
  | File _ => []
  | Dir es =>
      flat_map (fun e =>
                  match snd e with
                  | File _ => [here ++ [fst e]]
                  | Dir _ => files_under (here ++ [fst e]) (snd e)
                  end) es
  end.

(** The extension of a name equals [".wav"] when case is ignored. *)
Definition has_wav_extension (nm : string) : bool :=
  String.eqb (lower (suffix_of nm)) ".wav".

(** Two listings of one tree: the same entries directory by directory,
    listed in any order. *)
Inductive same_tree : node -> node -> Prop :=
| same_file sz : same_tree (File sz) (File sz)
| same_dir es es' : same_entries es es' -> same_tree (Dir es) (Dir es')
with same_entries : list (string * node) -> list (string * node) -> Prop :=
| same_nil : same_entries [] []
| same_cons nm c c' es es' :
    same_tree c c' -> same_entries es es' ->
    same_entries ((nm, c) :: es) ((nm, c') :: es')
| same_swap e1 e2 es : same_entries (e1 :: e2 :: es) (e2 :: e1 :: es)
| same_trans es1 es2 es3 :
    same_entries es1 es2 -> same_entries es2 es3 -> same_entries es1 es3.

Scheme same_tree_mut := Induction for same_tree Sort Prop
  with same_entries_mut := Induction for same_entries Sort Prop.

End Scanner.

Import Scanner.

(** ** Output layout and staging *)

Module Layout.

(** [create_output_directory(input_dir)]; [mkdir] is the outcome of
    [output_dir.mkdir(exist_ok=True)]. *)
Definition create_output_directory
    (mkdir : Path -> outcome unit) (input_dir : Path) : outcome Path :=
  let output_dir_name := name input_dir +:+ "_converted" in
  let output_dir := join_str (parent input_dir) output_dir_name in
  bind (mkdir output_dir) (fun _ => Returned output_dir).

(** The first statements of [convert_wav_to_flac_ffmpeg] (and of the GUI's
    [convert_single_file]): the relative path, the output file name and the
    output file path.  [original_input_dir] is [None] or a path; a path
    object is always true in a condition. *)
Definition conversion_paths
    (wav_path input_dir output_dir : Path) (original_input_dir : option Path)
  : outcome (Path * string * Path) :=
  let using_cache :=
    match original_input_dir with
    | Some o => negb (bool_decide (o = input_dir))
    | None => false
    end in
  bind (if using_cache
        then relative_to wav_path input_dir
        else relative_to wav_path input_dir)
    (fun relative_path =>
       let output_filename := stem wav_path +:+ ".flac" in
       let output_file_path :=
         join_str (joinpath output_dir (parent relative_path)) output_filename in
       Returned (relative_path, output_filename, output_file_path)).

(** The result of [copy_single_file_to_cache]: the first tuple on success,
    the second one from the [except] clause. *)
Inductive copy_result :=
| Copied (cached_file relative_path : Path) (file_size : Z)
| CopyFailed (relative_path : Path) (error : string).

Definition exn_str (e : exn) : string :=
  match e with
  | ValueError m | OSError m => m
  | TimeoutExpired => "timed out"
  | _ => ""
  end.

(** [copy_single_file_to_cache]; [mkdir], [stat_size] and [copy2] are the
    outcomes of the three file-system calls. *)
Definition copy_single_file_to_cache
    (mkdir : Path -> outcome unit) (stat_size : Path -> outcome Z)
    (copy2 : Path -> Path -> outcome unit)
    (wav_file input_dir cache_dir : Path) : outcome copy_result :=
  let attempt :=
    bind (relative_to wav_file input_dir) (fun relative_path =>
    let cached_file := joinpath cache_dir relative_path in
    bind (mkdir (parent cached_file)) (fun _ =>
    bind (stat_size wav_file) (fun file_size =>
    bind (copy2 wav_file cached_file) (fun _ =>
    Returned (Copied cached_file relative_path file_size))))) in
  match attempt with
  | Returned r => Returned r
  | Raised e =>
      if is_Exception e
      then bind (relative_to wav_file input_dir) (fun relative_path =>
           Returned (CopyFailed relative_path (exn_str e)))
      else Raised e
  end.

(** Paths as [of_str] builds them: an anchor only in front, and after it
    components that are neither empty nor ["."] and hold no separator. *)
Definition wf_path (p : Path) : bool :=
  match p with
  | [] => true
  | a :: rest =>
      (String.eqb a "/" || String.eqb a "//" || good_part a)
      && forallb good_part rest
  end.

End Layout.

Import Layout.

(** ** The per-file conversion *)

Module Convert.

(** [subprocess.CompletedProcess], the two fields the program reads. *)
Record CompletedProcess := { returncode : Z; stderr : string }.

(** What the external transcoder does with one command line: it exits after
    some seconds with a code and a diagnostic text, it never exits, or it
    cannot be started at all ([FileNotFoundError] and the like). *)
Inductive process :=
| Exits (after : Q) (code : Z) (diagnostic : string)
| Hangs
| CannotStart (e : exn).

(** [subprocess.run(cmd, capture_output=True, text=True, timeout=t)] *)
Definition subprocess_run (proc : process) (timeout : Q)
  : outcome CompletedProcess :=
  match proc with
  | Exits d rc err =>
      if Qle_bool d timeout
      then Returned {| returncode := rc; stderr := err |}
      else Raised TimeoutExpired
  | Hangs => Raised TimeoutExpired
  | CannotStart e => Raised e
  end.

(** The process is still running when the timeout expires. *)
Definition exceeds_timeout (proc : process) (timeout : Q) : Prop :=
  match proc with
  | Exits d _ _ => (timeout < d)%Q
  | Hangs => True
  | CannotStart _ => False
  end.

(** The surroundings of one conversion: the file-system calls it makes, the
    transcoder, and the reading of the clock when the result is built. *)
Record conv_env := {
  mkdir_parents : Path -> outcome unit;  (* mkdir(parents=True, exist_ok=True) *)
  input_stat : outcome Z;                (* wav_path.stat().st_size *)
  ffmpeg : list string -> process;
  output_exists : bool;                  (* output_file_path.exists() *)
  output_stat : outcome Z;               (* output_file_path.stat().st_size *)
  elapsed : Q                            (* time.time() - start_time *)
}.

(** [a / b] on integers: [ZeroDivisionError] for a zero divisor.  The
    quotient only feeds the text of a message; it is kept exact. *)
Definition truediv (a b : Z) : outcome Q :=
  if b =? 0 then Raised ZeroDivisionError
  else Returned (inject_Z a / inject_Z b)%Q.

(** [(1 - output_size / input_size) * 100 if input_size > 0 else 0] *)
Definition compression_ratio (output_size input_size : Z) : outcome Q :=
  if 0 <? input_size
  then bind (truediv output_size input_size)
            (fun q => Returned ((1 - q) * inject_Z 100)%Q)
  else Returned 0%Q.

(** The returned tuple
    [(success, relative_path, message, input_size, output_size, duration)]. *)
Record result := {
  success : bool;
  relative_path : string;
  message : string;
  input_size : Z;
  output_size : Z;
  duration : Q
}.

Definition timeout_seconds : Q := inject_Z 300.

Section Conversion.

(** The renderings [{x:.1f}] and [{x:.2f}] of the f-strings. *)
Variables format_1f format_2f : Q -> string.

Definition ffmpeg_cmd (wav_path : Path) (ffmpeg_threads compression_level : Z)
    (output_file_path : Path) : list string :=
  [ "ffmpeg";
    "-i"; str wav_path;
    "-threads"; pretty ffmpeg_threads;
    "-c:a"; "flac";
    "-compression_level"; pretty compression_level;
    "-y";
    "-v"; "error";
    str output_file_path ].

(** The two [except] clauses, entered with the [input_size] assigned so far
    and the [relative_path] of the [try] block. *)
Definition handle (env : conv_env) (wav_path input_dir : Path)
    (relative_path_in_try : Path) (input_size_so_far : Z) (e : exn)
  : outcome result :=
  match e with
  | TimeoutExpired =>
      Returned {| success := false;
                  relative_path := str relative_path_in_try;
                  message := "Conversion timed out (>5 minutes)";
                  input_size := input_size_so_far;
                  output_size := 0;
                  duration := elapsed env |}
  | _ =>
      if is_Exception e
      then bind (relative_to wav_path input_dir) (fun rel =>
           Returned {| success := false;
                       relative_path := str rel;
                       message := "Unexpected error: " +:+ exn_str e;
                       input_size := input_size_so_far;
                       output_size := 0;
                       duration := elapsed env |})
      else Raised e
  end.

(** A step of the [try] block: go on with its value, or enter the handler. *)
Definition step {A} (c : outcome A) (h : exn -> outcome result)
    (k : A -> outcome result) : outcome result :=
  match c with
  | Returned a => k a
  | Raised e => h e
  end.

Definition convert_wav_to_flac_ffmpeg (env : conv_env)
    (wav_path input_dir output_dir : Path)
    (ffmpeg_threads compression_level : Z)
    (original_input_dir : option Path) : outcome result :=
  step (conversion_paths wav_path input_dir output_dir original_input_dir)
       (handle env wav_path input_dir [] 0)
  (fun '(rel, output_filename, output_file_path) =>
  step (mkdir_parents env (parent output_file_path))
       (handle env wav_path input_dir rel 0)
  (fun _ =>
  step (input_stat env)
       (handle env wav_path input_dir rel 0)
  (fun input_size =>
  step (subprocess_run
          (ffmpeg env (ffmpeg_cmd wav_path ffmpeg_threads compression_level
                                  output_file_path))
          timeout_seconds)
       (handle env wav_path input_dir rel input_size)
  (fun completed =>
  if returncode completed =? 0 then
    if output_exists env then
      step (output_stat env)
           (handle env wav_path input_dir rel input_size)
      (fun output_size =>
      step (compression_ratio output_size input_size)
           (handle env wav_path input_dir rel input_size)
      (fun ratio =>
      Returned {| success := true;
                  relative_path := str rel;
                  message := "Converted to " +:+ output_filename +:+ " ("
                             +:+ format_1f ratio +:+ "% smaller, "
                             +:+ format_2f (elapsed env) +:+ "s)";
                  input_size := input_size;
                  output_size := output_size;
                  duration := elapsed env |}))
    else
      Returned {| success := false;
                  relative_path := str rel;
                  message := "FFmpeg completed but output file not found";
                  input_size := input_size;
                  output_size := 0;
                  duration := elapsed env |}
  else
    Returned {| success := false;
                relative_path := str rel;
                message := "FFmpeg error (code "
                           +:+ pretty (returncode completed) +:+ "): "
                           +:+ strip (stderr completed);
                input_size := input_size;
                output_size := 0;
                duration := elapsed env |})))).

End Conversion.

End Convert.

Import Convert.

(** ** The console, the file system and the commands that use them *)

Module Sys.

(** What the user does at a prompt: a line is typed, or Ctrl+C is pressed
    (the end of the input is the end of the list). *)
Inductive key :=
| Line (s : string)
| CtrlC.

(** The state a run works on.  [fs] is the tree below the root directory,
    [cwd] the names that lead from the root to the working directory,
    [protected] tells the entries that the operating system refuses to
    delete, [disk_usage] is what [shutil.disk_usage] answers. *)
Record World := {
  stdin : list key;
  stdout : list string;
  fs : node;
  cwd : list string;
  protected : Path -> bool;
  disk_usage : Path -> outcome (Z * Z * Z)
}.

Definition with_console (w : World) (i : list key) (o : list string) : World :=
  {| stdin := i; stdout := o; fs := fs w; cwd := cwd w;
     protected := protected w; disk_usage := disk_usage w |}.

Definition with_fs (w : World) (t : node) : World :=
  {| stdin := stdin w; stdout := stdout w; fs := t; cwd := cwd w;
     protected := protected w; disk_usage := disk_usage w |}.

(** A command: it runs in a world, returns or raises, and leaves a world. *)
Definition M (A : Type) := World -> outcome A * World.

Definition ret {A} (a : A) : M A := fun w => (Returned a, w).
Definition raise {A} (e : exn) : M A := fun w => (Raised e, w).
Definition mbind {A B} (c : M A) (k : A -> M B) : M B :=
  fun w =>
    match c w with
    | (Returned a, w') => k a w'
    | (Raised e, w') => (Raised e, w')
    end.
Definition lift {A} (x : outcome A) : M A := fun w => (x, w).

(** [try: body finally: fin] *)
Definition try_finally {A} (body : M A) (fin : M unit) : M A :=
  fun w =>
    let '(r, w1) := body w in
    match fin w1 with
    | (Returned _, w2) => (r, w2)
    | (Raised e, w2) => (Raised e, w2)
    end.

(** [try: body except Exception as e: handler(e)] *)
Definition try_except {A} (body : M A) (handler : exn -> M A) : M A :=
  fun w =>
    match body w with
    | (Raised e, w1) => if is_Exception e then handler e w1 else (Raised e, w1)
    | r => r
    end.

(** [print(s)] *)
Definition print (s : string) : M unit :=
  fun w => (Returned tt, with_console w (stdin w) (stdout w ++ [s])).

(** [input(prompt)] *)
Definition input (prompt : string) : M string :=
  fun w =>
    let o := stdout w ++ [prompt] in
    match stdin w with
    | Line s :: rest => (Returned s, with_console w rest o)
    | CtrlC :: rest => (Raised KeyboardInterrupt, with_console w rest o)
    | [] => (Raised EOFError, with_console w [] o)
    end.

(** The names that lead from the root to a path: an anchor starts over from
    the root, [".."] steps back, a relative path starts at [cwd]. *)
Definition resolve (cwd : list string) (p : Path) : list string :=
  fold_left
    (fun acc part =>
       if is_anchor part then []
       else if String.eqb part ".." then removelast acc
       else acc ++ [part])
    p cwd.

Definition entry_named (nm : string) (e : string * node) : bool :=
  String.eqb (fst e) nm.

Fixpoint lookup (n : node) (names : list string) : option node :=
  match names with
  | [] => Some n
  | nm :: rest =>
      match n with
      | Dir es =>
          match List.find (entry_named nm) es with
          | Some e => lookup (snd e) rest
          | None => None
          end
      | File _ => None
      end
  end.

(** The tree without what the names lead to. *)
Fixpoint remove (names : list string) (n : node) : node :=
  match names, n with
  | [nm], Dir es => Dir (List.filter (fun e => negb (entry_named nm e)) es)
  | nm :: rest, Dir es =>
      Dir (map (fun e => if entry_named nm e
                         then (fst e, remove rest (snd e)) else e) es)
  | _, _ => n
  end.

Definition stat (w : World) (p : Path) : option node :=
  lookup (fs w) (resolve (cwd w) p).

(** [p.exists()], [p.is_dir()], [p.stat().st_size] *)
Definition exists_ (w : World) (p : Path) : bool :=
  match stat w p with Some _ => true | None => false end.
Definition is_dir (w : World) (p : Path) : bool :=
  match stat w p with Some (Dir _) => true | _ => false end.
Definition st_size (w : World) (p : Path) : outcome Z :=
  match stat w p with
  | Some (File sz) => Returned sz
  | Some (Dir _) => Returned 4096  (* what a directory reports on ext4 *)
  | None => Raised (OSError "No such file or directory")
  end.

(** Nothing stands against the removal of the tree at [p]. *)
Definition removable (w : World) (p : Path) : bool :=
  match stat w p, resolve (cwd w) p with
  | Some n, _ :: _ => negb (existsb (protected w) (p :: rglob_node "*" p n))
  | _, _ => false
  end.

(** [shutil.rmtree(p)]: the tree at [p] goes away, unless there is none,
    [p] is the root, or an entry of it is protected; then [OSError] is
    raised, and at least the directory itself is still there (the model
    leaves all of it in place). *)
Definition rmtree (p : Path) : M unit :=
  fun w =>
    match stat w p with
    | None => (Raised (OSError "No such file or directory"), w)
    | Some n =>
        match resolve (cwd w) p with
        | [] => (Raised (OSError "Device or resource busy"), w)
        | names =>
            if existsb (protected w) (p :: rglob_node "*" p n)
            then (Raised (OSError "Permission denied"), w)
            else (Returned tt, with_fs w (remove names (fs w)))
        end
    end.

End Sys.

Import Sys.

Declare Scope py_scope.
Notation "x <~ c ; k" := (mbind c (fun x => k))
  (at level 200, c at level 100, k at level 200, right associativity,
   format "'[v' x  <~  c ; '/' k ']'") : py_scope.
Notation "c ;; k" := (mbind c (fun _ => k))
  (at level 100, k at level 200, right associativity) : py_scope.
Open Scope py_scope.

(** ** The disk-space check *)

Module Capacity.

(** Python's [float] is IEEE 754 binary64. *)
Definition prec : Z := 53.
Definition emax : Z := 1024.

(** [float(n)] for an integer, as every mixed operation applies it: the
    nearest binary64 number, ties to even; [OverflowError] when [n] is out
    of range. *)
Definition float_of_int (n : Z) : outcome spec_float :=
  match binary_normalize prec emax n 0 false with
  | S754_infinity _ => Raised OverflowError
  | x => Returned x
  end.

(** The literal [1.2]: the binary64 number nearest to 6/5, which is
    5404319552844595 / 2^52. *)
Definition float_1_2 : spec_float :=
  S754_finite false 5404319552844595 (-52).

(** [n * x] for an integer [n] and a float [x]. *)
Definition int_mul_float (n : Z) (x : spec_float) : outcome spec_float :=
  bind (float_of_int n) (fun y => Returned (SFmul prec emax y x)).

(** [a < x] for an integer [a] and a float [x]: Python compares the two
    exact values, without converting [a]. *)
Definition int_lt_float (a : Z) (x : spec_float) : bool :=
  match x with
  | S754_zero _ => a <? 0
  | S754_infinity s => negb s
  | S754_nan => false
  | S754_finite s m e =>
      let v := if s then Z.neg m else Z.pos m in
      if 0 <=? e then a <? v * 2 ^ e else a * 2 ^ (- e) <? v
  end.

(** The record after [k] shifts of a mantissa [m]: the quotient by [2^k],
    and where the remainder lies with respect to half of [2^k]. *)
Definition shifted (m : Z) (k : nat) (mrs : shr_record) : Prop :=
  shr_m mrs = m / 2 ^ Z.of_nat k
  /\ (shr_r mrs = true <-> 2 ^ Z.of_nat k <= 2 * (m mod 2 ^ Z.of_nat k))
  /\ (shr_s mrs = true <->
      m mod 2 ^ Z.of_nat k <> 0 /\ 2 * (m mod 2 ^ Z.of_nat k) <> 2 ^ Z.of_nat k).

Definition size_of (p : Path) : M Z := fun w => (st_size w p, w).

(** [sum(f.stat().st_size for f in wav_files)] *)
Fixpoint sum_sizes (wav_files : list Path) : M Z :=
  match wav_files with
  | [] => ret 0
  | f :: rest =>
      s <~ size_of f ;
      t <~ sum_sizes rest ;
      ret (s + t)
  end.

(** The [while True] loop of a yes/no prompt.  Each turn reads one line, so
    a loop started with more turns than there are keys left ends by an
    answer, by Ctrl+C or by the end of the input. *)
Fixpoint ask_proceed (turns : nat) : M bool :=
  match turns with
  | O => raise EOFError
  | S turns' =>
      choice <~ input "Proceed without disk space verification? (y/N): " ;
      let choice := lower (strip choice) in
      if is_yes choice then ret true
      else if is_no choice then ret false
      else print "Please enter 'y' for yes or 'n' for no." ;;
           ask_proceed turns'
  end.

Definition while_true {A} (loop : nat -> M A) : M A :=
  fun w => loop (S (length (stdin w))) w.

(** [check_cache_disk_space(wav_files, cache_dir, logger)].  The messages
    are kept as the templates of the source: the gigabyte figures they show
    are not computed (for sizes below 2^1024 bytes their computation cannot
    fail). *)
Definition check_cache_disk_space (wav_files : list Path) (cache_dir : Path)
  : M bool :=
  total_size_bytes <~ sum_sizes wav_files ;
  try_except
    (usage <~ (fun w => (disk_usage w cache_dir, w)) ;
     let '(total_space, used_space, free_space) := usage in
     required_space_bytes <~ lift (int_mul_float total_size_bytes float_1_2) ;
     print "Disk space check:" ;;
     print "WAV files to cache: {total_size_gb:.2f} GB" ;;
     print "Required (with 20% margin): {required_space_gb:.2f} GB" ;;
     print "Available space: {free_space_gb:.2f} GB" ;;
     if int_lt_float free_space required_space_bytes then
       print "Insufficient disk space! Need {shortage_gb:.2f} GB more." ;;
       ret false
     else
       print "Sufficient space available ({remaining_gb:.2f} GB will remain free)" ;;
       ret true)
    (fun e =>
       print "Warning: Could not check disk space: {e}" ;;
       while_true ask_proceed).

(** The three outcomes that the specification tells apart. *)
Inductive capacity := Sufficient | Insufficient | CapacityUnknown.

(** What the world holds for a check: the free-space query fails, or it
    answers and the binary64 comparison of the source decides. *)
Definition capacity_of (total_size_bytes : Z) (usage : outcome (Z * Z * Z))
  : capacity :=
  match usage with
  | Returned (_, _, free_space) =>
      match int_mul_float total_size_bytes float_1_2 with
      | Returned required =>
          if int_lt_float free_space required then Insufficient else Sufficient
      | Raised _ => CapacityUnknown
      end
  | Raised _ => CapacityUnknown
  end.

End Capacity.

Import Capacity.

(** ** The run: the directory prompt and the guarded part of [main] *)

Module Run.

Definition quote : ascii := ascii_of_nat 34.

Definition startswith_quote (s : string) : bool :=
  match s with
  | String c _ => Ascii.eqb c quote
  | EmptyString => false
  end.
Definition endswith_quote (s : string) : bool :=
  startswith_quote (String.rev s).

(** [s[1:-1]] *)
Definition slice_1_m1 (s : string) : string :=
  substring 1 (String.length s - 2) s.

(** [get_input_directory()] *)
Fixpoint get_input_directory_loop (turns : nat) : M Path :=
  match turns with
  | O => raise EOFError
  | S turns' =>
      dir_path <~ input "Enter the directory path containing WAV files: " ;
      let dir_path := strip dir_path in
      let dir_path :=
        if startswith_quote dir_path && endswith_quote dir_path
        then slice_1_m1 dir_path else dir_path in
      let path := of_str dir_path in
      fun w =>
        if exists_ w path && is_dir w path then ret path w
        else (print "Error: Directory '{dir_path}' does not exist or is not a directory." ;;
              print "Please try again." ;;
              get_input_directory_loop turns') w
  end.

Definition get_input_directory : M Path := while_true get_input_directory_loop.

(** [cleanup_cache(cache_dir, logger)] *)
Definition cleanup_cache (cache_dir : Path) : M unit :=
  try_except
    (fun w =>
       if exists_ w cache_dir then
         (print "Cleaning up cache directory..." ;;
          rmtree cache_dir ;;
          print "Cache cleanup completed. Removed {file_count} cached files.") w
       else ret tt w)
    (fun e =>
       print "Warning: Error during cache cleanup: {e}" ;;
       print "You may need to manually delete the cache directory.").

Section Main.

(** The two thread pools and the final report are left to the caller of
    the model: any command may stand for them. *)
Variable copy_files_to_cache :
  list Path -> Path -> Path -> M (list Path * list (Path * string)).
Variable convert_all :
  list Path -> Path -> Path -> Z -> Z -> option Path -> M (list result).
Variable report : list result -> M unit.

(** The settings collected before the [try]: [cache_dir] is [None] unless
    caching was chosen. *)
Variables (input_dir output_dir : Path) (cache_dir : option Path).
Variables (thread_count compression_level : Z).

Definition use_cache : bool :=
  match cache_dir with Some _ => true | None => false end.

(** The debug loop over the files found. *)
Fixpoint log_found (wav_files : list Path) : M unit :=
  match wav_files with
  | [] => ret tt
  | f :: rest =>
      lift (relative_to f input_dir) ;; size_of f ;; log_found rest
  end.

(** The body of the [try] statement of [main]. *)
Definition main_try : M unit :=
  wav_files <~ (fun w => (find_wav_files input_dir (stat w input_dir), w)) ;
  match wav_files with
  | [] =>
      print "No WAV files found in '{input_dir}' or its subdirectories" ;;
      print "Please make sure the directory contains WAV files and try again."
  | _ :: _ =>
      print "Found {len(wav_files)} WAV file(s) to convert" ;;
      log_found wav_files ;;
      space_ok <~ match cache_dir with
                  | Some c => check_cache_disk_space wav_files c
                  | None => ret true
                  end ;
      if negb space_ok then
        print "Cannot proceed due to insufficient disk space for caching."
      else
        (if use_cache then print "Cache disk space check passed." else ret tt) ;;
        sum_sizes wav_files ;;
        print "Ready to convert {files_to_convert} files ({total_size_mb:.1f} MB) using:" ;;
        confirm <~ input "Proceed? (y/N): " ;
        if negb (is_yes (lower (strip confirm))) then
          print "Conversion cancelled by user"
        else
          match cache_dir with
          | Some c =>
              copied <~ copy_files_to_cache wav_files input_dir c ;
              match fst copied with
              | [] => print "No files could be cached. Cannot proceed."
              | cached_wav_files =>
                  print "Caching completed. {len(cached_wav_files)} files ready for conversion." ;;
                  print "Starting optimized conversion..." ;;
                  results <~ convert_all cached_wav_files c output_dir
                               thread_count compression_level (Some input_dir) ;
                  report results
              end
          | None =>
              print "Starting optimized conversion..." ;;
              results <~ convert_all wav_files input_dir output_dir
                           thread_count compression_level None ;
              report results
          end
  end.

(** The [finally] clause of [main]:
    [if cache_dir and cache_dir.exists(): cleanup_cache(cache_dir, ...)]. *)
Definition main_finally : M unit :=
  fun w =>
    match cache_dir with
    | Some c => if exists_ w c then cleanup_cache c w else ret tt w
    | None => ret tt w
    end.

(** [main] from its [try] on. *)
Definition main_guarded : M unit := try_finally main_try main_finally.

End Main.

End Run.

Import Run.

(** ** Sample surroundings, for the examples *)

Module Examples.

(** A transcoder that never exits. *)
Definition hanging_env : conv_env :=
  {| mkdir_parents := fun _ => Returned tt;
     input_stat := Returned 1000;
     ffmpeg := fun _ => Hangs;
     output_exists := false;
     output_stat := Raised (OSError "No such file or directory");
     elapsed := inject_Z 300 |}.

(** An empty input file, converted in two seconds to a file of 42 bytes. *)
Definition zero_byte_env : conv_env :=
  {| mkdir_parents := fun _ => Returned tt;
     input_stat := Returned 0;
     ffmpeg := fun _ => Exits (inject_Z 2) 0 "";
     output_exists := true;
     output_stat := Returned 42;
     elapsed := inject_Z 2 |}.

(** A small tree: [/music/a.wav], [/cache/a.wav] and [/notes.txt]. *)
Definition sample_fs : node :=
  Dir [("music", Dir [("a.wav", File 10)]);
       ("cache", Dir [("a.wav", File 10)]);
       ("notes.txt", File 3)].

Definition sample_world (keys : list key) : World :=
  {| stdin := keys; stdout := []; fs := sample_fs; cwd := [];
     protected := fun _ => false;
     disk_usage := fun _ => Returned (1000, 0, 1000) |}.

(** The same, where the free space cannot be told. *)
Definition blind_world (keys : list key) : World :=
  {| stdin := keys; stdout := []; fs := sample_fs; cwd := [];
     protected := fun _ => false;
     disk_usage := fun _ => Raised (OSError "Function not implemented") |}.

(** The same, where the staged copy cannot be deleted. *)
Definition locked_world (keys : list key) : World :=
  {| stdin := keys; stdout := []; fs := sample_fs; cwd := [];
     protected := fun p => bool_decide (p = ["/"; "cache"; "a.wav"]);
     disk_usage := fun _ => Returned (1000, 0, 1000) |}.

(** One file of [size] bytes at [/music/a.wav], and [free] bytes free. *)
Definition sized_world (size free : Z) : World :=
  {| stdin := []; stdout := [];
     fs := Dir [("music", Dir [("a.wav", File size)]); ("cache", Dir [])];
     cwd := []; protected := fun _ => false;
     disk_usage := fun _ => Returned (free, 0, free) |}.

(** Stand-ins for the two pools and the report. *)
Definition copy_nothing (wav_files : list Path) (input_dir cache_dir : Path)
  : M (list Path * list (Path * string)) :=
  ret (map (fun f => match relative_to f input_dir with
                     | Returned r => joinpath cache_dir r
                     | Raised _ => f
                     end) wav_files, []).
Definition convert_nothing (wav_files : list Path) (input_dir output_dir : Path)
    (threads level : Z) (original : option Path) : M (list result) :=
  ret [].
Definition convert_interrupted (wav_files : list Path) (input_dir output_dir : Path)
    (threads level : Z) (original : option Path) : M (list result) :=
  raise KeyboardInterrupt.
Definition report_nothing (results : list result) : M unit := ret tt.

End Examples.

Import Examples.

(** ** Integers read from text *)

Module Numbers.

(** A line feed, as the escape [\n] of the source writes it. *)
Definition nl : string := String (ascii_of_nat 10) EmptyString.

(** [s * n] for a string [s]. *)
Fixpoint times (s : string) (n : nat) : string :=
  match n with
  | O => EmptyString
  | S n' => s +:+ times s n'
  end.

(** The text holds ASCII characters only: the range on which the string
    functions of this development are those of Python. *)
Fixpoint is_ascii (s : string) : bool :=
  match s with
  | EmptyString => true
  | String c s' => (nat_of_ascii c <? 128)%nat && is_ascii s'
  end.

Definition is_digit (c : ascii) : bool :=
  let n := nat_of_ascii c in (48 <=? n)%nat && (n <=? 57)%nat.

Definition digit_value (c : ascii) : Z := Z.of_nat (nat_of_ascii c) - 48.

(** The blanks that [int] skips around its argument: TAB, LF, VT, FF, CR
    and the space (not the separators FS to US that [str.strip] removes). *)
Definition int_isspace (c : ascii) : bool :=
  let n := nat_of_ascii c in
  ((9 <=? n)%nat && (n <=? 13)%nat) || (n =? 32)%nat.

Fixpoint int_lstrip (s : string) : string :=
  match s with
  | String c s' => if int_isspace c then int_lstrip s' else s
  | EmptyString => EmptyString
  end.

Definition int_strip (s : string) : string :=
  String.rev (int_lstrip (String.rev (int_lstrip s))).

(** Decimal digits, where one underscore may stand between two digits. *)
Fixpoint parse_digits (s : string) (acc : Z) (after_digit : bool) : option Z :=
  match s with
  | EmptyString => if after_digit then Some acc else None
  | String c s' =>
      if is_digit c then parse_digits s' (10 * acc + digit_value c) true
      else if Ascii.eqb c "_" && after_digit then parse_digits s' acc false
      else None
  end.

Fixpoint count_digits (s : string) : nat :=
  match s with
  | EmptyString => O
  | String c s' => ((if is_digit c then 1 else 0) + count_digits s')%nat
  end.

(** [sys.get_int_max_str_digits()], as the interpreter starts with. *)
Definition int_max_str_digits : nat := 4300.

(** [int(s)] for a string of ASCII characters: blanks around, one optional
    sign, digits; [ValueError] for anything else and for more digits than
    the interpreter converts.  (The program reads none of the messages; for
    a literal that is wrong in both ways the text may be the other one.) *)
Definition py_int (s : string) : outcome Z :=
  let body := int_strip s in
  let parsed :=
    match body with
    | String "+" rest => parse_digits rest 0 false
    | String "-" rest => option_map Z.opp (parse_digits rest 0 false)
    | _ => parse_digits body 0 false
    end in
  match parsed with
  | Some n =>
      if (int_max_str_digits <? count_digits body)%nat
      then Raised (ValueError "Exceeds the limit (4300 digits) for integer string conversion")
      else Returned n
  | None => Raised (ValueError "invalid literal for int() with base 10")
  end.

End Numbers.

Import Numbers.

(** ** The other prompts of the command line *)

Module Prompts.

(** What is typed holds ASCII characters only. *)
Definition typed_ascii (k : key) : bool :=
  match k with
  | Line s => is_ascii s
  | CtrlC => true
  end.


(** [get_compression_level()] *)
Fixpoint get_compression_level_loop (turns : nat) : M Z :=
  match turns with
  | O => raise EOFError
  | S turns' =>
      level <~ input "Choose compression level 0-12 (default=12): " ;
      let level := strip level in
      if String.eqb level "" then ret 12
      else
        match py_int level with
        | Returned level =>
            if (0 <=? level) && (level <=? 12) then ret level
            else print "Please enter a number between 0 and 12" ;;
                 get_compression_level_loop turns'
        | Raised (ValueError _) =>
            print "Please enter a valid number" ;;
            get_compression_level_loop turns'
        | Raised e => raise e
        end
  end.

Definition get_compression_level : M Z := while_true get_compression_level_loop.

(** [get_thread_count()], where [max_cores] is the number that
    [psutil.cpu_count()] answers. *)
Fixpoint get_thread_count_loop (max_cores : Z) (turns : nat) : M Z :=
  match turns with
  | O => raise EOFError
  | S turns' =>
      print (nl +:+ "Your system has " +:+ pretty max_cores
             +:+ " CPU cores available.") ;;
      cores <~ input ("How many cores would you like to use? (1-"
                      +:+ pretty max_cores +:+ ", default="
                      +:+ pretty max_cores +:+ "): ") ;
      let cores := strip cores in
      if String.eqb cores "" then ret max_cores
      else
        match py_int cores with
        | Returned cores =>
            if (1 <=? cores) && (cores <=? max_cores) then ret cores
            else print ("Please enter a number between 1 and "
                        +:+ pretty max_cores) ;;
                 get_thread_count_loop max_cores turns'
        | Raised (ValueError _) =>
            print "Please enter a valid number" ;;
            get_thread_count_loop max_cores turns'
        | Raised e => raise e
        end
  end.

Definition get_thread_count (max_cores : Z) : M Z :=
  while_true (get_thread_count_loop max_cores).

(** [ask_user_about_caching()] *)
Fixpoint ask_user_about_caching_loop (turns : nat) : M bool :=
  match turns with
  | O => raise EOFError
  | S turns' =>
      choice <~ input "Is this a network share? (ie: R:\research) (y/N): " ;
      let choice := lower (strip choice) in
      if is_yes choice then ret true
      else if is_no choice then ret false
      else print "Please enter 'y' for yes or 'n' for no." ;;
           ask_user_about_caching_loop turns'
  end.

Definition ask_user_about_caching : M bool :=
  print (nl +:+ times "=" 50) ;;
  print "NETWORK LOCATION DETECTION" ;;
  print (times "=" 50) ;;
  while_true ask_user_about_caching_loop.



End Prompts.

Import Prompts.

(** ** The two thread pools, result by result *)

Module Pools.

(** [ThreadPoolExecutor(max_workers=n)] refuses a pool without workers. *)
Definition ThreadPoolExecutor (max_workers : Z) : outcome unit :=
  if max_workers <=? 0
  then Raised (ValueError "max_workers must be greater than 0")
  else Returned tt.

(** The variables that the loop of [copy_files_to_cache] updates. *)
Record staging := {
  cached_files : list Path;
  failed_copies : list (Path * string);
  total_size : Z;
  completed_count : Z
}.

(** The variables that the conversion loop of [main] updates. *)
Record totals := {
  successful_conversions : Z;
  failed_conversions : Z;
  converted_files : list string;
  failed_files : list (string * string);
  total_input_size : Z;
  total_output_size : Z
}.

Definition no_totals : totals :=
  {| successful_conversions := 0; failed_conversions := 0;
     converted_files := []; failed_files := [];
     total_input_size := 0; total_output_size := 0 |}.

(** The variables of the staging loop after one more result. *)
Definition staged (st : staging) (wav_file : Path) (result : copy_result)
  : staging :=
  match result with
  | Copied cached_file _ file_size =>
      {| cached_files := cached_files st ++ [cached_file];
         failed_copies := failed_copies st;
         total_size := total_size st + file_size;
         completed_count := completed_count st + 1 |}
  | CopyFailed _ error_msg =>
      {| cached_files := cached_files st;
         failed_copies := failed_copies st ++ [(wav_file, error_msg)];
         total_size := total_size st;
         completed_count := completed_count st + 1 |}
  end.

(** The variables of the conversion loop after one more result. *)
Definition tally (t : totals) (r : result) : totals :=
  if success r then
    {| successful_conversions := successful_conversions t + 1;
       failed_conversions := failed_conversions t;
       converted_files := converted_files t ++ [relative_path r];
       failed_files := failed_files t;
       total_input_size := total_input_size t + input_size r;
       total_output_size := total_output_size t + output_size r |}
  else
    {| successful_conversions := successful_conversions t;
       failed_conversions := failed_conversions t + 1;
       converted_files := converted_files t;
       failed_files := failed_files t ++ [(relative_path r, message r)];
       total_input_size := total_input_size t;
       total_output_size := total_output_size t |}.

(** The same after the results of a list of files, and a file with its
    result as the future that holds them. *)
Definition staged_all (st : staging) (tasks : list (Path * copy_result)) : staging :=
  fold_left (fun s t => staged s (fst t) (snd t)) tasks st.

Definition as_future (t : Path * copy_result) : Path * outcome copy_result :=
  (fst t, Returned (snd t)).

(** A result tagged as a failure, and the sum of a size over results. *)
Definition failed (r : result) : bool := negb (success r).

Definition sum_of (f : result -> Z) (results : list result) : Z :=
  fold_right (fun r acc => f r + acc) 0 results.

Section Pool.

(** [as_completed(fs)] hands over the futures one by one, each of them
    once, in the order in which the workers finish. *)
Variable as_completed : forall A : Type, list A -> list A.

(** The body of [for future in as_completed(future_to_file)]:
    [task] is the file of the future with what [future.result()] gives. *)
Definition staging_turn (n_files : Z) (st : staging)
    (task : Path * outcome copy_result) : M staging :=
  result <~ lift (snd task) ;
  match result with
  | Copied cached_file relative_path file_size =>
      let completed_count := completed_count st + 1 in
      (if (completed_count mod 10 =? 0) || (n_files <=? 20)
       then print ("✓ Cached " +:+ pretty completed_count +:+ "/"
                   +:+ pretty n_files +:+ " files...")
       else ret tt) ;;
      ret {| cached_files := cached_files st ++ [cached_file];
             failed_copies := failed_copies st;
             total_size := total_size st + file_size;
             completed_count := completed_count |}
  | CopyFailed relative_path error_msg =>
      print ("✗ Cache failed: " +:+ str relative_path) ;;
      ret {| cached_files := cached_files st;
             failed_copies := failed_copies st ++ [(fst task, error_msg)];
             total_size := total_size st;
             completed_count := completed_count st + 1 |}
  end.

Fixpoint staging_loop (n_files : Z) (st : staging)
    (completed : list (Path * outcome copy_result)) : M staging :=
  match completed with
  | [] => ret st
  | task :: rest =>
      st' <~ staging_turn n_files st task ;
      staging_loop n_files st' rest
  end.

(** [copy_files_to_cache(wav_files, input_dir, cache_dir, logger)]; the
    three file-system calls are those of [copy_single_file_to_cache]. *)
Definition copy_files_to_cache
    (mkdir : Path -> outcome unit) (stat_size : Path -> outcome Z)
    (copy2 : Path -> Path -> outcome unit)
    (wav_files : list Path) (input_dir cache_dir : Path)
  : M (list Path * list (Path * string)) :=
  print "📁 Copying files to local cache..." ;;
  let n_files := Z.of_nat (length wav_files) in
  let copy_threads := Z.min 8 n_files in
  lift (ThreadPoolExecutor copy_threads) ;;
  let future_to_file :=
    map (fun wav_file =>
           (wav_file,
            copy_single_file_to_cache mkdir stat_size copy2
              wav_file input_dir cache_dir)) wav_files in
  st <~ staging_loop n_files
          {| cached_files := []; failed_copies := []; total_size := 0;
             completed_count := 0 |}
          (as_completed _ future_to_file) ;
  print ("✅ Caching completed: "
         +:+ pretty (Z.of_nat (length (cached_files st)))
         +:+ " files ready for conversion") ;;
  (match failed_copies st with
   | [] => ret tt
   | _ :: _ =>
       print ("⚠️  " +:+ pretty (Z.of_nat (length (failed_copies st)))
              +:+ " files failed to cache and will be skipped")
   end) ;;
  ret (cached_files st, failed_copies st).

(** The body of [for i, future in enumerate(as_completed(...), 1)]. *)
Definition conversion_turn (n_files : Z) (t : totals) (i : Z)
    (future : outcome result) : M totals :=
  r <~ lift future ;
  if success r then
    (if (i mod 5 =? 0) || (n_files <=? 20)
     then print ("✓ Converted " +:+ pretty i +:+ "/" +:+ pretty n_files
                 +:+ " files...")
     else ret tt) ;;
    ret {| successful_conversions := successful_conversions t + 1;
           failed_conversions := failed_conversions t;
           converted_files := converted_files t ++ [relative_path r];
           failed_files := failed_files t;
           total_input_size := total_input_size t + input_size r;
           total_output_size := total_output_size t + output_size r |}
  else
    print ("✗ (" +:+ pretty i +:+ "/" +:+ pretty n_files +:+ ") "
           +:+ relative_path r +:+ ": " +:+ message r) ;;
    ret {| successful_conversions := successful_conversions t;
           failed_conversions := failed_conversions t + 1;
           converted_files := converted_files t;
           failed_files := failed_files t ++ [(relative_path r, message r)];
           total_input_size := total_input_size t;
           total_output_size := total_output_size t |}.

Fixpoint conversion_loop (n_files : Z) (t : totals) (i : Z)
    (completed : list (outcome result)) : M totals :=
  match completed with
  | [] => ret t
  | future :: rest =>
      t' <~ conversion_turn n_files t i future ;
      conversion_loop n_files t' (i + 1) rest
  end.

(** The renderings [{x:.1f}] and [{x:.2f}] of the f-strings. *)
Variables format_1f format_2f : Q -> string.

(** The [with ThreadPoolExecutor(max_workers=thread_count)] statement of
    [main], entered with the counters at zero; [env_of] gives the
    surroundings in which each file is converted. *)
Definition convert_all (env_of : Path -> conv_env)
    (wav_files : list Path) (input_dir output_dir : Path)
    (thread_count compression_level : Z) (original_input_dir : option Path)
  : M totals :=
  lift (ThreadPoolExecutor thread_count) ;;
  let future_to_file :=
    map (fun wav_file =>
           convert_wav_to_flac_ffmpeg format_1f format_2f (env_of wav_file)
             wav_file input_dir output_dir thread_count compression_level
             original_input_dir) wav_files in
  conversion_loop (Z.of_nat (length wav_files)) no_totals 1
    (as_completed _ future_to_file).

End Pool.

End Pools.

Import Pools.

(** ** Directory listings *)

Module Listing.

(** The names a directory listing can hold: not empty, not ["."], without
    a separator. *)
Fixpoint wf_node (n : node) : bool :=
  match n with
  | File _ => true
  | Dir es => forallb (fun e => good_part (fst e) && wf_node (snd e)) es
  end.


(** One more character of a pattern without wildcard has matched. *)
Ltac match_char H b :=
  destruct b as [|? b]; [discriminate|];
  cbn [fnmatch] in H;
  let Hc := fresh "Hc" in
  apply andb_true_iff in H as [Hc H]; apply Ascii.eqb_eq in Hc.

End Listing.

Import Listing.

(** ** The GUI: version comparison and the directory fields *)

Module Gui.

(** [[int(x) for x in xs]] *)
Fixpoint int_parts (xs : list string) : outcome (list Z) :=
  match xs with
  | [] => Returned []
  | x :: rest =>
      bind (py_int x) (fun n =>
      bind (int_parts rest) (fun ns => Returned (n :: ns)))
  end.

(** [a > b] on lists of integers. *)
Fixpoint list_gt (a b : list Z) : bool :=
  match a, b with
  | [], _ => false
  | _ :: _, [] => true
  | x :: a', y :: b' => if x =? y then list_gt a' b' else y <? x
  end.

(** The same on lists that stand for their extension by zeros: [a] above
    zeros only, zeros only above [b], and [a] above [b]. *)
Fixpoint gt_zeros (a : list Z) : bool :=
  match a with
  | [] => false
  | x :: a' => if x =? 0 then gt_zeros a' else 0 <? x
  end.

Fixpoint zeros_gt (b : list Z) : bool :=
  match b with
  | [] => false
  | y :: b' => if 0 =? y then zeros_gt b' else y <? 0
  end.

Fixpoint gt_padded (a b : list Z) : bool :=
  match a, b with
  | [], _ => zeros_gt b
  | _ :: _, [] => gt_zeros a
  | x :: a', y :: b' => if x =? y then gt_padded a' b' else y <? x
  end.

(** [l.extend([0] * (n - len(l)))] *)
Definition pad_zeros (l : list Z) (n : nat) : list Z :=
  l ++ repeat 0 (n - length l).

(** [compare_versions(current, latest)].  [packaging] is [None] when the
    module of that name could not be imported ([HAS_PACKAGING] is false);
    otherwise it gives the outcome of
    [version.parse(latest) > version.parse(current)]. *)
Definition compare_versions
    (packaging : option (string -> string -> outcome bool))
    (current latest : string) : outcome bool :=
  let fallback :=
    let attempt :=
      bind (int_parts (split "." current)) (fun current_parts =>
      bind (int_parts (split "." latest)) (fun latest_parts =>
      let max_len := Nat.max (length current_parts) (length latest_parts) in
      let current_parts := pad_zeros current_parts max_len in
      let latest_parts := pad_zeros latest_parts max_len in
      Returned (list_gt latest_parts current_parts))) in
    match attempt with
    | Returned b => Returned b
    | Raised e => if is_Exception e then Returned false else Raised e
    end in
  match packaging with
  | Some newer =>
      match newer latest current with
      | Returned b => Returned b
      | Raised e => if is_Exception e then fallback else Raised e
      end
  | None => fallback
  end.

(** [browse_input_dir]: [directory] is what the dialog returns (empty when
    it was cancelled); the result is what the input and the output field
    are set to, if they are set. *)
Definition browse_input_dir (directory : string) : option (string * string) :=
  if String.eqb directory "" then None
  else
    let input_path := of_str directory in
    let output_path :=
      join_str (parent input_path) (name input_path +:+ "_converted") in
    Some (str input_path, str output_path).

(** Arithmetic on the outcome of the comparisons of two numbers. *)
Ltac order_lia := intros; rewrite ?Z.ltb_lt in *; lia.

End Gui.

Import Gui.

(** ** The installer of the missing packages *)

Module Installer.

(** [" ".join(words)] *)
Definition join_words (words : list string) : string := String.concat " " words.

(** [needle in haystack] *)
Definition contains_text (needle haystack : string) : bool :=
  match index 0 needle haystack with Some _ => true | None => false end.

(** What [__import__(import_name)] does. *)
Inductive imported :=
| Imported
| ImportError
| ImportRaised (e : exn).

Section Install.

(** [subprocess.run(cmd, capture_output=True, text=True, timeout=...)] for
    the commands of this module, [sys.executable] and [__import__]. *)
Variable run : list string -> outcome CompletedProcess.
Variable executable : string.
Variable import_ : string -> imported.

Definition pip_commands : list (list string) :=
  [ [executable; "-m"; "pip"; "--version"];
    ["pip3"; "--version"];
    ["pip"; "--version"] ].

(** The loop of [check_pip_available]. *)
Fixpoint check_pip_loop (pip_commands : list (list string))
  : M (option (list string)) :=
  match pip_commands with
  | [] => ret None
  | pip_cmd :: rest =>
      match run (take 2 pip_cmd ++ ["--version"]) with
      | Returned result =>
          if returncode result =? 0 then
            print ("✓ Found working pip: " +:+ join_words (take 2 pip_cmd)) ;;
            ret (Some (take 2 pip_cmd))
          else check_pip_loop rest
      | Raised e =>
          if is_Exception e then check_pip_loop rest else raise e
      end
  end.

(** [check_pip_available()] *)
Definition check_pip_available : M (option (list string)) :=
  check_pip_loop pip_commands.

(** [install_python_package(package_name, import_name)] *)
Definition install_python_package
    (package_name : string) (import_name : option string) : M bool :=
  let import_name :=
    match import_name with Some n => n | None => package_name end in
  print (nl +:+ "📦 Installing " +:+ package_name +:+ "...") ;;
  pip_base_cmd <~ check_pip_available ;
  match pip_base_cmd with
  | None | Some [] =>
      print "❌ No working pip installation found!" ;;
      print "Please install pip first: https://pip.pypa.io/en/stable/installation/" ;;
      ret false
  | Some pip_base_cmd =>
      let install_cmd := pip_base_cmd ++ ["install"; package_name] in
      try_except
        (print ("Running: " +:+ join_words install_cmd) ;;
         result <~ lift (run install_cmd) ;
         if returncode result =? 0 then
           print ("✓ Successfully installed " +:+ package_name) ;;
           match import_ import_name with
           | Imported =>
               print ("✓ " +:+ package_name +:+ " import verification: OK") ;;
               ret true
           | ImportError =>
               print ("❌ " +:+ package_name
                      +:+ " installed but import failed: {e}") ;;
               print "This might indicate a virtual environment issue." ;;
               ret false
           | ImportRaised e => raise e
           end
         else
           let error_output := strip (stderr result) in
           print ("❌ Installation failed: " +:+ error_output) ;;
           (if contains_text "permission denied" (lower error_output) then
              print "💡 Try: pip install --user psutil" ;;
              print "   Or run with administrator/sudo privileges"
            else if contains_text "externally-managed-environment"
                      (lower error_output) then
              print "💡 Your system uses externally managed Python packages." ;;
              print "   Try using a virtual environment:" ;;
              print "   python -m venv myenv" ;;
              print "   source myenv/bin/activate  # On Windows: myenv\Scripts\activate" ;;
              print "   pip install psutil"
            else ret tt) ;;
           ret false)
        (fun e =>
           match e with
           | TimeoutExpired =>
               print "❌ Installation timed out after 2 minutes" ;;
               ret false
           | _ =>
               print "❌ Unexpected error during installation: {e}" ;;
               ret false
           end)
  end.

End Install.

End Installer.

Import Installer.

(** ** More sample surroundings *)

Module Samples.

(** The pool hands the results over in the order of submission, or in the
    opposite order. *)
Definition in_order (A : Type) (l : list A) : list A := l.
Definition last_first (A : Type) (l : list A) : list A := rev l.

(** Every file is converted in two seconds to a file of 42 bytes. *)
Definition all_converted (wav_file : Path) : conv_env := zero_byte_env.

(** The file-system calls of the staging succeed; every file has 10 bytes. *)
Definition mkdir_ok (p : Path) : outcome unit := Returned tt.
Definition stat_10 (p : Path) : outcome Z := Returned 10.
Definition copy2_ok (p q : Path) : outcome unit := Returned tt.

(** Every command answers with the exit code 0. *)
Definition run_ok (cmd : list string) : outcome CompletedProcess :=
  Returned {| returncode := 0; stderr := "" |}.

(** Only the command [pip] is there. *)
Definition run_pip_only (cmd : list string) : outcome CompletedProcess :=
  match cmd with
  | "pip" :: _ => Returned {| returncode := 0; stderr := "" |}
  | _ => Raised (OSError "No such file or directory")
  end.

End Samples.

Import Samples.

(* ===================================================================== *)
(** * Part II. Lemmas and theorems                                        *)
(* ===================================================================== *)

(** ** Strings *)

Section StringFacts.

Lemma string_length_app (a b : string) :
  String.length (a +:+ b) = (String.length a + String.length b)%nat.
Proof. induction a as [|c a IH]; simpl; [reflexivity | now rewrite IH]. Qed.

Lemma string_app_nil_r (a : string) : a +:+ "" = a.
Proof.
  induction a as [|c a IH]; [reflexivity|].
  change (String c (a +:+ "") = String c a). now rewrite IH.
Qed.

Lemma contains_app (c : ascii) (a b : string) :
  contains c (a +:+ b) = contains c a || contains c b.
Proof.
  induction a as [|x a IH]; simpl; [reflexivity|].
  rewrite IH. now rewrite orb_assoc.
Qed.

Lemma contains_substring_0 (c : ascii) (s : string) (n : nat) :
  contains c s = false -> contains c (substring 0 n s) = false.
Proof.
  revert n. induction s as [|x s IH]; intros [|n] H; simpl in *; try reflexivity.
  apply orb_false_iff in H as [Hx Hs].
  rewrite Hx. simpl. now apply IH.
Qed.

Lemma split_no_sep (c : ascii) (s : string) :
  contains c s = false -> split c s = [s].
Proof.
  induction s as [|x s IH]; simpl; [reflexivity|].
  intros H. apply orb_false_iff in H as [Hx Hs].
  rewrite Hx, (IH Hs). reflexivity.
Qed.

Lemma substring_0_length (s : string) : substring 0 (String.length s) s = s.
Proof. induction s as [|x s IH]; simpl; [reflexivity | now rewrite IH]. Qed.

Lemma substring_0_app (s : string) (i : nat) :
  (i <= String.length s)%nat ->
  substring 0 i s +:+ substring i (String.length s - i) s = s.
Proof.
  revert i. induction s as [|x s IH]; intros [|i] H.
  - reflexivity.
  - simpl in H. lia.
  - rewrite Nat.sub_0_r, substring_0_length. reflexivity.
  - change (String x (substring 0 i s +:+ substring i (String.length s - i) s)
            = String x s).
    f_equal. apply IH. simpl in H. lia.
Qed.

Lemma rfind_lt (c : ascii) (s : string) (i : nat) :
  rfind c s = Some i -> (i < String.length s)%nat.
Proof.
  revert i. induction s as [|x s IH]; simpl; intros i H; [discriminate|].
  destruct (rfind c s) as [j|].
  - injection H as <-. specialize (IH j eq_refl). lia.
  - destruct (Ascii.eqb x c); [injection H as <-; lia | discriminate].
Qed.

End StringFacts.

(** ** Paths *)

Section PathFacts.

Lemma is_prefix_app (p q : list string) : is_prefix p (p ++ q) = true.
Proof.
  induction p as [|a p IH]; simpl; [reflexivity|].
  now rewrite String.eqb_refl, IH.
Qed.

Lemma is_prefix_inv (p q : list string) :
  is_prefix p q = true -> q = p ++ drop (length p) q.
Proof.
  revert q. induction p as [|a p IH]; intros [|b q] H; simpl in *;
    try reflexivity; try discriminate.
  apply andb_true_iff in H as [Hab Hpq].
  apply String.eqb_eq in Hab as ->. f_equal. now apply IH.
Qed.

Lemma relative_to_inv (p other rel : Path) :
  relative_to p other = Returned rel -> p = other ++ rel.
Proof.
  unfold relative_to. destruct other as [|a other].
  - destruct (has_root p); [discriminate|]. now intros [= ->].
  - destruct (is_prefix (a :: other) p) eqn:E; [|discriminate].
    intros [= <-]. now apply is_prefix_inv.
Qed.

Lemma relative_to_app (base rel : Path) :
  has_root rel = false -> relative_to (base ++ rel) base = Returned rel.
Proof.
  intros Hrel. unfold relative_to. destruct base as [|a base].
  - simpl. now rewrite Hrel.
  - rewrite is_prefix_app. f_equal.
    now rewrite drop_app_length.
Qed.

Lemma good_part_not_anchor (x : string) : good_part x = true -> is_anchor x = false.
Proof.
  unfold good_part. intros H. apply andb_true_iff in H as [_ H].
  apply negb_true_iff in H.
  destruct x as [|c x]; [reflexivity|].
  simpl in H. apply orb_false_iff in H as [H _].
  simpl. destruct (Ascii.eqb_spec c "/") as [->|Hc]; [discriminate|].
  destruct c as [[] [] [] [] [] [] [] []]; try reflexivity. now elim Hc.
Qed.

Lemma good_parts_no_root (p : Path) : forallb good_part p = true -> has_root p = false.
Proof.
  destruct p as [|a p]; [reflexivity|]. simpl.
  intros H. apply andb_true_iff in H as [H _]. now apply good_part_not_anchor.
Qed.

Lemma wf_path_no_root (p : Path) :
  wf_path p = true -> has_root p = false -> forallb good_part p = true.
Proof.
  destruct p as [|a p]; [reflexivity|]. simpl. intros H Hr.
  apply andb_true_iff in H as [Ha Hp]. rewrite Hp, andb_true_r.
  apply orb_true_iff in Ha as [Ha|Ha]; [|exact Ha].
  apply orb_true_iff in Ha as [Ha|Ha]; apply String.eqb_eq in Ha; subst a; discriminate.
Qed.

Lemma forallb_drop {A} (f : A -> bool) (l : list A) (n : nat) :
  forallb f l = true -> forallb f (drop n l) = true.
Proof.
  revert n. induction l as [|a l IH]; intros [|n] H; simpl in *; auto.
  apply andb_true_iff in H as [_ H]. now apply IH.
Qed.

(** The relative path of a well-formed path holds plain components only. *)
Lemma relative_to_good (p other rel : Path) :
  wf_path p = true -> relative_to p other = Returned rel ->
  forallb good_part rel = true.
Proof.
  intros Hwf. unfold relative_to. destruct other as [|a other].
  - destruct (has_root p) eqn:Hr; [discriminate|]. intros [= <-].
    now apply wf_path_no_root.
  - destruct (is_prefix (a :: other) p); [|discriminate]. intros [= <-].
    destruct p as [|b p]; [reflexivity|]. simpl.
    simpl in Hwf. apply andb_true_iff in Hwf as [_ Hp]. now apply forallb_drop.
Qed.

Lemma joinpath_relative (p q : Path) : has_root q = false -> joinpath p q = p ++ q.
Proof. unfold joinpath. now intros ->. Qed.

Lemma name_app (base rel : Path) :
  rel <> [] -> forallb good_part rel = true ->
  name (base ++ rel) = List.last rel "".
Proof.
  intros Hne Hgood. unfold name.
  destruct (base ++ rel) as [|a [|b l]] eqn:E.
  - destruct base, rel; simpl in E; congruence.
  - destruct base as [|x base].
    + simpl in E. subst rel. simpl in Hgood.
      apply andb_true_iff in Hgood as [Ha _].
      now rewrite (good_part_not_anchor _ Ha).
    + destruct rel; [congruence|]. destruct base; simpl in E; discriminate.
  - rewrite <- E. clear E.
    destruct (exists_last Hne) as (r & z & ->).
    rewrite app_assoc. now rewrite !last_last.
Qed.

Lemma parent_good (rel : Path) :
  forallb good_part rel = true -> parent rel = removelast rel.
Proof.
  destruct rel as [|a [|b l]]; try reflexivity. simpl.
  intros H. apply andb_true_iff in H as [H _].
  now rewrite (good_part_not_anchor _ H).
Qed.

Lemma name_good (p : Path) :
  wf_path p = true -> contains "/" (name p) = false.
Proof.
  intros Hwf. unfold name.
  assert (Hlast : forall l d, forallb good_part l = true -> contains "/" d = false ->
                    contains "/" (List.last l d) = false).
  { induction l as [|x l IH]; intros d Hl Hd; [exact Hd|].
    simpl in Hl. apply andb_true_iff in Hl as [Hx Hl].
    destruct l as [|y l]; [|now apply IH].
    simpl. unfold good_part in Hx. apply andb_true_iff in Hx as [_ Hx].
    now apply negb_true_iff in Hx. }
  destruct p as [|a [|b l]].
  - reflexivity.
  - destruct (is_anchor a) eqn:Ha; [reflexivity|].
    simpl in Hwf. rewrite andb_true_r in Hwf.
    apply orb_true_iff in Hwf as [Hwf|Hwf].
    + apply orb_true_iff in Hwf as [Hwf|Hwf]; apply String.eqb_eq in Hwf; subst a; discriminate.
    + unfold good_part in Hwf. apply andb_true_iff in Hwf as [_ Hx].
      now apply negb_true_iff in Hx.
  - simpl in Hwf. apply andb_true_iff in Hwf as [_ Hwf].
    change (List.last (a :: b :: l) "") with (List.last (b :: l) "").
    now apply Hlast.
Qed.

Lemma splitroot_relative (s : string) :
  is_anchor s = false -> splitroot s = ("", s).
Proof.
  destruct s as [|[[] [] [] [] [] [] [] []] s]; intros H;
    try reflexivity; discriminate.
Qed.

Lemma of_str_good (s : string) : good_part s = true -> of_str s = [s].
Proof.
  intros Hg. pose proof (good_part_not_anchor _ Hg) as Ha.
  unfold good_part in Hg. apply andb_true_iff in Hg as [Hk Hc].
  apply negb_true_iff in Hc.
  unfold of_str. rewrite (splitroot_relative _ Ha).
  rewrite (split_no_sep _ _ Hc). simpl. now rewrite Hk.
Qed.

Lemma good_part_suffixed (x ext : string) :
  contains "/" x = false -> contains "/" ext = false ->
  (2 <= String.length ext)%nat -> good_part (x +:+ ext) = true.
Proof.
  intros Hx He Hlen. unfold good_part, keep_part.
  rewrite contains_app, Hx, He. simpl. rewrite !andb_true_r.
  assert (Hl : (2 <= String.length (x +:+ ext))%nat)
    by (rewrite string_length_app; lia).
  destruct (String.eqb_spec (x +:+ ext) "") as [E|_]; [rewrite E in Hl; simpl in Hl; lia|].
  destruct (String.eqb_spec (x +:+ ext) ".") as [E|_]; [rewrite E in Hl; simpl in Hl; lia|].
  reflexivity.
Qed.

Lemma stem_of_no_sep (nm : string) :
  contains "/" nm = false -> contains "/" (stem_of nm) = false.
Proof.
  intros H. unfold stem_of. destruct (suffix_cut nm); [|exact H].
  now apply contains_substring_0.
Qed.

(** A name is its stem followed by its suffix. *)
Lemma stem_suffix (nm : string) : nm = stem_of nm +:+ suffix_of nm.
Proof.
  unfold stem_of, suffix_of, suffix_cut.
  destruct (rfind "." nm) as [i|] eqn:E.
  - destruct ((0 <? i)%nat && (i <? String.length nm - 1)%nat) eqn:C.
    + symmetry. apply substring_0_app. apply rfind_lt in E. lia.
    + now rewrite string_app_nil_r.
  - now rewrite string_app_nil_r.
Qed.

End PathFacts.

Section LayoutFacts.

Lemma forallb_removelast {A} (f : A -> bool) (l : list A) :
  forallb f l = true -> forallb f (removelast l) = true.
Proof.
  induction l as [|a [|b l] IH]; intros H; try reflexivity.
  change (forallb f (a :: removelast (b :: l)) = true).
  simpl in H |- *. apply andb_true_iff in H as [Ha H].
  rewrite Ha. simpl. apply IH. exact H.
Qed.

Lemma good_parts_last (l : list string) :
  l <> [] -> forallb good_part l = true -> good_part (List.last l "") = true.
Proof.
  induction l as [|a [|b l] IH]; intros Hne H; [congruence| |].
  - simpl in H. now rewrite andb_true_r in H.
  - change (List.last (a :: b :: l) "") with (List.last (b :: l) "").
    apply IH; [discriminate|]. simpl in H. now apply andb_true_iff in H as [_ H].
Qed.

Lemma name_rel (rel : Path) :
  rel <> [] -> forallb good_part rel = true -> name rel = List.last rel "".
Proof. intros Hne Hgood. exact (name_app [] rel Hne Hgood). Qed.

Lemma good_part_no_sep (x : string) : good_part x = true -> contains "/" x = false.
Proof.
  unfold good_part. intros H. apply andb_true_iff in H as [_ H].
  now apply negb_true_iff in H.
Qed.

(** [p / s] appends one component when [s] is a plain name. *)
Lemma join_str_good (p : Path) (s : string) :
  good_part s = true -> join_str p s = p ++ [s].
Proof.
  intros H. unfold join_str. rewrite (of_str_good _ H).
  apply joinpath_relative. simpl. now apply good_part_not_anchor.
Qed.

Lemma output_dir_parts (mkdir : Path -> outcome unit) (input_dir output_dir : Path) :
  wf_path input_dir = true ->
  create_output_directory mkdir input_dir = Returned output_dir ->
  output_dir = parent input_dir ++ [name input_dir +:+ "_converted"].
Proof.
  intros Hwf. unfold create_output_directory.
  destruct (mkdir _); simpl; [|discriminate]. intros [= <-].
  apply join_str_good. apply good_part_suffixed;
    [now apply name_good | reflexivity | simpl; lia].
Qed.

(** Both branches of the conditional on [original_input_dir] are the same
    expression. *)
Lemma conversion_paths_original (wav_path input_dir output_dir : Path)
    (o1 o2 : option Path) :
  conversion_paths wav_path input_dir output_dir o1
  = conversion_paths wav_path input_dir output_dir o2.
Proof.
  unfold conversion_paths.
  destruct o1 as [a|], o2 as [b|]; try reflexivity;
    repeat match goal with
           | |- context [bool_decide ?P] => destruct (bool_decide P)
           end; reflexivity.
Qed.

Lemma conversion_paths_parts (wav_path input_dir output_dir rel : Path)
    (original_input_dir : option Path) :
  wf_path wav_path = true ->
  relative_to wav_path input_dir = Returned rel -> rel <> [] ->
  conversion_paths wav_path input_dir output_dir original_input_dir
  = Returned (rel, stem_of (name rel) +:+ ".flac",
              output_dir ++ parent rel ++ [stem_of (name rel) +:+ ".flac"]).
Proof.
  intros Hwf Hrel Hne.
  rewrite (conversion_paths_original _ _ _ _ None).
  pose proof (relative_to_good _ _ _ Hwf Hrel) as Hgood.
  pose proof (relative_to_inv _ _ _ Hrel) as Hwav.
  unfold conversion_paths. rewrite Hrel. simpl bind.
  assert (Hname : name wav_path = name rel).
  { rewrite Hwav, (name_app _ _ Hne Hgood).
    symmetry. now apply name_rel. }
  unfold stem. rewrite Hname.
  assert (Hfile : good_part (stem_of (name rel) +:+ ".flac") = true).
  { apply good_part_suffixed; [|reflexivity|simpl; lia].
    apply stem_of_no_sep. rewrite (name_rel rel Hne Hgood).
    apply good_part_no_sep. now apply good_parts_last. }
  rewrite (join_str_good _ _ Hfile).
  rewrite joinpath_relative.
  - now rewrite <- app_assoc.
  - apply good_parts_no_root. rewrite (parent_good _ Hgood).
    now apply forallb_removelast.
Qed.

End LayoutFacts.

(** C2.  A source file with relative path [rel] under the input directory
    is converted to
    [input_dir.parent / (input_dir.name + "_converted") / rel.parent /
    (stem + ".flac")]: the parts of the output path are those of the parent
    of the input directory, the name of the input directory followed by
    ["_converted"], the directories of [rel], and the file name with its
    suffix replaced by [".flac"]. *)
Theorem output_path_layout (mkdir : Path -> outcome unit)
    (input_dir wav_path rel output_dir : Path)
    (original_input_dir : option Path) :
  wf_path input_dir = true -> wf_path wav_path = true ->
  relative_to wav_path input_dir = Returned rel -> rel <> [] ->
  create_output_directory mkdir input_dir = Returned output_dir ->
  conversion_paths wav_path input_dir output_dir original_input_dir
  = Returned (rel, stem_of (name rel) +:+ ".flac",
              parent input_dir ++ [name input_dir +:+ "_converted"]
                ++ parent rel ++ [stem_of (name rel) +:+ ".flac"])
  /\ name rel = stem_of (name rel) +:+ suffix_of (name rel).
Proof.
  intros Hd Hw Hrel Hne Hout. split; [|apply stem_suffix].
  rewrite (conversion_paths_parts _ _ _ _ _ Hw Hrel Hne).
  rewrite (output_dir_parts _ _ _ Hd Hout).
  now rewrite <- !app_assoc.
Qed.

Lemma output_path_layout_witness :
  conversion_paths ["/"; "music"; "album"; "sub"; "b.wav"] ["/"; "music"; "album"]
                   ["/"; "music"; "album_converted"] None
  = Returned (["sub"; "b.wav"], "b.flac",
              ["/"; "music"; "album_converted"; "sub"; "b.flac"]).
Proof.
  exact (proj1 (output_path_layout (fun _ => Returned tt)
                  ["/"; "music"; "album"] ["/"; "music"; "album"; "sub"; "b.wav"]
                  ["sub"; "b.wav"] ["/"; "music"; "album_converted"] None
                  eq_refl eq_refl eq_refl ltac:(discriminate) eq_refl)).
Defined.

(** C1.  Staging is transparent to the output layout: when a file was
    copied to the staging directory, converting the staged copy (with the
    staging directory as [input_dir]) yields the same relative path, output
    file name and output path as converting the original file from the
    original input directory (the command line passes [None] for
    [original_input_dir] then, the GUI the input directory), and that
    relative path is the one of the file under the original root, whatever
    the staging directory is. *)
Theorem staging_is_transparent
    (mkdir : Path -> outcome unit) (stat_size : Path -> outcome Z)
    (copy2 : Path -> Path -> outcome unit)
    (wav_file input_dir cache_dir output_dir staged rel : Path) (sz : Z)
    (original_when_direct : option Path) :
  wf_path wav_file = true ->
  copy_single_file_to_cache mkdir stat_size copy2 wav_file input_dir cache_dir
  = Returned (Copied staged rel sz) ->
  rel <> [] ->
  relative_to wav_file input_dir = Returned rel
  /\ conversion_paths staged cache_dir output_dir (Some input_dir)
     = conversion_paths wav_file input_dir output_dir original_when_direct
  /\ conversion_paths staged cache_dir output_dir (Some input_dir)
     = Returned (rel, stem_of (name rel) +:+ ".flac",
                 output_dir ++ parent rel ++ [stem_of (name rel) +:+ ".flac"]).
Proof.
  intros Hwf Hcopy Hne.
  unfold copy_single_file_to_cache in Hcopy.
  destruct (relative_to wav_file input_dir) as [r|e] eqn:Hrel; simpl in Hcopy.
  2:{ destruct (is_Exception e); discriminate. }
  assert (Hst : staged = joinpath cache_dir r /\ rel = r).
  { destruct (mkdir _); simpl in Hcopy.
    2:{ destruct (is_Exception e); discriminate. }
    destruct (stat_size _); simpl in Hcopy.
    2:{ destruct (is_Exception e); discriminate. }
    destruct (copy2 _ _); simpl in Hcopy.
    2:{ destruct (is_Exception e); discriminate. }
    now injection Hcopy as <- <- _. }
  destruct Hst as [-> <-].
  pose proof (relative_to_good _ _ _ Hwf Hrel) as Hgood.
  pose proof (good_parts_no_root _ Hgood) as Hroot.
  split; [reflexivity|].
  assert (Hstaged : conversion_paths (joinpath cache_dir rel) cache_dir output_dir
                      (Some input_dir)
                    = Returned (rel, stem_of (name rel) +:+ ".flac",
                        output_dir ++ parent rel ++ [stem_of (name rel) +:+ ".flac"])).
  { rewrite (conversion_paths_original _ _ _ _ None).
    rewrite (joinpath_relative _ _ Hroot).
    unfold conversion_paths. rewrite (relative_to_app _ _ Hroot). simpl bind.
    unfold stem. rewrite (name_app _ _ Hne Hgood), <- (name_rel rel Hne Hgood).
    assert (Hfile : good_part (stem_of (name rel) +:+ ".flac") = true).
    { apply good_part_suffixed; [|reflexivity|simpl; lia].
      apply stem_of_no_sep. rewrite (name_rel rel Hne Hgood).
      apply good_part_no_sep. now apply good_parts_last. }
    rewrite (join_str_good _ _ Hfile), joinpath_relative.
    - now rewrite <- app_assoc.
    - apply good_parts_no_root. rewrite (parent_good _ Hgood).
      now apply forallb_removelast. }
  split; [|exact Hstaged].
  rewrite Hstaged. symmetry. now apply conversion_paths_parts.
Qed.

(** A file directly at the root, staged under another directory. *)
Lemma staging_is_transparent_witness :
  conversion_paths ["/"; "tmp"; "cache"; "a.wav"] ["/"; "tmp"; "cache"]
                   ["/"; "net"; "music_converted"] (Some ["/"; "net"; "music"])
  = conversion_paths ["/"; "net"; "music"; "a.wav"] ["/"; "net"; "music"]
                     ["/"; "net"; "music_converted"] None.
Proof.
  exact (proj1 (proj2 (staging_is_transparent
                  (fun _ => Returned tt) (fun _ => Returned 10) (fun _ _ => Returned tt)
                  ["/"; "net"; "music"; "a.wav"] ["/"; "net"; "music"] ["/"; "tmp"; "cache"]
                  ["/"; "net"; "music_converted"] ["/"; "tmp"; "cache"; "a.wav"] ["a.wav"] 10
                  None eq_refl eq_refl ltac:(discriminate)))).
Defined.

(** ** The order of paths *)

Section PathOrder.

Lemma string_ltb_leb (a b : string) :
  String.ltb a b = true -> String.leb a b = true.
Proof. unfold String.ltb, String.leb. now destruct (String.compare a b). Qed.

Lemma string_leb_ltb (a b : string) :
  String.leb a b = true -> a <> b -> String.ltb a b = true.
Proof.
  unfold String.ltb, String.leb.
  destruct (String.compare a b) eqn:E; try easy.
  intros _ H. now apply String.compare_eq_iff in E.
Qed.

Lemma string_leb_refl (a : string) : String.leb a a = true.
Proof. destruct (String.leb_total a a); assumption. Qed.

Lemma string_leb_trans (a b c : string) :
  String.leb a b = true -> String.leb b c = true -> String.leb a c = true.
Proof.
  intros H1 H2. apply Is_true_true.
  apply (@transitivity _ String.le _ a b c); apply Is_true_true; assumption.
Qed.

Lemma string_ltb_asym (a b : string) :
  String.ltb a b = true -> String.ltb b a = true -> False.
Proof.
  unfold String.ltb. rewrite (String.compare_antisym b a).
  destruct (String.compare a b); discriminate.
Qed.

Lemma string_ltb_trans (a b c : string) :
  String.ltb a b = true -> String.ltb b c = true -> String.ltb a c = true.
Proof.
  intros H1 H2. apply string_leb_ltb.
  - eapply string_leb_trans; eauto using string_ltb_leb.
  - intros ->. exact (string_ltb_asym _ _ H1 H2).
Qed.

Lemma string_ltb_total (a b : string) :
  a <> b -> String.ltb a b = true \/ String.ltb b a = true.
Proof.
  intros H. destruct (String.leb_total a b).
  - left. now apply string_leb_ltb.
  - right. apply string_leb_ltb; [assumption | congruence].
Qed.

Lemma parts_leb_refl (p : list string) : parts_leb p p = true.
Proof. induction p as [|a p IH]; simpl; [reflexivity|]. now rewrite String.eqb_refl. Qed.

Lemma parts_leb_total (p q : list string) :
  parts_leb p q = true \/ parts_leb q p = true.
Proof.
  revert q. induction p as [|a p IH]; intros [|b q]; simpl; auto.
  rewrite (String.eqb_sym b a).
  destruct (String.eqb_spec a b) as [->|Hab]; [apply IH|].
  now apply string_ltb_total.
Qed.

Lemma parts_leb_antisym (p q : list string) :
  parts_leb p q = true -> parts_leb q p = true -> p = q.
Proof.
  revert q. induction p as [|a p IH]; intros [|b q]; simpl; try easy.
  rewrite (String.eqb_sym b a).
  destruct (String.eqb_spec a b) as [->|Hab].
  - intros H1 H2. f_equal. now apply IH.
  - intros H1 H2. destruct (string_ltb_asym _ _ H1 H2).
Qed.

Lemma parts_leb_trans (p q r : list string) :
  parts_leb p q = true -> parts_leb q r = true -> parts_leb p r = true.
Proof.
  revert q r. induction p as [|a p IH]; intros [|b q] [|c r]; simpl; try easy.
  destruct (String.eqb_spec a b) as [->|Hab].
  - destruct (String.eqb_spec b c) as [->|Hbc]; [apply IH | easy].
  - destruct (String.eqb_spec b c) as [->|Hbc].
    + destruct (String.eqb_spec a c); [congruence | easy].
    + intros H1 H2. pose proof (string_ltb_trans _ _ _ H1 H2) as H3.
      destruct (String.eqb_spec a c) as [->|Hac]; [|exact H3].
      destruct (string_ltb_asym _ _ H1 H2).
Qed.

#[local] Instance path_le_total : Total path_le.
Proof. intros p q. apply parts_leb_total. Qed.
#[local] Instance path_le_trans : Transitive path_le.
Proof. intros p q r. apply parts_leb_trans. Qed.
#[local] Instance path_le_antisym : AntiSymm eq path_le.
Proof. intros p q. apply parts_leb_antisym. Qed.

Lemma py_sorted_sorted (l : list Path) : Sorted path_le (py_sorted l).
Proof. apply Sorted_merge_sort. apply _. Qed.

Lemma py_sorted_perm (l : list Path) : py_sorted l ≡ₚ l.
Proof. apply merge_sort_Permutation. Qed.

(** [sorted] does not depend on the order in which its argument comes. *)
Lemma py_sorted_order_irrelevant (l1 l2 : list Path) :
  l1 ≡ₚ l2 -> py_sorted l1 = py_sorted l2.
Proof.
  intros H. apply (Sorted_unique path_le); try apply py_sorted_sorted.
  now rewrite !py_sorted_perm.
Qed.

(** [sorted(set(...))] depends on the elements only. *)
Lemma sorted_set_elements (l1 l2 : list Path) :
  (forall x, x ∈ l1 <-> x ∈ l2) ->
  py_sorted (py_set l1) = py_sorted (py_set l2).
Proof.
  intros H. apply py_sorted_order_irrelevant.
  apply NoDup_Permutation; try apply NoDup_remove_dups.
  intros x. unfold py_set. now rewrite !elem_of_remove_dups.
Qed.

End PathOrder.

(** ** The scanner *)

Section ScannerFacts.

Lemma filter_Permutation {A} (f : A -> bool) (l l' : list A) :
  l ≡ₚ l' -> List.filter f l ≡ₚ List.filter f l'.
Proof.
  induction 1 as [|x l l' _ IH|x y l|l l' l'' _ IH1 _ IH2]; simpl.
  - reflexivity.
  - destruct (f x); [now constructor | exact IH].
  - destruct (f x), (f y); try reflexivity. apply perm_swap.
  - now transitivity (List.filter f l').
Qed.

Lemma select_Permutation (pat : string) (here : Path) (es es' : list (string * node)) :
  es ≡ₚ es' -> select pat here es ≡ₚ select pat here es'.
Proof. intros H. unfold select. now apply Permutation_map, filter_Permutation. Qed.

(** Listing the entries of the directories in another order permutes the
    matches. *)
Lemma rglob_same_tree (pat : string) (t t' : node) :
  same_tree t t' ->
  forall here, rglob_node pat here t ≡ₚ rglob_node pat here t'.
Proof.
  intros H.
  apply (same_tree_mut
    (fun t t' _ => forall here, rglob_node pat here t ≡ₚ rglob_node pat here t')
    (fun es es' _ => forall here,
       select pat here es ≡ₚ select pat here es'
       /\ flat_map (fun e => rglob_node pat (here ++ [fst e]) (snd e)) es
          ≡ₚ flat_map (fun e => rglob_node pat (here ++ [fst e]) (snd e)) es'));
    try exact H; clear.
  - reflexivity.
  - intros es es' _ IH here. destruct (IH here) as [H1 H2].
    simpl. now apply Permutation_app.
  - intros here. split; reflexivity.
  - intros nm c c' es es' _ IHc _ IHes here. destruct (IHes here) as [H1 H2]. split.
    + unfold select in *. simpl. destruct (fnmatch pat nm); simpl; [constructor|]; exact H1.
    + simpl. apply Permutation_app; [apply IHc | exact H2].
  - intros e1 e2 es here. split.
    + apply select_Permutation, perm_swap.
    + apply Permutation_flat_map, perm_swap.
  - intros es1 es2 es3 _ IH1 _ IH2 here.
    destruct (IH1 here) as [A1 B1], (IH2 here) as [A2 B2].
    split; etransitivity; eassumption.
Qed.

Lemma find_wav_files_returns (directory : Path) (target : option node) :
  find_wav_files directory target
  = Returned (py_sorted (py_set (rglob "*.wav" directory target
                                   ++ rglob "*.WAV" directory target))).
Proof. reflexivity. Qed.

Lemma find_wav_files_same_tree (directory : Path) (t t' : node) :
  same_tree t t' ->
  find_wav_files directory (Some t) = find_wav_files directory (Some t').
Proof.
  intros H. rewrite !find_wav_files_returns. f_equal.
  apply py_sorted_order_irrelevant.
  apply NoDup_Permutation; try apply NoDup_remove_dups.
  intros x. unfold py_set. rewrite !elem_of_remove_dups.
  assert (Hp : forall pat, rglob pat directory (Some t) ≡ₚ rglob pat directory (Some t')).
  { intros pat. inversion H as [sz|es es' Hes]; subst; [reflexivity|].
    unfold rglob. now apply rglob_same_tree. }
  now rewrite (Hp "*.wav"), (Hp "*.WAV").
Qed.

(** A root that is no directory yields nothing. *)
Lemma rglob_not_a_directory (pat : string) (directory : Path) (target : option node) :
  (forall es, target <> Some (Dir es)) -> rglob pat directory target = [].
Proof.
  intros H. destruct target as [[sz|es]|]; try reflexivity. now elim (H es).
Qed.

End ScannerFacts.

(** C7.  The scanner returns a list that is sorted and free of duplicates,
    and the list is the same for every listing of the same tree: a second
    scan of an unchanged tree returns the identical ordered result, in
    whatever order the operating system enumerates the directories. *)
Theorem find_wav_files_sorted_unique_stable (directory : Path) (target : option node) :
  exists l,
    find_wav_files directory target = Returned l
    /\ Sorted path_le l /\ NoDup l
    /\ forall t t', target = Some t -> same_tree t t' ->
                    find_wav_files directory (Some t') = Returned l.
Proof.
  eexists. split; [apply find_wav_files_returns|].
  split; [apply py_sorted_sorted|].
  split.
  { rewrite py_sorted_perm. apply NoDup_remove_dups. }
  intros t t' -> Ht. rewrite <- (find_wav_files_same_tree directory t t' Ht).
  apply find_wav_files_returns.
Qed.

(** Two listings of one tree, scanned. *)
Lemma find_wav_files_sorted_unique_stable_witness :
  find_wav_files ["/"; "m"]
    (Some (Dir [("b.wav", File 3); ("sub", Dir [("x.wav", File 2); ("a.WAV", File 1)])]))
  = find_wav_files ["/"; "m"]
    (Some (Dir [("sub", Dir [("a.WAV", File 1); ("x.wav", File 2)]); ("b.wav", File 3)])).
Proof.
  destruct (find_wav_files_sorted_unique_stable ["/"; "m"]
    (Some (Dir [("b.wav", File 3); ("sub", Dir [("x.wav", File 2); ("a.WAV", File 1)])])))
    as (l & H1 & _ & _ & H2).
  rewrite H1. symmetry. eapply H2; [reflexivity|].
  constructor. eapply same_trans; [apply same_swap|].
  apply same_cons; [|constructor; [constructor|constructor]].
  constructor. apply same_swap.
Defined.

(** ** Paths built from strings are well formed *)

Section OfStrFacts.

Lemma split_parts_no_sep (c : ascii) (s : string) :
  Forall (fun x => contains c x = false) (split c s).
Proof.
  induction s as [|a s IH]; simpl.
  - constructor; [reflexivity | constructor].
  - destruct (Ascii.eqb a c) eqn:E.
    + constructor; [reflexivity | exact IH].
    + destruct (split c s) as [|w ws].
      * constructor; [simpl; now rewrite E | constructor].
      * inversion IH as [|? ? Hw Hws]; subst.
        constructor; [simpl; now rewrite E, Hw | exact Hws].
Qed.

Lemma kept_parts_good (s : string) :
  forallb good_part (List.filter keep_part (split "/" s)) = true.
Proof.
  pose proof (split_parts_no_sep "/" s) as H.
  induction H as [|x l Hx _ IH]; [reflexivity|].
  cbn [List.filter]. destruct (keep_part x) eqn:K; [|exact IH].
  cbn [forallb]. apply andb_true_iff. split; [|exact IH].
  unfold good_part. now rewrite K, Hx.
Qed.

Lemma splitroot_cases (s : string) :
  exists rest, splitroot s = ("", rest) \/ splitroot s = ("/", rest)
               \/ splitroot s = ("//", rest).
Proof.
  unfold splitroot. destruct s as [|c s]; [exists ""; now left|].
  destruct (Ascii.eqb_spec c "/") as [->|Hc].
  - destruct (_ =? 2)%nat; eexists; [right; right | right; left]; reflexivity.
  - exists (String c s). left.
    destruct c as [[] [] [] [] [] [] [] []]; try reflexivity. now elim Hc.
Qed.

(** Every path that the program builds from a string is well formed. *)
Lemma of_str_wf (s : string) : wf_path (of_str s) = true.
Proof.
  unfold of_str. destruct (splitroot_cases s) as (rest & [-> | [-> | ->]]);
    pose proof (kept_parts_good rest) as H; simpl.
  - destruct (List.filter keep_part (split "/" rest)) as [|a l]; [reflexivity|].
    simpl in *. apply andb_true_iff in H as [Ha Hl].
    rewrite Ha, Hl. now rewrite orb_true_r.
  - exact H.
  - exact H.
Qed.

End OfStrFacts.

(** ** What the scanner finds *)

Section ScannerCompleteness.

Lemma fnmatch_star_suffix (pat a b : string) :
  fnmatch pat b = true -> fnmatch (String "*" pat) (a +:+ b) = true.
Proof.
  intros H. induction a as [|c a IH].
  - simpl. destruct b; simpl in *; now rewrite H.
  - simpl in *. rewrite IH. apply orb_true_r.
Qed.

Lemma in_select (pat : string) (here : Path) (es : list (string * node)) (e : string * node) :
  In e es -> fnmatch pat (fst e) = true -> In (here ++ [fst e]) (select pat here es).
Proof.
  intros Hin Hm. unfold select. apply in_map_iff. exists e. split; [reflexivity|].
  apply filter_In. now split.
Qed.

(** Induction on trees, with the property at hand for every entry of a
    directory. *)
Lemma node_ind_entries (P : node -> Prop) :
  (forall sz, P (File sz)) ->
  (forall es, List.Forall (fun e => P (snd e)) es -> P (Dir es)) ->
  forall n, P n.
Proof.
  intros Hfile Hdir. fix IH 1. intros [sz|es]; [apply Hfile|].
  apply Hdir. induction es as [|[k c] es IHes]; constructor.
  - apply IH.
  - exact IHes.
Qed.

(** Every file under a directory whose name matches the pattern is among
    the results of [rglob]. *)
Lemma rglob_node_complete (pat : string) (n : node) :
  forall (here p : Path) (nm : string),
    In (p ++ [nm]) (files_under here n) -> fnmatch pat nm = true ->
    In (p ++ [nm]) (rglob_node pat here n).
Proof.
  induction n as [sz|es IH] using node_ind_entries; intros here p nm Hin Hm.
  - destruct Hin.
  - rewrite List.Forall_forall in IH.
    change (In (p ++ [nm])
              (select pat here es
               ++ flat_map (fun e => rglob_node pat (here ++ [fst e]) (snd e)) es)).
    change (In (p ++ [nm])
              (flat_map (fun e => match snd e with
                                  | File _ => [here ++ [fst e]]
                                  | Dir _ => files_under (here ++ [fst e]) (snd e)
                                  end) es)) in Hin.
    apply in_or_app. apply in_flat_map in Hin as (e & He & Hp).
    destruct e as [k c]. cbn [fst snd] in Hp. destruct c as [sz|es'].
    + left. destruct Hp as [Hp|[]].
      apply app_inj_tail in Hp as [-> ->].
      apply (in_select pat p es (nm, File sz)); assumption.
    + right. apply in_flat_map. exists (k, Dir es'). split; [exact He|].
      cbn [fst snd]. apply (IH (k, Dir es') He); assumption.
Qed.

(** The scanner finds every file whose name ends in [".wav"] or in
    [".WAV"], at any depth. *)
Lemma find_wav_files_finds_wav_and_WAV
    (directory : Path) (es : list (string * node)) (p : Path) (base : string) :
  In (p ++ [base +:+ ".wav"]) (files_under directory (Dir es))
  \/ In (p ++ [base +:+ ".WAV"]) (files_under directory (Dir es)) ->
  exists l, find_wav_files directory (Some (Dir es)) = Returned l
            /\ (In (p ++ [base +:+ ".wav"]) l \/ In (p ++ [base +:+ ".WAV"]) l).
Proof.
  intros H. eexists. split; [apply find_wav_files_returns|].
  assert (Hmem : forall x,
            In x (rglob "*.wav" directory (Some (Dir es))
                  ++ rglob "*.WAV" directory (Some (Dir es))) ->
            In x (py_sorted (py_set (rglob "*.wav" directory (Some (Dir es))
                                       ++ rglob "*.WAV" directory (Some (Dir es)))))).
  { intros x Hx. apply list_elem_of_In. rewrite py_sorted_perm.
    unfold py_set. apply elem_of_remove_dups. now apply list_elem_of_In. }
  destruct H as [H|H]; [left | right]; apply Hmem, in_or_app; [left | right];
    unfold rglob; apply rglob_node_complete; try assumption;
    apply (fnmatch_star_suffix _ base); reflexivity.
Qed.

End ScannerCompleteness.

(** C9.  On a case-sensitive flavour the scanner misses a file whose
    extension is [".wav"] in mixed case: [song.Wav] is a file under the
    root, its extension equals [".wav"] when case is ignored, and the result
    of the scan is empty. *)
Theorem find_wav_files_misses_mixed_case :
  let tree := Dir [("song.Wav", File 1024)] in
  In ["/"; "music"; "song.Wav"] (files_under ["/"; "music"] tree)
  /\ has_wav_extension "song.Wav" = true
  /\ find_wav_files ["/"; "music"] (Some tree) = Returned [].
Proof. simpl. split; [now left|]. split; reflexivity. Qed.

(** ** Prompts *)

Section PromptFacts.

Lemma stat_with_console (w : World) (i : list key) (o : list string) (p : Path) :
  stat (with_console w i o) p = stat w p.
Proof. reflexivity. Qed.

Lemma input_cases (prompt : string) (w : World) :
  match input prompt w with
  | (Returned s, w') =>
      exists rest, stdin w = Line s :: rest /\ stdin w' = rest
                   /\ fs w' = fs w /\ cwd w' = cwd w
                   /\ stdout w' = stdout w ++ [prompt]
                   /\ protected w' = protected w /\ disk_usage w' = disk_usage w
  | (Raised e, w') =>
      (e = KeyboardInterrupt \/ e = EOFError)
      /\ fs w' = fs w /\ cwd w' = cwd w
      /\ (length (stdin w') <= length (stdin w))%nat
  end.
Proof.
  unfold input. destruct (stdin w) as [|[s|] rest]; simpl.
  - auto.
  - exists rest. auto 10.
  - auto with arith.
Qed.

Lemma print_then {A} (s : string) (k : M A) (w : World) :
  (print s ;; k) w = k (with_console w (stdin w) (stdout w ++ [s])).
Proof. reflexivity. Qed.

(** One turn of the directory prompt. *)
Lemma get_input_directory_loop_step (turns : nat) (w : World) :
  get_input_directory_loop (S turns) w
  = let o := stdout w ++ ["Enter the directory path containing WAV files: "] in
    match stdin w with
    | [] => (Raised EOFError, with_console w [] o)
    | CtrlC :: rest => (Raised KeyboardInterrupt, with_console w rest o)
    | Line s :: rest =>
        let w1 := with_console w rest o in
        let dir_path := strip s in
        let dir_path :=
          if startswith_quote dir_path && endswith_quote dir_path
          then slice_1_m1 dir_path else dir_path in
        if exists_ w1 (of_str dir_path) && is_dir w1 (of_str dir_path)
        then (Returned (of_str dir_path), w1)
        else get_input_directory_loop turns
               (with_console w rest
                  (o ++ ["Error: Directory '{dir_path}' does not exist or is not a directory.";
                         "Please try again."]))
    end.
Proof.
  simpl. unfold mbind at 1. unfold input.
  destruct (stdin w) as [|[s|] rest]; try reflexivity.
  cbv zeta. destruct (_ && _); [reflexivity|].
  rewrite !print_then. unfold with_console. simpl.
  now rewrite <- !app_assoc.
Qed.

(** The directory prompt only returns a path at which a directory exists;
    it leaves the file system as it was. *)
Lemma get_input_directory_loop_is_dir (turns : nat) (w w' : World) (p : Path) :
  get_input_directory_loop turns w = (Returned p, w') ->
  exists_ w' p = true /\ is_dir w' p = true /\ fs w' = fs w /\ cwd w' = cwd w.
Proof.
  revert w. induction turns as [|turns IH]; intros w.
  - discriminate.
  - rewrite get_input_directory_loop_step. cbv zeta.
    destruct (stdin w) as [|[s|] rest]; try discriminate.
    match goal with |- context [exists_ ?w1 ?q && _] =>
      destruct (exists_ w1 q && is_dir w1 q) eqn:E end.
    + intros [= <- <-]. apply andb_true_iff in E as [E1 E2]. auto.
    + intros H. apply IH in H. exact H.
Qed.

(** More turns than keys left: the loop never runs out of turns. *)
Lemma get_input_directory_loop_turns (n m : nat) (w : World) :
  (length (stdin w) < n)%nat -> (length (stdin w) < m)%nat ->
  get_input_directory_loop n w = get_input_directory_loop m w.
Proof.
  revert m w. induction n as [|n IH]; intros [|m] w Hn Hm; try lia.
  rewrite !get_input_directory_loop_step. cbv zeta.
  destruct (stdin w) as [|[s|] rest] eqn:E; try reflexivity.
  destruct (_ && _); [reflexivity|].
  apply IH; simpl in *; lia.
Qed.

Lemma ask_proceed_step (turns : nat) (w : World) :
  ask_proceed (S turns) w
  = let o := stdout w ++ ["Proceed without disk space verification? (y/N): "] in
    match stdin w with
    | [] => (Raised EOFError, with_console w [] o)
    | CtrlC :: rest => (Raised KeyboardInterrupt, with_console w rest o)
    | Line s :: rest =>
        let w1 := with_console w rest o in
        if is_yes (lower (strip s)) then (Returned true, w1)
        else if is_no (lower (strip s)) then (Returned false, w1)
        else ask_proceed turns
               (with_console w rest (o ++ ["Please enter 'y' for yes or 'n' for no."]))
    end.
Proof.
  simpl. unfold mbind at 1. unfold input.
  destruct (stdin w) as [|[s|] rest]; try reflexivity.
  cbv zeta. destruct (is_yes _); [reflexivity|]. destruct (is_no _); reflexivity.
Qed.

Lemma ask_proceed_turns (n m : nat) (w : World) :
  (length (stdin w) < n)%nat -> (length (stdin w) < m)%nat ->
  ask_proceed n w = ask_proceed m w.
Proof.
  revert m w. induction n as [|n IH]; intros [|m] w Hn Hm; try lia.
  rewrite !ask_proceed_step. cbv zeta.
  destruct (stdin w) as [|[s|] rest] eqn:E; try reflexivity.
  destruct (is_yes _); [reflexivity|]. destruct (is_no _); [reflexivity|].
  apply IH; simpl in *; lia.
Qed.

End PromptFacts.

(** C8, as the code has it.  The scanner does not fail on a root that does
    not exist or is not a directory: it returns the empty list.  Such a root
    is turned away before the scan: the directory prompt of the command line
    only returns a path at which a directory exists. *)
Theorem bad_root_is_rejected_by_the_prompt :
  (forall directory target,
      (forall es, target <> Some (Dir es)) ->
      find_wav_files directory target = Returned [])
  /\ (forall w w' p,
        get_input_directory w = (Returned p, w') ->
        is_dir w p = true /\ fs w' = fs w).
Proof.
  split.
  - intros directory target H. rewrite find_wav_files_returns.
    now rewrite !(rglob_not_a_directory _ _ _ H).
  - intros w w' p H. unfold get_input_directory, while_true in H.
    apply get_input_directory_loop_is_dir in H as (_ & Hd & Hfs & Hcwd).
    split; [|exact Hfs]. unfold is_dir, stat in *. now rewrite <- Hfs, <- Hcwd.
Qed.

(** The prompt turns a missing directory and a regular file away, then
    accepts the directory. *)
Lemma bad_root_is_rejected_by_the_prompt_witness :
  find_wav_files ["/"; "notes.txt"] (Some (File 3)) = Returned []
  /\ fst (get_input_directory
            (sample_world [Line "/nowhere"; Line "/notes.txt"; Line " /music "]))
     = Returned ["/"; "music"].
Proof.
  split.
  - apply (proj1 bad_root_is_rejected_by_the_prompt). discriminate.
  - vm_compute. reflexivity.
Defined.

(** The claim of C8 fails as stated: on a root that does not exist the scan
    returns a result. *)
Lemma find_wav_files_missing_root_returns :
  find_wav_files ["/"; "no"; "such"; "directory"] None = Returned []
  /\ find_wav_files ["/"; "notes.txt"] (Some (File 3)) = Returned [].
Proof. split; reflexivity. Qed.

(** ** The per-file conversion *)

Section ConvertFacts.

Variables format_1f format_2f : Q -> string.

Lemma subprocess_run_timeout (proc : process) :
  exceeds_timeout proc timeout_seconds ->
  subprocess_run proc timeout_seconds = Raised TimeoutExpired.
Proof.
  destruct proc as [d rc err| |e]; simpl; try easy.
  intros H. destruct (Qle_bool d timeout_seconds) eqn:E; [|reflexivity].
  apply Qle_bool_iff in E. now apply Qlt_not_le in H.
Qed.

Lemma compression_ratio_positive (output_size input_size : Z) :
  0 < input_size ->
  compression_ratio output_size input_size
  = Returned ((1 - inject_Z output_size / inject_Z input_size) * inject_Z 100)%Q.
Proof.
  intros H. unfold compression_ratio, truediv.
  destruct (0 <? input_size) eqn:E; [|lia].
  destruct (input_size =? 0) eqn:E0; [lia|]. reflexivity.
Qed.

Lemma compression_ratio_not_positive (output_size input_size : Z) :
  input_size <= 0 -> compression_ratio output_size input_size = Returned 0%Q.
Proof.
  intros H. unfold compression_ratio.
  destruct (0 <? input_size) eqn:E; [lia|]. reflexivity.
Qed.

End ConvertFacts.

(** C5.  A job whose transcoder runs beyond the timeout of 300 seconds (or
    never exits) yields a result tagged as a failure, with the message of
    the timeout; it is not a success. *)
Theorem timeout_is_reported_as_failure
    (format_1f format_2f : Q -> string) (env : conv_env)
    (wav_path input_dir output_dir : Path) (ffmpeg_threads compression_level : Z)
    (original_input_dir : option Path)
    (rel : Path) (output_filename : string) (output_file_path : Path) (sz : Z) :
  conversion_paths wav_path input_dir output_dir original_input_dir
  = Returned (rel, output_filename, output_file_path) ->
  mkdir_parents env (parent output_file_path) = Returned tt ->
  input_stat env = Returned sz ->
  exceeds_timeout
    (ffmpeg env (ffmpeg_cmd wav_path ffmpeg_threads compression_level output_file_path))
    timeout_seconds ->
  timeout_seconds = inject_Z 300
  /\ convert_wav_to_flac_ffmpeg format_1f format_2f env wav_path input_dir output_dir
       ffmpeg_threads compression_level original_input_dir
     = Returned {| success := false;
                   relative_path := str rel;
                   message := "Conversion timed out (>5 minutes)";
                   input_size := sz;
                   output_size := 0;
                   duration := elapsed env |}.
Proof.
  intros Hpaths Hmkdir Hstat Hlong. split; [reflexivity|].
  unfold convert_wav_to_flac_ffmpeg. rewrite Hpaths. cbn [step].
  rewrite Hmkdir. cbn [step]. rewrite Hstat. cbn [step].
  rewrite (subprocess_run_timeout _ Hlong). reflexivity.
Qed.

Lemma timeout_is_reported_as_failure_witness :
  bind (convert_wav_to_flac_ffmpeg (fun _ => "") (fun _ => "") hanging_env
          ["/"; "m"; "a.wav"] ["/"; "m"] ["/"; "m_converted"] 4 12 None)
       (fun r => Returned (success r, message r))
  = Returned (false, "Conversion timed out (>5 minutes)").
Proof.
  rewrite (proj2 (timeout_is_reported_as_failure (fun _ => "") (fun _ => "") hanging_env
            ["/"; "m"; "a.wav"] ["/"; "m"] ["/"; "m_converted"] 4 12 None
            ["a.wav"] "a.flac" ["/"; "m_converted"; "a.flac"] 1000
            eq_refl eq_refl eq_refl I)).
  reflexivity.
Defined.

(** C10.  The compression ratio divides by the input size only when that
    size is strictly positive; otherwise it is 0.  An empty input file that
    converts successfully yields a success whose message shows the ratio 0:
    no [ZeroDivisionError] is raised. *)
Theorem zero_byte_input_has_ratio_zero
    (format_1f format_2f : Q -> string) (env : conv_env)
    (wav_path input_dir output_dir : Path) (ffmpeg_threads compression_level : Z)
    (original_input_dir : option Path)
    (rel : Path) (output_filename : string) (output_file_path : Path)
    (d : Q) (diagnostic : string) (out_sz : Z) :
  conversion_paths wav_path input_dir output_dir original_input_dir
  = Returned (rel, output_filename, output_file_path) ->
  mkdir_parents env (parent output_file_path) = Returned tt ->
  input_stat env = Returned 0 ->
  ffmpeg env (ffmpeg_cmd wav_path ffmpeg_threads compression_level output_file_path)
  = Exits d 0 diagnostic ->
  (d <= timeout_seconds)%Q ->
  output_exists env = true ->
  output_stat env = Returned out_sz ->
  (forall output_size input_size,
      compression_ratio output_size input_size
      = if 0 <? input_size
        then Returned ((1 - inject_Z output_size / inject_Z input_size) * inject_Z 100)%Q
        else Returned 0%Q)
  /\ compression_ratio out_sz 0 = Returned 0%Q
  /\ convert_wav_to_flac_ffmpeg format_1f format_2f env wav_path input_dir output_dir
       ffmpeg_threads compression_level original_input_dir
     = Returned {| success := true;
                   relative_path := str rel;
                   message := "Converted to " +:+ output_filename +:+ " ("
                              +:+ format_1f 0%Q +:+ "% smaller, "
                              +:+ format_2f (elapsed env) +:+ "s)";
                   input_size := 0;
                   output_size := out_sz;
                   duration := elapsed env |}.
Proof.
  intros Hpaths Hmkdir Hstat Hrun Hd Hex Hout. split; [|split].
  - intros output_size input_size. destruct (0 <? input_size) eqn:E.
    + apply compression_ratio_positive. lia.
    + apply compression_ratio_not_positive. lia.
  - reflexivity.
  - unfold convert_wav_to_flac_ffmpeg. rewrite Hpaths. cbn [step].
    rewrite Hmkdir. cbn [step]. rewrite Hstat. cbn [step].
    rewrite Hrun. unfold subprocess_run.
    apply Qle_bool_iff in Hd. rewrite Hd. cbn [step returncode].
    change (0 =? 0) with true. cbv iota. rewrite Hex, Hout. reflexivity.
Qed.

Lemma zero_byte_input_has_ratio_zero_witness :
  bind (convert_wav_to_flac_ffmpeg (fun _ => "0.0") (fun _ => "2.00") zero_byte_env
          ["/"; "m"; "a.wav"] ["/"; "m"] ["/"; "m_converted"] 4 12 None)
       (fun r => Returned (success r, message r, input_size r, output_size r))
  = Returned (true, "Converted to a.flac (0.0% smaller, 2.00s)", 0, 42).
Proof.
  rewrite (proj2 (proj2 (zero_byte_input_has_ratio_zero
            (fun _ => "0.0") (fun _ => "2.00") zero_byte_env
            ["/"; "m"; "a.wav"] ["/"; "m"] ["/"; "m_converted"] 4 12 None
            ["a.wav"] "a.flac" ["/"; "m_converted"; "a.flac"] (inject_Z 2) "" 42
            eq_refl eq_refl eq_refl eq_refl ltac:(vm_compute; discriminate) eq_refl eq_refl))).
  reflexivity.
Defined.

(** ** The disk-space check when the query fails *)

Section CapacityFacts.

Lemma sum_sizes_world (wav_files : list Path) (w : World) :
  snd (sum_sizes wav_files w) = w.
Proof.
  induction wav_files as [|f rest IH]; [reflexivity|].
  simpl. unfold mbind at 1. unfold size_of at 1.
  destruct (st_size w f); [|reflexivity].
  unfold mbind. destruct (sum_sizes rest w) as [[t|e] w1] eqn:E; simpl in *; now subst.
Qed.

(** What an answer of the loop tells about the keys that were typed. *)
Lemma ask_proceed_answer (turns : nat) (w w' : World) (r : outcome bool) :
  ask_proceed turns w = (r, w') ->
  match r with
  | Returned true => exists s, In (Line s) (stdin w) /\ is_yes (lower (strip s)) = true
  | Returned false => exists s, In (Line s) (stdin w) /\ is_no (lower (strip s)) = true
  | Raised e => e = EOFError \/ e = KeyboardInterrupt
  end
  /\ fs w' = fs w
  /\ exists printed, stdout w' = stdout w ++ printed.
Proof.
  revert w. induction turns as [|turns IH]; intros w.
  - intros [= <- <-]. repeat split; auto. exists []. now rewrite app_nil_r.
  - rewrite ask_proceed_step. cbv zeta.
    destruct (stdin w) as [|[s|] rest] eqn:E.
    + intros [= <- <-]. repeat split; auto. eexists; reflexivity.
    + destruct (is_yes (lower (strip s))) eqn:Hy.
      { intros [= <- <-]. repeat split; [|eexists; reflexivity].
        exists s. split; [now left | exact Hy]. }
      destruct (is_no (lower (strip s))) eqn:Hn.
      { intros [= <- <-]. repeat split; [|eexists; reflexivity].
        exists s. split; [now left | exact Hn]. }
      intros H. apply IH in H. destruct H as (H1 & H2 & printed & H3).
      simpl in *. repeat split; [|exact H2|].
      * destruct r as [[|]|e]; try exact H1;
          destruct H1 as (s' & Hin & Hs); exists s'; split; auto.
      * eexists. rewrite H3, <- !app_assoc. reflexivity.
    + intros [= <- <-]. repeat split; auto. eexists; reflexivity.
Qed.

Lemma check_cache_disk_space_unknown
    (wav_files : list Path) (cache_dir : Path) (w : World) (total : Z) (e : exn) :
  fst (sum_sizes wav_files w) = Returned total ->
  disk_usage w cache_dir = Raised e -> is_Exception e = true ->
  check_cache_disk_space wav_files cache_dir w
  = ask_proceed (S (length (stdin w)))
      (with_console w (stdin w)
         (stdout w ++ ["Warning: Could not check disk space: {e}"])).
Proof.
  intros Hsum Hq He. unfold check_cache_disk_space.
  unfold mbind at 1. pose proof (sum_sizes_world wav_files w) as Hw.
  destruct (sum_sizes wav_files w) as [r w1]. simpl in Hsum, Hw. subst r w1.
  unfold try_except. unfold mbind at 1. rewrite Hq, He.
  rewrite print_then. reflexivity.
Qed.

End CapacityFacts.

(** C6, as the code has it.  When the free-space query fails, the check
    prints a warning and asks the user whether to proceed.  It returns
    [True] only on an answer [y] or [yes] and [False] only on an answer
    [n], [no] or an empty line; it has no third value: the caller receives
    the same two values as for a sufficient and an insufficient capacity. *)
Theorem unknown_capacity_is_left_to_the_user
    (wav_files : list Path) (cache_dir : Path) (w : World) (total : Z) (e : exn) :
  fst (sum_sizes wav_files w) = Returned total ->
  disk_usage w cache_dir = Raised e -> is_Exception e = true ->
  capacity_of total (disk_usage w cache_dir) = CapacityUnknown
  /\ exists r w',
      check_cache_disk_space wav_files cache_dir w = (r, w')
      /\ In "Warning: Could not check disk space: {e}" (stdout w')
      /\ match r with
         | Returned true =>
             exists s, In (Line s) (stdin w) /\ is_yes (lower (strip s)) = true
         | Returned false =>
             exists s, In (Line s) (stdin w) /\ is_no (lower (strip s)) = true
         | Raised e' => e' = EOFError \/ e' = KeyboardInterrupt
         end.
Proof.
  intros Hsum Hq He. split; [now rewrite Hq|].
  rewrite (check_cache_disk_space_unknown _ _ _ _ _ Hsum Hq He).
  destruct (ask_proceed _ _) as [r w'] eqn:E. exists r, w'. split; [reflexivity|].
  apply ask_proceed_answer in E as (H1 & _ & printed & H3). split.
  - rewrite H3. simpl. apply in_or_app. left. apply in_or_app. right. now left.
  - exact H1.
Qed.

Lemma unknown_capacity_is_left_to_the_user_witness :
  fst (check_cache_disk_space [["/"; "music"; "a.wav"]] ["/"; "cache"]
         (blind_world [Line "maybe"; Line " N "]))
  = Returned false.
Proof.
  destruct (unknown_capacity_is_left_to_the_user
              [["/"; "music"; "a.wav"]] ["/"; "cache"]
              (blind_world [Line "maybe"; Line " N "]) 10
              (OSError "Function not implemented") eq_refl eq_refl eq_refl)
    as (_ & r & w' & H & _).
  rewrite H. vm_compute in H. now injection H as <- _.
Defined.

(** The claim of C6 fails as stated: an unknown capacity that the user
    accepts and a sufficient capacity give the caller the same value. *)
Lemma unknown_capacity_returned_as_sufficient :
  capacity_of 10 (disk_usage (blind_world [Line "y"]) ["/"; "cache"]) = CapacityUnknown
  /\ capacity_of 10 (disk_usage (sample_world []) ["/"; "cache"]) = Sufficient
  /\ fst (check_cache_disk_space [["/"; "music"; "a.wav"]] ["/"; "cache"]
            (blind_world [Line "y"]))
     = Returned true
  /\ fst (check_cache_disk_space [["/"; "music"; "a.wav"]] ["/"; "cache"]
            (sample_world []))
     = Returned true.
Proof. repeat split; vm_compute; reflexivity. Qed.

(** ** Cleanup of the staging directory *)

Section CleanupFacts.

Lemma find_filtered_out (nm : string) (es : list (string * node)) :
  List.find (entry_named nm) (List.filter (fun e => negb (entry_named nm e)) es) = None.
Proof.
  induction es as [|e es IH]; [reflexivity|]. simpl.
  destruct (entry_named nm e) eqn:E; simpl; [exact IH|]. now rewrite E.
Qed.

Lemma find_mapped (nm : string) (f : node -> node) (es : list (string * node)) :
  List.find (entry_named nm)
    (map (fun e => if entry_named nm e then (fst e, f (snd e)) else e) es)
  = match List.find (entry_named nm) es with
    | Some e => Some (fst e, f (snd e))
    | None => None
    end.
Proof.
  induction es as [|e es IH]; [reflexivity|]. simpl.
  destruct (entry_named nm e) eqn:E; simpl.
  - unfold entry_named in *. simpl. now rewrite E.
  - now rewrite E.
Qed.

(** What was removed is no longer found. *)
Lemma lookup_remove (names : list string) (n : node) :
  names <> [] -> lookup (remove names n) names = None.
Proof.
  revert n. induction names as [|nm rest IH]; intros n Hne; [congruence|].
  destruct n as [sz|es].
  - destruct rest; reflexivity.
  - destruct rest as [|nm2 rest].
    + simpl. now rewrite find_filtered_out.
    + change (remove (nm :: nm2 :: rest) (Dir es))
        with (Dir (map (fun e => if entry_named nm e
                                 then (fst e, remove (nm2 :: rest) (snd e)) else e) es)).
      change (lookup (Dir ?l) (nm :: ?r))
        with (match List.find (entry_named nm) l with
              | Some e => lookup (snd e) r
              | None => None
              end).
      rewrite find_mapped. destruct (List.find (entry_named nm) es); [|reflexivity].
      simpl snd. apply IH. discriminate.
Qed.

Lemma rmtree_cases (p : Path) (w : World) :
  match rmtree p w with
  | (Returned _, w') =>
      removable w p = true /\ exists_ w' p = false
      /\ stdout w' = stdout w /\ stdin w' = stdin w
  | (Raised e, w') => removable w p = false /\ w' = w /\ is_Exception e = true
  end.
Proof.
  unfold rmtree, removable, exists_, stat.
  destruct (lookup (fs w) (resolve (cwd w) p)) as [n|] eqn:E; [|auto].
  destruct (resolve (cwd w) p) as [|nm names] eqn:R; [auto|].
  destruct (existsb _ _); [auto|].
  unfold with_fs. cbn [fs cwd stdout stdin]. rewrite R.
  rewrite lookup_remove by discriminate. auto.
Qed.

Lemma exists_with_console (w : World) (i : list key) (o : list string) (p : Path) :
  exists_ (with_console w i o) p = exists_ w p.
Proof. reflexivity. Qed.

Lemma removable_with_console (w : World) (i : list key) (o : list string) (p : Path) :
  removable (with_console w i o) p = removable w p.
Proof. reflexivity. Qed.

(** [cleanup_cache] never raises: a failure of the removal is caught and
    turned into a warning.  After it the directory is gone whenever nothing
    stood against its removal; if it is still there, the user has been told
    to delete it. *)
Lemma cleanup_cache_outcome (c : Path) (w : World) :
  exists w',
    cleanup_cache c w = (Returned tt, w')
    /\ stdin w' = stdin w
    /\ (removable w c = true \/ exists_ w c = false -> exists_ w' c = false)
    /\ (exists_ w' c = true ->
        In "You may need to manually delete the cache directory." (stdout w')).
Proof.
  unfold cleanup_cache, try_except.
  destruct (exists_ w c) eqn:Hex.
  - rewrite print_then. unfold mbind at 1.
    set (w0 := with_console w (stdin w) (stdout w ++ ["Cleaning up cache directory..."])).
    pose proof (rmtree_cases c w0) as Hrm.
    destruct (rmtree c w0) as [[[]|e] w1].
    + destruct Hrm as (_ & Hgone & Hout & Hin).
      eexists. split; [reflexivity|].
      rewrite exists_with_console, Hgone. cbn [stdin with_console].
      repeat split; [exact Hin | discriminate].
    + destruct Hrm as (Hno & -> & He). rewrite He.
      eexists. split; [reflexivity|].
      unfold w0 in *. rewrite removable_with_console in Hno.
      cbn [stdin stdout with_console].
      repeat split.
      * intros [H|H]; [congruence | discriminate].
      * intros _. apply in_or_app. right. now left.
  - exists w. repeat split; auto. congruence.
Qed.

End CleanupFacts.

Section MainFacts.

Variable copy_files_to_cache :
  list Path -> Path -> Path -> M (list Path * list (Path * string)).
Variable convert_all :
  list Path -> Path -> Path -> Z -> Z -> option Path -> M (list result).
Variable report : list result -> M unit.
Variables (input_dir output_dir : Path) (cache_dir : option Path).
Variables (thread_count compression_level : Z).

(** The [finally] clause never raises, and the outcome of the run is the
    outcome of the [try] body. *)
Lemma main_finally_outcome (w : World) :
  exists w',
    main_finally cache_dir w = (Returned tt, w')
    /\ forall c, cache_dir = Some c ->
         (removable w c = true \/ exists_ w c = false -> exists_ w' c = false)
         /\ (exists_ w' c = true ->
             In "You may need to manually delete the cache directory." (stdout w')).
Proof.
  unfold main_finally. destruct cache_dir as [c|].
  - destruct (exists_ w c) eqn:Hex.
    + destruct (cleanup_cache_outcome c w) as (w' & H1 & _ & H2 & H3).
      exists w'. split; [exact H1|]. intros c' [= <-]. auto.
    + exists w. split; [reflexivity|]. intros c' [= <-]. split; auto. congruence.
  - exists w. split; [reflexivity|]. discriminate.
Qed.

End MainFacts.

(** C3, as the code has it.  Whatever the outcome of the guarded part of the
    run -- it returns, it raises an exception mid-run, or it is cancelled by
    Ctrl+C -- the [finally] clause runs the cleanup and the outcome is passed
    on unchanged.  After the run the staging directory is absent whenever
    nothing stood against its removal; when the removal fails, the failure
    is only reported, and the user is told to delete the directory. *)
Theorem staging_directory_cleanup
    (copy_files_to_cache :
       list Path -> Path -> Path -> M (list Path * list (Path * string)))
    (convert_all :
       list Path -> Path -> Path -> Z -> Z -> option Path -> M (list result))
    (report : list result -> M unit)
    (input_dir output_dir c : Path) (thread_count compression_level : Z)
    (w w1 : World) (r1 : outcome unit) :
  main_try copy_files_to_cache convert_all report input_dir output_dir (Some c)
           thread_count compression_level w = (r1, w1) ->
  exists w',
    main_guarded copy_files_to_cache convert_all report input_dir output_dir (Some c)
                 thread_count compression_level w = (r1, w')
    /\ (removable w1 c = true -> exists_ w' c = false)
    /\ (exists_ w' c = true ->
        In "You may need to manually delete the cache directory." (stdout w')).
Proof.
  intros Hbody. unfold main_guarded, try_finally. rewrite Hbody.
  destruct (main_finally_outcome (Some c) w1) as (w' & Hfin & H).
  rewrite Hfin. exists w'. split; [reflexivity|].
  destruct (H c eq_refl) as [H1 H2]. split; auto.
Qed.

(** A run that is cancelled while the files are converted: the staging
    directory is gone afterwards. *)
Lemma staging_directory_cleanup_witness :
  exists w',
    main_guarded copy_nothing convert_interrupted report_nothing
      ["/"; "music"] ["/"; "music_converted"] (Some ["/"; "cache"]) 4 12
      (sample_world [Line "y"])
    = (Raised KeyboardInterrupt, w')
    /\ exists_ w' ["/"; "cache"] = false.
Proof.
  pose proof (staging_directory_cleanup copy_nothing convert_interrupted report_nothing
                ["/"; "music"] ["/"; "music_converted"] ["/"; "cache"] 4 12
                (sample_world [Line "y"])) as H.
  destruct (main_try copy_nothing convert_interrupted report_nothing
              ["/"; "music"] ["/"; "music_converted"] (Some ["/"; "cache"]) 4 12
              (sample_world [Line "y"])) as [r1 w1] eqn:E.
  destruct (H w1 r1 E) as (w' & Hrun & Hgone & _).
  vm_compute in E. injection E as <- <-.
  exists w'. split; [exact Hrun|]. apply Hgone. vm_compute. reflexivity.
Defined.

(** The claim of C3 fails as stated: when an entry of the staging directory
    cannot be deleted, the run completes and the directory is still there. *)
Lemma staging_directory_left_behind :
  let run := main_guarded copy_nothing convert_nothing report_nothing
               ["/"; "music"] ["/"; "music_converted"] (Some ["/"; "cache"]) 4 12
               (locked_world [Line "y"]) in
  exists_ (locked_world [Line "y"]) ["/"; "cache"] = true
  /\ fst run = Returned tt
  /\ exists_ (snd run) ["/"; "cache"] = true.
Proof. repeat split; vm_compute; reflexivity. Qed.

(** ** The safety margin in binary64 *)

Section MarginFacts.

Lemma margin_core (T mx A B M q rho m2 free : Z) :
  0 < A -> 0 < B -> 0 < mx ->
  2 * mx + 5 * A < 2 * (A * B) ->
  5 * M = 6 * T * (A * B) - mx ->
  M = q * A + rho -> 0 <= rho < A ->
  (m2 = q /\ 2 * rho <= A) \/ (m2 = q + 1 /\ A <= 2 * rho) ->
  (free * B < m2 <-> 5 * free < 6 * T).
Proof.
  intros HA HB Hmx Hgap HM Hdiv Hrho Hm2.
  assert (Hlo : 2 * M - A <= 2 * (m2 * A)) by nia.
  assert (Hhi : 2 * (m2 * A) <= 2 * M + A) by nia.
  assert (HqM : q * A <= M) by lia.
  assert (Hm2q : m2 <= q + 1) by lia.
  split; intros H.
  - destruct (Z_lt_le_dec (5 * free) (6 * T)) as [|Hge]; [assumption|exfalso].
    assert (H1 : 6 * T * (A * B) <= 5 * free * (A * B)) by nia.
    assert (H2 : (free * B) * A < (q + 1) * A).
    { apply Z.mul_lt_mono_pos_r; lia. }
    nia.
  - assert (H1 : 5 * free * (A * B) <= (6 * T - 1) * (A * B)) by nia.
    destruct (Z_lt_le_dec (free * B) m2) as [|Hge]; [assumption|exfalso].
    assert (H2 : m2 * A <= (free * B) * A) by nia.
    nia.
Qed.

Lemma digits2_pos_bounds (p : positive) :
  2 ^ (Z.pos (digits2_pos p) - 1) <= Z.pos p < 2 ^ Z.pos (digits2_pos p).
Proof.
  induction p as [p IH|p IH|]; simpl digits2_pos.
  - rewrite Pos2Z.inj_succ.
    replace (Z.succ (Z.pos (digits2_pos p)) - 1) with (Z.succ (Z.pos (digits2_pos p) - 1)) by lia.
    rewrite !Z.pow_succ_r by lia. lia.
  - rewrite Pos2Z.inj_succ.
    replace (Z.succ (Z.pos (digits2_pos p)) - 1) with (Z.succ (Z.pos (digits2_pos p) - 1)) by lia.
    rewrite !Z.pow_succ_r by lia. lia.
  - simpl. lia.
Qed.

Lemma digits2_pos_unique (p : positive) (k : Z) :
  2 ^ (k - 1) <= Z.pos p < 2 ^ k -> Z.pos (digits2_pos p) = k.
Proof.
  intros [Hlo Hhi]. pose proof (digits2_pos_bounds p) as [Blo Bhi].
  set (d := Z.pos (digits2_pos p)) in *.
  assert (0 < k).
  { destruct (Z_lt_le_dec 0 k); [assumption|].
    assert (2 ^ k <= 1).
    { destruct (Z.eq_dec k 0) as [->|]; [simpl; lia|].
      rewrite Z.pow_neg_r by lia. lia. }
    lia. }
  destruct (Z_lt_le_dec d k) as [Hlt|Hge].
  - assert (2 ^ d <= 2 ^ (k - 1)) by (apply Z.pow_le_mono_r; lia). lia.
  - destruct (Z_lt_le_dec k d) as [Hlt|Hge2]; [|lia].
    assert (2 ^ k <= 2 ^ (d - 1)) by (apply Z.pow_le_mono_r; lia). lia.
Qed.

Lemma iter_pos_nat {A} (f : A -> A) (p : positive) (x : A) :
  SpecFloat.iter_pos f p x = Nat.iter (Pos.to_nat p) f x.
Proof.
  revert x. induction p as [p IH|p IH|]; intros x; simpl SpecFloat.iter_pos.
  - rewrite !IH, Pos2Nat.inj_xI.
    replace (S (2 * Pos.to_nat p))%nat with (Pos.to_nat p + (Pos.to_nat p + 1))%nat by lia.
    rewrite !Nat.iter_add. reflexivity.
  - rewrite !IH, Pos2Nat.inj_xO.
    replace (2 * Pos.to_nat p)%nat with (Pos.to_nat p + Pos.to_nat p)%nat by lia.
    rewrite Nat.iter_add. reflexivity.
  - reflexivity.
Qed.

Lemma shr_1_nonneg (m : Z) (r s : bool) :
  0 <= m ->
  shr_1 {| shr_m := m; shr_r := r; shr_s := s |}
  = {| shr_m := m / 2; shr_r := Z.odd m; shr_s := r || s |}.
Proof.
  intros Hm. destruct m as [|[p|p|]|p]; try lia; simpl shr_1; f_equal.
  - rewrite Pos2Z.inj_xI. apply Z.div_unique with 1; lia.
  - rewrite Pos2Z.inj_xO. apply Z.div_unique with 0; lia.
Qed.

Lemma shifted_iter (m : Z) (k : nat) :
  0 <= m ->
  shifted m (S k)
    (Nat.iter (S k) shr_1 {| shr_m := m; shr_r := false; shr_s := false |}).
Proof.
  intros Hm. induction k as [|k IH].
  - change (Nat.iter 1 shr_1 ?x) with (shr_1 x).
    rewrite (shr_1_nonneg _ _ _ Hm). unfold shifted.
    cbn [shr_m shr_r shr_s orb]. change (2 ^ Z.of_nat 1) with 2.
    pose proof (Z.mod_pos_bound m 2 ltac:(lia)) as Hb.
    rewrite Zodd_mod. split; [reflexivity|].
    split.
    + destruct (Z.eqb_spec (m mod 2) 1); split; intros; try lia; try discriminate; reflexivity.
    + split; [discriminate | lia].
  - change (Nat.iter (S (S k)) shr_1 ?x) with (shr_1 (Nat.iter (S k) shr_1 x)).
    destruct (Nat.iter (S k) shr_1 _) as [q r s].
    destruct IH as (Hq & Hr & Hs). simpl in Hq, Hr, Hs.
    set (P := 2 ^ Z.of_nat (S k)) in *.
    assert (HP : 0 < P) by (apply Z.pow_pos_nonneg; lia).
    assert (Hq0 : 0 <= q) by (subst q; apply Z.div_pos; lia).
    rewrite (shr_1_nonneg _ _ _ Hq0). unfold shifted. simpl shr_m. simpl shr_r. simpl shr_s.
    replace (2 ^ Z.of_nat (S (S k))) with (P * 2)
      by (unfold P; rewrite (Nat2Z.inj_succ (S k)), Z.pow_succ_r; lia).
    rewrite (Z.rem_mul_r m P 2) by lia. rewrite <- Hq.
    pose proof (Z.mod_pos_bound m P HP) as Hb.
    pose proof (Z.mod_pos_bound q 2 ltac:(lia)) as Hb2.
    rewrite Zodd_mod.
    split; [subst q; rewrite Z.div_div by lia; reflexivity|].
    split.
    + destruct (Z.eqb_spec (q mod 2) 1); split; intros; try nia; try discriminate; reflexivity.
    + rewrite orb_true_iff, Hr, Hs.
      assert (Hc : q mod 2 = 0 \/ q mod 2 = 1) by lia.
      destruct Hc as [-> | ->]; lia.
Qed.

Lemma round_nearest_even_shifted (m : Z) (k : nat) (mrs : shr_record) :
  shifted m k mrs ->
  let m2 := round_nearest_even (shr_m mrs) (loc_of_shr_record mrs) in
  (m2 = m / 2 ^ Z.of_nat k /\ 2 * (m mod 2 ^ Z.of_nat k) <= 2 ^ Z.of_nat k)
  \/ (m2 = m / 2 ^ Z.of_nat k + 1 /\ 2 ^ Z.of_nat k <= 2 * (m mod 2 ^ Z.of_nat k)).
Proof.
  intros (Hq & Hr & Hs). destruct mrs as [q r s]. simpl in *. subst q.
  destruct r, s; simpl.
  - right. split; [reflexivity | now apply Hr].
  - assert (HP : 0 < 2 ^ Z.of_nat k) by (apply Z.pow_pos_nonneg; lia).
    assert (H1 : 2 ^ Z.of_nat k <= 2 * (m mod 2 ^ Z.of_nat k)) by now apply Hr.
    assert (H2 : 2 * (m mod 2 ^ Z.of_nat k) = 2 ^ Z.of_nat k).
    { destruct (Z.eq_dec (2 * (m mod 2 ^ Z.of_nat k)) (2 ^ Z.of_nat k)); [assumption|].
      assert (false = true) by (apply Hs; lia). discriminate. }
    destruct (Z.even _); [left | right]; split; try reflexivity; lia.
  - left. split; [reflexivity|].
    destruct (Z_lt_le_dec (2 * (m mod 2 ^ Z.of_nat k)) (2 ^ Z.of_nat k)); [lia|].
    assert (false = true) by now apply Hr. discriminate.
  - left. split; [reflexivity|].
    destruct (Z_lt_le_dec (2 * (m mod 2 ^ Z.of_nat k)) (2 ^ Z.of_nat k)); [lia|].
    assert (false = true) by now apply Hr. discriminate.
Qed.

Lemma pos_iter_xO (p k : positive) :
  Z.pos (Pos.iter xO p k) = Z.pos p * 2 ^ Z.pos k.
Proof.
  induction k as [|k IH] using Pos.peano_ind.
  - simpl. lia.
  - rewrite Pos.iter_succ, Pos2Z.inj_xO, IH, Pos2Z.inj_succ, Z.pow_succ_r by lia. lia.
Qed.

(** A mantissa of 53 digits within the exponent range is kept as it is. *)
Lemma binary_round_aux_canonical (mz : positive) (ez : Z) :
  Z.pos (digits2_pos mz) = 53 -> -1074 <= ez <= 971 ->
  binary_round_aux prec emax false (Z.pos mz) ez loc_Exact
  = S754_finite false mz ez.
Proof.
  intros Hd He. unfold binary_round_aux, shr_fexp, fexp, emin, prec, emax.
  cbn [Zdigits2 shr_record_of_loc]. rewrite Hd.
  replace (Z.max (53 + ez - 53) (3 - 1024 - 53) - ez) with 0 by lia.
  cbn [shr shr_m loc_of_shr_record round_nearest_even Zdigits2].
  rewrite Hd.
  replace (Z.max (53 + ez - 53) (3 - 1024 - 53) - ez) with 0 by lia.
  cbn [shr shr_m]. destruct (Z.leb_spec ez (1024 - 53)); [reflexivity | lia].
Qed.

(** [float(n)] is exact below 2^53: the mantissa is [n] shifted to 53
    digits. *)
Lemma float_of_int_exact (p : positive) :
  Z.pos p < 2 ^ 53 ->
  exists mx,
    float_of_int (Z.pos p) = Returned (S754_finite false mx (Z.pos (digits2_pos p) - 53))
    /\ Z.pos mx = Z.pos p * 2 ^ (53 - Z.pos (digits2_pos p))
    /\ 2 ^ 52 <= Z.pos mx < 2 ^ 53.
Proof.
  intros Hp. pose proof (digits2_pos_bounds p) as [Blo Bhi].
  set (d := Z.pos (digits2_pos p)) in *.
  assert (Hd : 1 <= d <= 53).
  { split; [unfold d; lia|].
    destruct (Z_lt_le_dec 53 d); [|lia].
    assert (2 ^ 53 <= 2 ^ (d - 1)) by (apply Z.pow_le_mono_r; lia). lia. }
  assert (Hmx : exists mx, shl_align p 0 (d - 53) = (mx, d - 53)
                           /\ Z.pos mx = Z.pos p * 2 ^ (53 - d)).
  { unfold shl_align. destruct (d - 53 - 0) as [|k|k] eqn:E; try lia.
    - exists p. replace (d - 53) with 0 by lia. replace (53 - d) with 0 by lia.
      split; [reflexivity | simpl; lia].
    - exists (Pos.iter xO p k). split; [reflexivity|].
      rewrite pos_iter_xO. f_equal. f_equal. lia. }
  destruct Hmx as (mx & Hal & Hval). exists mx.
  assert (Hrange : 2 ^ 52 <= Z.pos mx < 2 ^ 53).
  { rewrite Hval.
    replace (2 ^ 52) with (2 ^ (d - 1) * 2 ^ (53 - d))
      by (rewrite <- Z.pow_add_r by lia; f_equal; lia).
    replace (2 ^ 53) with (2 ^ d * 2 ^ (53 - d))
      by (rewrite <- Z.pow_add_r by lia; f_equal; lia).
    assert (0 < 2 ^ (53 - d)) by (apply Z.pow_pos_nonneg; lia).
    split; [apply Z.mul_le_mono_nonneg_r | apply Z.mul_lt_mono_pos_r]; lia. }
  split; [|split; assumption].
  unfold float_of_int, binary_normalize, binary_round.
  replace (fexp prec emax (Z.pos (digits2_pos p) + 0)) with (d - 53)
    by (unfold fexp, emin, prec, emax; fold d; lia).
  rewrite Hal. rewrite binary_round_aux_canonical; [reflexivity| |lia].
  apply digits2_pos_unique. exact Hrange.
Qed.

(** Rounding a mantissa of [53 + n] digits: [n] bits are shifted out, the
    quotient is rounded to the nearest, ties to even, and a carry into a
    54th digit costs one more shift. *)
Lemma binary_round_aux_shift (pm n : positive) (e : Z) :
  Z.pos (digits2_pos pm) = 53 + Z.pos n ->
  -1074 <= e + Z.pos n -> e + Z.pos n + 1 <= 971 ->
  exists mf ef m2,
    binary_round_aux prec emax false (Z.pos pm) e loc_Exact = S754_finite false mf ef
    /\ ((m2 = Z.pos pm / 2 ^ Z.pos n
         /\ 2 * (Z.pos pm mod 2 ^ Z.pos n) <= 2 ^ Z.pos n)
        \/ (m2 = Z.pos pm / 2 ^ Z.pos n + 1
            /\ 2 ^ Z.pos n <= 2 * (Z.pos pm mod 2 ^ Z.pos n)))
    /\ ((ef = e + Z.pos n /\ Z.pos mf = m2)
        \/ (ef = e + Z.pos n + 1 /\ 2 * Z.pos mf = m2)).
Proof.
  intros Hd Hlo Hhi.
  pose proof (digits2_pos_bounds pm) as [Blo Bhi]. rewrite Hd in Blo, Bhi.
  assert (HA : 0 < 2 ^ Z.pos n) by (apply Z.pow_pos_nonneg; lia).
  assert (Hq : 2 ^ 52 <= Z.pos pm / 2 ^ Z.pos n < 2 ^ 53).
  { replace (53 + Z.pos n - 1) with (52 + Z.pos n) in Blo by lia.
    rewrite Z.pow_add_r in Blo, Bhi by lia. split.
    - apply Z.div_le_lower_bound; lia.
    - apply Z.div_lt_upper_bound; lia. }
  unfold binary_round_aux, shr_fexp.
  cbn [Zdigits2 shr_record_of_loc]. rewrite Hd.
  replace (fexp prec emax (53 + Z.pos n + e) - e) with (Z.pos n)
    by (unfold fexp, emin, prec, emax; lia).
  cbn [shr]. rewrite iter_pos_nat.
  destruct (Pos2Nat.is_succ n) as [k Hk]. rewrite Hk.
  pose proof (shifted_iter (Z.pos pm) k ltac:(lia)) as Hsh.
  assert (HkZ : Z.of_nat (S k) = Z.pos n) by (rewrite <- Hk; apply positive_nat_Z).
  apply round_nearest_even_shifted in Hsh. cbv zeta in Hsh. rewrite HkZ in Hsh.
  set (m2 := round_nearest_even _ _) in *.
  assert (Hm2 : 2 ^ 52 <= m2 <= 2 ^ 53) by lia.
  destruct m2 as [|pm2|pm2] eqn:Em2; try lia.
  cbn [Zdigits2]. pose proof (digits2_pos_bounds pm2) as [Clo Chi].
  destruct (Z_lt_le_dec (Z.pos pm2) (2 ^ 53)) as [Hsmall|Hbig].
  - assert (Hd2 : Z.pos (digits2_pos pm2) = 53) by (apply digits2_pos_unique; lia).
    rewrite Hd2.
    replace (fexp prec emax (53 + (e + Z.pos n)) - (e + Z.pos n)) with 0
      by (unfold fexp, emin, prec, emax; lia).
    cbn [shr shr_m].
    exists pm2, (e + Z.pos n), (Z.pos pm2).
    split; [|split; [exact Hsh | left; split; reflexivity]].
    unfold emax, prec. destruct (Z.leb_spec (e + Z.pos n) (1024 - 53)); [reflexivity | lia].
  - assert (Heq : Z.pos pm2 = 2 ^ 53) by lia.
    assert (Hpm2 : pm2 = 9007199254740992%positive) by (apply Pos2Z.inj; exact Heq).
    assert (Hd2 : Z.pos (digits2_pos pm2) = 54) by (rewrite Hpm2; reflexivity).
    rewrite Hd2.
    replace (fexp prec emax (54 + (e + Z.pos n)) - (e + Z.pos n)) with 1
      by (unfold fexp, emin, prec, emax; lia).
    rewrite Hpm2. cbn [shr SpecFloat.iter_pos shr_1 shr_m].
    exists 4503599627370496%positive, (e + Z.pos n + 1), (Z.pos pm2).
    split; [|split; [exact Hsh | right; split; [reflexivity | rewrite Hpm2; reflexivity]]].
    unfold emax, prec.
    destruct (Z.leb_spec (e + Z.pos n + 1) (1024 - 53)); [reflexivity | lia].
Qed.

(** The comparison of the source agrees with the exact one below 2^50
    bytes: [free < total * 1.2] in binary64 says the same as
    [5 * free < 6 * total]. *)
Lemma margin_comparison (total_size_bytes free_space : Z) :
  0 <= total_size_bytes < 2 ^ 50 ->
  exists required,
    int_mul_float total_size_bytes float_1_2 = Returned required
    /\ int_lt_float free_space required = (5 * free_space <? 6 * total_size_bytes).
Proof.
  intros [Hlo Hhi]. destruct total_size_bytes as [|p|p]; try lia.
  { exists (S754_zero false). split; [reflexivity|].
    simpl int_lt_float.
    destruct (Z.ltb_spec free_space 0), (Z.ltb_spec (5 * free_space) (6 * 0)); lia || reflexivity. }
  destruct (float_of_int_exact p ltac:(lia)) as (mx & Hfl & Hmx & Hrange).
  pose proof (digits2_pos_bounds p) as [Blo Bhi].
  set (d := Z.pos (digits2_pos p)) in *.
  assert (Hd : 1 <= d <= 50).
  { split; [unfold d; lia|].
    destruct (Z_lt_le_dec 50 d); [|lia].
    assert (2 ^ 50 <= 2 ^ (d - 1)) by (apply Z.pow_le_mono_r; lia). lia. }
  unfold int_mul_float. rewrite Hfl. cbn [bind].
  unfold float_1_2. cbn [SFmul xorb].
  set (C := 5404319552844595%positive).
  assert (HM : 2 ^ 104 <= Z.pos (mx * C) < 2 ^ 106).
  { rewrite Pos2Z.inj_mul. change (Z.pos C) with 5404319552844595.
    change (2 ^ 52) with 4503599627370496 in Hrange.
    change (2 ^ 53) with 9007199254740992 in Hrange.
    change (2 ^ 104) with 20282409603651670423947251286016.
    change (2 ^ 106) with 81129638414606681695789005144064. nia. }
  assert (Hn : exists n : positive,
             (n = 52%positive \/ n = 53%positive)
             /\ Z.pos (digits2_pos (mx * C)) = 53 + Z.pos n).
  { destruct (Z_lt_le_dec (Z.pos (mx * C)) (2 ^ 105)).
    - exists 52%positive. split; [now left|]. apply digits2_pos_unique.
      change (53 + 52 - 1) with 104. change (53 + 52) with 105. lia.
    - exists 53%positive. split; [now right|]. apply digits2_pos_unique.
      change (53 + 53 - 1) with 105. change (53 + 53) with 106. lia. }
  destruct Hn as (n & Hn & Hdig).
  destruct (binary_round_aux_shift (mx * C) n (d - 53 + -52) Hdig
              ltac:(destruct Hn; subst n; lia) ltac:(destruct Hn; subst n; lia))
    as (mf & ef & m2 & Hres & Hround & Hfin).
  exists (S754_finite false mf ef). split; [f_equal; exact Hres|].
  cbn [int_lt_float].
  assert (Hef : ef < 0) by (destruct Hn, Hfin as [[? _]|[? _]]; subst; lia).
  destruct (Z.leb_spec 0 ef); [lia|].
  set (A := 2 ^ Z.pos n) in *.
  set (B := 2 ^ (105 - d - Z.pos n)).
  assert (HA : 0 < A) by (apply Z.pow_pos_nonneg; lia).
  assert (HB : 0 < B) by (apply Z.pow_pos_nonneg; destruct Hn; subst n; lia).
  assert (HAB : A * B = 2 ^ 52 * 2 ^ (53 - d)).
  { unfold A, B. rewrite <- !Z.pow_add_r by (destruct Hn; subst n; lia).
    f_equal. lia. }
  assert (Hgap : 2 * Z.pos mx + 5 * A < 2 * (A * B)).
  { destruct Hn; subst n; unfold A, B in *.
    - assert (2 ^ 3 <= 2 ^ (105 - d - 52)) by (apply Z.pow_le_mono_r; lia).
      change (2 ^ 52) with 4503599627370496 in *.
      change (2 ^ 53) with 9007199254740992 in *.
      change (2 ^ 3) with 8 in *. nia.
    - assert (2 ^ 2 <= 2 ^ (105 - d - 53)) by (apply Z.pow_le_mono_r; lia).
      change (2 ^ 52) with 4503599627370496 in *.
      change (2 ^ 53) with 9007199254740992 in *.
      change (2 ^ 2) with 4 in *. nia. }
  assert (H5M : 5 * Z.pos (mx * C) = 6 * Z.pos p * (A * B) - Z.pos mx).
  { rewrite HAB, Pos2Z.inj_mul, Hmx. change (Z.pos C) with 5404319552844595.
    change (2 ^ 52) with 4503599627370496. ring. }
  pose proof (Z.mod_pos_bound (Z.pos (mx * C)) A HA) as Hrho.
  pose proof (Z.div_mod (Z.pos (mx * C)) A ltac:(lia)) as Hdiv.
  assert (Hcore : free_space * B < m2 <-> 5 * free_space < 6 * Z.pos p).
  { apply (margin_core (Z.pos p) (Z.pos mx) A B (Z.pos (mx * C))
             (Z.pos (mx * C) / A) (Z.pos (mx * C) mod A) m2 free_space);
      try assumption; try lia. }
  assert (Hcmp : free_space * 2 ^ (- ef) < Z.pos mf <-> free_space * B < m2).
  { destruct Hfin as [[-> <-]|[-> <-]].
    - replace (- (d - 53 + -52 + Z.pos n)) with (105 - d - Z.pos n) by lia.
      reflexivity.
    - assert (HB2 : B = 2 * 2 ^ (- (d - 53 + -52 + Z.pos n + 1))).
      { unfold B. rewrite <- Z.pow_succ_r by lia. f_equal. lia. }
      rewrite HB2. lia. }
  destruct (Z.ltb_spec (free_space * 2 ^ (- ef)) (Z.pos mf)),
           (Z.ltb_spec (5 * free_space) (6 * Z.pos p)); try reflexivity; lia.
Qed.

End MarginFacts.

(** C4, as the code has it.  For files that total less than 2^50 bytes
    (1 PiB), the check reports a sufficient capacity exactly when the free
    space is at least 1.2 times the total, that is when
    [6 * total <= 5 * free]: [True] is returned in that case and [False]
    otherwise. *)
Theorem capacity_check_margin
    (wav_files : list Path) (cache_dir : Path) (w : World)
    (total_size_bytes total_space used_space free_space : Z) :
  fst (sum_sizes wav_files w) = Returned total_size_bytes ->
  0 <= total_size_bytes < 2 ^ 50 ->
  disk_usage w cache_dir = Returned (total_space, used_space, free_space) ->
  capacity_of total_size_bytes (disk_usage w cache_dir)
  = (if 6 * total_size_bytes <=? 5 * free_space then Sufficient else Insufficient)
  /\ exists w',
      check_cache_disk_space wav_files cache_dir w
      = (Returned (6 * total_size_bytes <=? 5 * free_space), w').
Proof.
  intros Hsum Hrange Hq.
  destruct (margin_comparison total_size_bytes free_space Hrange)
    as (required & Hreq & Hcmp).
  assert (Hflip : (6 * total_size_bytes <=? 5 * free_space)
                  = negb (5 * free_space <? 6 * total_size_bytes)).
  { destruct (Z.leb_spec (6 * total_size_bytes) (5 * free_space)),
             (Z.ltb_spec (5 * free_space) (6 * total_size_bytes));
      try reflexivity; lia. }
  split.
  - unfold capacity_of. rewrite Hq, Hreq, Hcmp, Hflip.
    now destruct (5 * free_space <? 6 * total_size_bytes).
  - unfold check_cache_disk_space. unfold mbind at 1.
    pose proof (sum_sizes_world wav_files w) as Hw.
    destruct (sum_sizes wav_files w) as [r w1]. simpl in Hsum, Hw. subst r w1.
    unfold try_except. unfold mbind at 1. rewrite Hq.
    unfold mbind at 1. unfold lift. rewrite Hreq.
    rewrite !print_then, Hcmp, Hflip.
    destruct (5 * free_space <? 6 * total_size_bytes);
      rewrite print_then; eexists; reflexivity.
Qed.

(** 50 GB of files: sufficient with 100 GB free, insufficient with 50 GB
    free. *)
Lemma capacity_check_margin_witness :
  fst (check_cache_disk_space [["/"; "music"; "a.wav"]] ["/"; "cache"]
         (sized_world (50 * 1024 ^ 3) (100 * 1024 ^ 3)))
  = Returned true
  /\ fst (check_cache_disk_space [["/"; "music"; "a.wav"]] ["/"; "cache"]
            (sized_world (50 * 1024 ^ 3) (50 * 1024 ^ 3)))
     = Returned false.
Proof.
  split.
  - destruct (proj2 (capacity_check_margin [["/"; "music"; "a.wav"]] ["/"; "cache"]
                (sized_world (50 * 1024 ^ 3) (100 * 1024 ^ 3))
                (50 * 1024 ^ 3) (100 * 1024 ^ 3) 0 (100 * 1024 ^ 3)
                eq_refl ltac:(vm_compute; split; discriminate || reflexivity) eq_refl))
      as (w' & H).
    rewrite H. reflexivity.
  - destruct (proj2 (capacity_check_margin [["/"; "music"; "a.wav"]] ["/"; "cache"]
                (sized_world (50 * 1024 ^ 3) (50 * 1024 ^ 3))
                (50 * 1024 ^ 3) (50 * 1024 ^ 3) 0 (50 * 1024 ^ 3)
                eq_refl ltac:(vm_compute; split; discriminate || reflexivity) eq_refl))
      as (w' & H).
    rewrite H. reflexivity.
Defined.

(** The claim of C4 fails as stated, for want of a bound: with
    1876499844737711 bytes of files and 2251799813685253 bytes free, the
    free space is below 1.2 times the total, and the check reports a
    sufficient capacity, because the binary64 product is rounded down to
    2251799813685253. *)
Lemma margin_rounded_beyond_range :
  5 * 2251799813685253 < 6 * 1876499844737711
  /\ int_mul_float 1876499844737711 float_1_2
     = Returned (S754_finite false 4503599627370506 (-1))
  /\ fst (check_cache_disk_space [["/"; "music"; "a.wav"]] ["/"; "cache"]
            (sized_world 1876499844737711 2251799813685253))
     = Returned true.
Proof. split; [lia|]. split; vm_compute; reflexivity. Qed.

(** ** What a conversion result tells *)

Section ResultFacts.

Variables format_1f format_2f : Q -> string.

Lemma handle_result (env : conv_env) (wav_path input_dir rel0 : Path)
    (sz : Z) (e : exn) (r : result) :
  handle env wav_path input_dir rel0 sz e = Returned r ->
  success r = false /\ output_size r = 0 /\ input_size r = sz
  /\ is_Exception e = true
  /\ (message r = "Conversion timed out (>5 minutes)"
      \/ message r = "Unexpected error: " +:+ exn_str e).
Proof.
  unfold handle. intros H.
  destruct e; cbn [is_Exception] in H; try discriminate;
    try (destruct (relative_to wav_path input_dir) as [rel|e'];
         cbn [bind] in H; [|discriminate]);
    injection H as <-; cbn; repeat split; auto.
Qed.

Lemma handle_raised (env : conv_env) (wav_path input_dir rel rel0 : Path)
    (sz : Z) (e e' : exn) :
  relative_to wav_path input_dir = Returned rel ->
  handle env wav_path input_dir rel0 sz e = Raised e' ->
  is_Exception e' = false.
Proof.
  unfold handle. intros Hrel H. rewrite Hrel in H.
  destruct e; cbn in H; try discriminate; injection H as <-; reflexivity.
Qed.

Lemma handle_relative_path (env : conv_env) (wav_path input_dir rel : Path)
    (sz : Z) (e : exn) (r : result) :
  relative_to wav_path input_dir = Returned rel ->
  handle env wav_path input_dir rel sz e = Returned r ->
  relative_path r = str rel.
Proof.
  unfold handle. intros Hrel H. rewrite Hrel in H.
  destruct e; cbn in H; try discriminate; injection H as <-; reflexivity.
Qed.

Lemma conversion_paths_relative (wav_path input_dir output_dir : Path)
    (original_input_dir : option Path) :
  conversion_paths wav_path input_dir output_dir original_input_dir
  = bind (relative_to wav_path input_dir) (fun rel =>
      Returned (rel, stem wav_path +:+ ".flac",
                join_str (joinpath output_dir (parent rel))
                         (stem wav_path +:+ ".flac"))).
Proof.
  unfold conversion_paths.
  destruct (match original_input_dir with
            | Some o => negb (bool_decide (o = input_dir))
            | None => false
            end); reflexivity.
Qed.

Lemma conversion_outcome_under (env : conv_env)
    (wav_path input_dir output_dir rel : Path) (ffmpeg_threads compression_level : Z)
    (original_input_dir : option Path) :
  relative_to wav_path input_dir = Returned rel ->
  match convert_wav_to_flac_ffmpeg format_1f format_2f env wav_path input_dir
          output_dir ffmpeg_threads compression_level original_input_dir with
  | Returned r => relative_path r = str rel
  | Raised e => is_Exception e = false
  end.
Proof.
  intros Hrel. unfold convert_wav_to_flac_ffmpeg.
  rewrite conversion_paths_relative, Hrel. cbn [bind step].
  assert (Hh : forall sz e,
             match handle env wav_path input_dir rel sz e with
             | Returned r => relative_path r = str rel
             | Raised e' => is_Exception e' = false
             end).
  { intros sz e. destruct (handle env wav_path input_dir rel sz e) eqn:E.
    - eapply handle_relative_path; eassumption.
    - eapply handle_raised; eassumption. }
  destruct (mkdir_parents env _) as [[]|e]; cbn [step]; [|apply Hh].
  destruct (input_stat env) as [sz|e]; cbn [step]; [|apply Hh].
  destruct (subprocess_run _ timeout_seconds) as [completed|e];
    cbn [step]; [|apply Hh].
  destruct (returncode completed =? 0); [|reflexivity].
  destruct (output_exists env); [|reflexivity].
  destruct (output_stat env) as [osz|e]; cbn [step]; [|apply Hh].
  destruct (compression_ratio osz sz) as [ratio|e]; cbn [step]; [|apply Hh].
  reflexivity.
Qed.

End ResultFacts.

(** X1.  A result tagged as a success was earned: the paths could be
    computed, the transcoder exited with the code 0 within the timeout, the
    output file exists, and the two sizes of the result are those that the
    file system reports for the input and the output file. *)
Theorem successful_conversion_is_sound
    (format_1f format_2f : Q -> string) (env : conv_env)
    (wav_path input_dir output_dir : Path) (ffmpeg_threads compression_level : Z)
    (original_input_dir : option Path) (r : result) :
  convert_wav_to_flac_ffmpeg format_1f format_2f env wav_path input_dir output_dir
    ffmpeg_threads compression_level original_input_dir = Returned r ->
  success r = true ->
  exists rel output_filename output_file_path d diagnostic,
    conversion_paths wav_path input_dir output_dir original_input_dir
    = Returned (rel, output_filename, output_file_path)
    /\ mkdir_parents env (parent output_file_path) = Returned tt
    /\ ffmpeg env (ffmpeg_cmd wav_path ffmpeg_threads compression_level
                              output_file_path) = Exits d 0 diagnostic
    /\ (d <= timeout_seconds)%Q
    /\ output_exists env = true
    /\ input_stat env = Returned (input_size r)
    /\ output_stat env = Returned (output_size r)
    /\ relative_path r = str rel
    /\ duration r = elapsed env.
Proof.
  unfold convert_wav_to_flac_ffmpeg. intros H Hs.
  destruct (conversion_paths wav_path input_dir output_dir original_input_dir)
    as [[[rel output_filename] output_file_path]|e] eqn:Ep; cbn [step] in H;
    [|apply handle_result in H as (Hf & _); congruence].
  destruct (mkdir_parents env (parent output_file_path)) as [[]|e] eqn:Em;
    cbn [step] in H; [|apply handle_result in H as (Hf & _); congruence].
  destruct (input_stat env) as [sz|e] eqn:Ei; cbn [step] in H;
    [|apply handle_result in H as (Hf & _); congruence].
  destruct (ffmpeg env (ffmpeg_cmd wav_path ffmpeg_threads compression_level
                                   output_file_path))
    as [d rc err| |e] eqn:Ef; cbn [subprocess_run step] in H;
    try (apply handle_result in H as (Hf & _); congruence).
  destruct (Qle_bool d timeout_seconds) eqn:Ed; cbn [step] in H;
    [|apply handle_result in H as (Hf & _); congruence].
  cbn [returncode] in H.
  destruct (rc =? 0) eqn:Erc; [|injection H as <-; discriminate].
  apply Z.eqb_eq in Erc. subst rc.
  destruct (output_exists env) eqn:Ex; [|injection H as <-; discriminate].
  destruct (output_stat env) as [osz|e] eqn:Eo; cbn [step] in H;
    [|apply handle_result in H as (Hf & _); congruence].
  destruct (compression_ratio osz sz) as [ratio|e]; cbn [step] in H;
    [|apply handle_result in H as (Hf & _); congruence].
  injection H as <-. cbn.
  exists rel, output_filename, output_file_path, d, err.
  repeat split; try reflexivity; try assumption. now apply Qle_bool_iff.
Qed.

Lemma successful_conversion_is_sound_witness :
  exists rel output_filename output_file_path d diagnostic,
    conversion_paths ["/"; "m"; "a.wav"] ["/"; "m"] ["/"; "m_converted"] None
    = Returned (rel, output_filename, output_file_path)
    /\ mkdir_parents zero_byte_env (parent output_file_path) = Returned tt
    /\ ffmpeg zero_byte_env (ffmpeg_cmd ["/"; "m"; "a.wav"] 4 12 output_file_path)
       = Exits d 0 diagnostic
    /\ (d <= timeout_seconds)%Q
    /\ output_exists zero_byte_env = true
    /\ input_stat zero_byte_env = Returned 0
    /\ output_stat zero_byte_env = Returned 42
    /\ "a.wav" = str rel
    /\ inject_Z 2 = elapsed zero_byte_env.
Proof.
  exact (successful_conversion_is_sound (fun _ => "") (fun _ => "") zero_byte_env
           ["/"; "m"; "a.wav"] ["/"; "m"] ["/"; "m_converted"] 4 12 None
           {| success := true; relative_path := "a.wav";
              message := "Converted to a.flac (% smaller, s)";
              input_size := 0; output_size := 42; duration := inject_Z 2 |}
           eq_refl eq_refl).
Defined.

(** X2.  A result tagged as a failure reports no output: its output size is
    0, and its message is one of the four the converter has: the timeout,
    the missing output file, the exit code of the transcoder with its
    diagnostic, or an unexpected error with its text. *)
Theorem failed_conversion_reports_no_output
    (format_1f format_2f : Q -> string) (env : conv_env)
    (wav_path input_dir output_dir : Path) (ffmpeg_threads compression_level : Z)
    (original_input_dir : option Path) (r : result) :
  convert_wav_to_flac_ffmpeg format_1f format_2f env wav_path input_dir output_dir
    ffmpeg_threads compression_level original_input_dir = Returned r ->
  success r = false ->
  output_size r = 0
  /\ (message r = "Conversion timed out (>5 minutes)"
      \/ message r = "FFmpeg completed but output file not found"
      \/ (exists code diagnostic,
             code <> 0
             /\ message r = "FFmpeg error (code " +:+ pretty code +:+ "): "
                            +:+ strip diagnostic)
      \/ (exists e, is_Exception e = true
                    /\ message r = "Unexpected error: " +:+ exn_str e)).
Proof.
  unfold convert_wav_to_flac_ffmpeg. intros H Hs.
  assert (Hh : forall rel0 sz e,
             handle env wav_path input_dir rel0 sz e = Returned r ->
             output_size r = 0
             /\ (message r = "Conversion timed out (>5 minutes)"
                 \/ message r = "FFmpeg completed but output file not found"
                 \/ (exists code diagnostic,
                        code <> 0
                        /\ message r = "FFmpeg error (code " +:+ pretty code
                                       +:+ "): " +:+ strip diagnostic)
                 \/ (exists e, is_Exception e = true
                               /\ message r = "Unexpected error: " +:+ exn_str e))).
  { intros rel0 sz e He. apply handle_result in He as (_ & Ho & _ & Hx & [Hm|Hm]).
    - split; [exact Ho|]. now left.
    - split; [exact Ho|]. right. right. right. now exists e. }
  destruct (conversion_paths wav_path input_dir output_dir original_input_dir)
    as [[[rel output_filename] output_file_path]|e]; cbn [step] in H;
    [|now apply Hh in H].
  destruct (mkdir_parents env (parent output_file_path)) as [[]|e];
    cbn [step] in H; [|now apply Hh in H].
  destruct (input_stat env) as [sz|e]; cbn [step] in H; [|now apply Hh in H].
  destruct (subprocess_run _ timeout_seconds) as [completed|e];
    cbn [step] in H; [|now apply Hh in H].
  destruct (returncode completed =? 0) eqn:Erc.
  - destruct (output_exists env).
    + destruct (output_stat env) as [osz|e]; cbn [step] in H; [|now apply Hh in H].
      destruct (compression_ratio osz sz) as [ratio|e]; cbn [step] in H;
        [|now apply Hh in H].
      injection H as <-. discriminate.
    + injection H as <-. cbn. split; [reflexivity|]. right. now left.
  - injection H as <-. cbn. split; [reflexivity|]. right. right. left.
    exists (returncode completed), (stderr completed).
    split; [|reflexivity]. now apply Z.eqb_neq.
Qed.

Lemma failed_conversion_reports_no_output_witness :
  0 = 0
  /\ ("Conversion timed out (>5 minutes)" = "Conversion timed out (>5 minutes)"
      \/ "Conversion timed out (>5 minutes)"
         = "FFmpeg completed but output file not found"
      \/ (exists code diagnostic,
             code <> 0
             /\ "Conversion timed out (>5 minutes)"
                = "FFmpeg error (code " +:+ pretty code +:+ "): "
                  +:+ strip diagnostic)
      \/ (exists e, is_Exception e = true
                    /\ "Conversion timed out (>5 minutes)"
                       = "Unexpected error: " +:+ exn_str e)).
Proof.
  exact (failed_conversion_reports_no_output (fun _ => "") (fun _ => "") hanging_env
           ["/"; "m"; "a.wav"] ["/"; "m"] ["/"; "m_converted"] 4 12 None
           {| success := false; relative_path := "a.wav";
              message := "Conversion timed out (>5 minutes)";
              input_size := 1000; output_size := 0; duration := inject_Z 300 |}
           eq_refl eq_refl).
Defined.

(** X3.  For a file below the input directory the converter keeps every
    error of the class [Exception] to itself: it returns a result that
    names the file by its relative path, and nothing but an interrupt or an
    exit request of the interpreter gets out of it. *)
Theorem conversion_contains_its_errors
    (format_1f format_2f : Q -> string) (env : conv_env)
    (wav_path input_dir output_dir rel : Path) (ffmpeg_threads compression_level : Z)
    (original_input_dir : option Path) :
  relative_to wav_path input_dir = Returned rel ->
  match convert_wav_to_flac_ffmpeg format_1f format_2f env wav_path input_dir
          output_dir ffmpeg_threads compression_level original_input_dir with
  | Returned r => relative_path r = str rel
  | Raised e => is_Exception e = false
  end.
Proof.
  apply conversion_outcome_under.
Qed.

Lemma conversion_contains_its_errors_witness :
  match convert_wav_to_flac_ffmpeg (fun _ => "") (fun _ => "") hanging_env
          ["/"; "m"; "sub"; "a.wav"] ["/"; "m"] ["/"; "m_converted"] 4 12 None with
  | Returned r => relative_path r = str ["sub"; "a.wav"]
  | Raised e => is_Exception e = false
  end.
Proof.
  exact (conversion_contains_its_errors (fun _ => "") (fun _ => "") hanging_env
           ["/"; "m"; "sub"; "a.wav"] ["/"; "m"] ["/"; "m_converted"]
           ["sub"; "a.wav"] 4 12 None eq_refl).
Defined.

(** X4.  For a file that is not below the input directory the converter
    returns no result at all: the [ValueError] of [relative_to] is raised
    again by the handler that was to report it, and leaves the converter. *)
Theorem conversion_outside_input_dir_raises
    (format_1f format_2f : Q -> string) (env : conv_env)
    (wav_path input_dir output_dir : Path) (ffmpeg_threads compression_level : Z)
    (original_input_dir : option Path) (e : exn) :
  relative_to wav_path input_dir = Raised e ->
  convert_wav_to_flac_ffmpeg format_1f format_2f env wav_path input_dir
    output_dir ffmpeg_threads compression_level original_input_dir = Raised e
  /\ exists msg, e = ValueError msg.
Proof.
  intros Hrel. unfold convert_wav_to_flac_ffmpeg.
  rewrite conversion_paths_relative, Hrel. cbn [bind step].
  assert (exists msg, e = ValueError msg) as [msg ->].
  { unfold relative_to in Hrel.
    destruct input_dir; [destruct (has_root wav_path)|destruct (is_prefix _ _)];
      try discriminate; injection Hrel as <-; eauto. }
  split; [|eauto]. unfold handle. cbn [is_Exception]. rewrite Hrel. reflexivity.
Qed.

Lemma conversion_outside_input_dir_raises_witness :
  convert_wav_to_flac_ffmpeg (fun _ => "") (fun _ => "") zero_byte_env
    ["/"; "other"; "a.wav"] ["/"; "m"] ["/"; "m_converted"] 4 12 None
  = Raised (ValueError "is not in the subpath of")
  /\ exists msg, ValueError "is not in the subpath of" = ValueError msg.
Proof.
  exact (conversion_outside_input_dir_raises (fun _ => "") (fun _ => "") zero_byte_env
           ["/"; "other"; "a.wav"] ["/"; "m"] ["/"; "m_converted"] 4 12 None
           (ValueError "is not in the subpath of") eq_refl).
Defined.

(** ** What the scanner returns, and what the converter makes of it *)

Section ScannerExactness.

Lemma fnmatch_star_any (nm : string) : fnmatch "*" nm = true.
Proof.
  induction nm as [|c nm IH]; [reflexivity|].
  change (fnmatch "*" (String c nm))
    with (fnmatch "" (String c nm) || fnmatch "*" nm).
  rewrite IH. apply orb_true_r.
Qed.

Lemma fnmatch_star_inv (pat nm : string) :
  fnmatch (String "*" pat) nm = true ->
  exists a b, nm = a +:+ b /\ fnmatch pat b = true.
Proof.
  induction nm as [|c nm IH]; intros H.
  - cbn in H. rewrite orb_false_r in H. now exists "", "".
  - change (fnmatch (String "*" pat) (String c nm))
      with (fnmatch pat (String c nm) || fnmatch (String "*" pat) nm) in H.
    apply orb_true_iff in H as [H|H].
    + now exists "", (String c nm).
    + destruct (IH H) as (a & b & -> & Hb). now exists (String c a), b.
Qed.

Lemma fnmatch_wav_inv (nm : string) :
  fnmatch "*.wav" nm = true -> exists base, nm = base +:+ ".wav".
Proof.
  intros H. apply fnmatch_star_inv in H as (a & b & -> & H). exists a. f_equal.
  do 4 match_char H b. destruct b; [|discriminate]. subst. reflexivity.
Qed.

Lemma fnmatch_WAV_inv (nm : string) :
  fnmatch "*.WAV" nm = true -> exists base, nm = base +:+ ".WAV".
Proof.
  intros H. apply fnmatch_star_inv in H as (a & b & -> & H). exists a. f_equal.
  do 4 match_char H b. destruct b; [|discriminate]. subst. reflexivity.
Qed.

Lemma in_select_inv (pat : string) (here p : Path) (es : list (string * node)) :
  In p (select pat here es) ->
  exists e, In e es /\ p = here ++ [fst e] /\ fnmatch pat (fst e) = true.
Proof.
  unfold select. intros H. apply in_map_iff in H as (e & <- & He).
  apply List.filter_In in He as [He Hm]. now exists e.
Qed.

(** What a pattern selects is an entry, and its name matches. *)
Lemma rglob_node_sound (pat : string) (n : node) :
  forall (here p : Path),
    In p (rglob_node pat here n) ->
    In p (rglob_node "*" here n)
    /\ exists q nm, p = q ++ [nm] /\ fnmatch pat nm = true.
Proof.
  induction n as [sz|es IH] using node_ind_entries; intros here p Hin.
  - destruct Hin.
  - change (In p (select pat here es
                  ++ flat_map (fun e => rglob_node pat (here ++ [fst e]) (snd e)) es))
      in Hin.
    change (In p (select "*" here es
                  ++ flat_map (fun e => rglob_node "*" (here ++ [fst e]) (snd e)) es)
            /\ exists q nm, p = q ++ [nm] /\ fnmatch pat nm = true).
    apply in_app_or in Hin as [Hin|Hin].
    + apply in_select_inv in Hin as (e & He & -> & Hm). split.
      * apply in_or_app. left. apply in_select; [exact He|apply fnmatch_star_any].
      * now exists here, (fst e).
    + apply in_flat_map in Hin as (e & He & Hp).
      rewrite List.Forall_forall in IH.
      destruct (IH e He _ _ Hp) as [Hall Hname]. split; [|exact Hname].
      apply in_or_app. right. apply in_flat_map. now exists e.
Qed.

(** Every entry whose name matches is selected. *)
Lemma rglob_node_all (pat : string) (n : node) :
  forall (here q : Path) (nm : string),
    In (q ++ [nm]) (rglob_node "*" here n) -> fnmatch pat nm = true ->
    In (q ++ [nm]) (rglob_node pat here n).
Proof.
  induction n as [sz|es IH] using node_ind_entries; intros here q nm Hin Hm.
  - destruct Hin.
  - change (In (q ++ [nm])
              (select "*" here es
               ++ flat_map (fun e => rglob_node "*" (here ++ [fst e]) (snd e)) es))
      in Hin.
    change (In (q ++ [nm])
              (select pat here es
               ++ flat_map (fun e => rglob_node pat (here ++ [fst e]) (snd e)) es)).
    apply in_or_app. apply in_app_or in Hin as [Hin|Hin].
    + left. apply in_select_inv in Hin as (e & He & Hp & _).
      apply app_inj_tail in Hp as [-> ->]. now apply in_select.
    + right. apply in_flat_map in Hin as (e & He & Hp).
      apply in_flat_map. exists e. split; [exact He|].
      rewrite List.Forall_forall in IH. now apply (IH e He).
Qed.

(** An entry lies below the directory, by names that the listings hold. *)
Lemma rglob_node_below (pat : string) (n : node) :
  forall (here p : Path),
    In p (rglob_node pat here n) ->
    exists names, names <> [] /\ p = here ++ names
                  /\ (wf_node n = true -> forallb good_part names = true).
Proof.
  induction n as [sz|es IH] using node_ind_entries; intros here p Hin.
  - destruct Hin.
  - change (In p (select pat here es
                  ++ flat_map (fun e => rglob_node pat (here ++ [fst e]) (snd e)) es))
      in Hin.
    assert (Hwf : wf_node (Dir es) = true ->
                  forall e, In e es ->
                            good_part (fst e) = true /\ wf_node (snd e) = true).
    { intros Hw e He.
      change (forallb (fun e => good_part (fst e) && wf_node (snd e)) es = true)
        in Hw.
      rewrite forallb_forall in Hw. apply andb_true_iff. now apply Hw. }
    apply in_app_or in Hin as [Hin|Hin].
    + apply in_select_inv in Hin as (e & He & -> & _).
      exists [fst e]. split; [discriminate|]. split; [reflexivity|].
      intros Hw. cbn. rewrite (proj1 (Hwf Hw e He)). reflexivity.
    + apply in_flat_map in Hin as (e & He & Hp).
      rewrite List.Forall_forall in IH.
      destruct (IH e He _ _ Hp) as (names & Hne & -> & Hgood).
      exists (fst e :: names). split; [discriminate|].
      split; [now rewrite <- app_assoc|].
      intros Hw. destruct (Hwf Hw e He) as [Hg Hs]. cbn.
      rewrite Hg, (Hgood Hs). reflexivity.
Qed.

Lemma in_find_wav_files (directory : Path) (target : option node) (p : Path) :
  In p (py_sorted (py_set (rglob "*.wav" directory target
                             ++ rglob "*.WAV" directory target)))
  <-> In p (rglob "*.wav" directory target)
      \/ In p (rglob "*.WAV" directory target).
Proof.
  rewrite <- in_app_iff, <- !list_elem_of_In, py_sorted_perm.
  unfold py_set. apply elem_of_remove_dups.
Qed.

Lemma wf_path_app (p names : Path) :
  wf_path p = true -> forallb good_part names = true ->
  wf_path (p ++ names) = true.
Proof.
  intros Hp Hn. destruct p as [|a p]; cbn [app].
  - destruct names as [|x names]; [reflexivity|]. cbn in *.
    apply andb_true_iff in Hn as [Hx Hn]. rewrite Hx, Hn.
    now rewrite !orb_true_r.
  - cbn in *. apply andb_true_iff in Hp as [Ha Hp]. rewrite Ha.
    rewrite forallb_app, Hp, Hn. reflexivity.
Qed.

(** What the scanner returns lies below the directory. *)
Lemma scanned_below (directory : Path) (es : list (string * node))
    (l : list Path) (p : Path) :
  wf_node (Dir es) = true ->
  find_wav_files directory (Some (Dir es)) = Returned l -> In p l ->
  exists rel, rel <> [] /\ p = directory ++ rel /\ forallb good_part rel = true.
Proof.
  intros Hw Hl Hin. rewrite find_wav_files_returns in Hl.
  assert (Hl' : l = py_sorted (py_set (rglob "*.wav" directory (Some (Dir es))
                                         ++ rglob "*.WAV" directory (Some (Dir es)))))
    by congruence.
  subst l. clear Hl. apply in_find_wav_files in Hin. unfold rglob in Hin.
  destruct Hin as [Hin|Hin];
    apply rglob_node_below in Hin as (names & Hne & -> & Hg);
    exists names; auto.
Qed.

End ScannerExactness.

(** X5.  The scanner of a directory returns exactly the entries below it, at
    any depth, whose name ends in [".wav"] or in [".WAV"]: each of them, and
    nothing else. *)
Theorem find_wav_files_exactly_wav_and_WAV
    (directory : Path) (es : list (string * node)) :
  exists l,
    find_wav_files directory (Some (Dir es)) = Returned l
    /\ forall p,
         In p l <->
         In p (rglob "*" directory (Some (Dir es)))
         /\ exists q base, p = q ++ [base +:+ ".wav"] \/ p = q ++ [base +:+ ".WAV"].
Proof.
  eexists. split; [apply find_wav_files_returns|].
  intros p. rewrite in_find_wav_files. unfold rglob. split.
  - intros [H|H]; apply rglob_node_sound in H as (Hall & q & nm & -> & Hm);
      (split; [exact Hall|]).
    + apply fnmatch_wav_inv in Hm as [base ->]. exists q, base. now left.
    + apply fnmatch_WAV_inv in Hm as [base ->]. exists q, base. now right.
  - intros (Hall & q & base & [->| ->]); [left | right];
      (apply rglob_node_all; [exact Hall|]);
      apply (fnmatch_star_suffix _ base); reflexivity.
Qed.

(** X6.  Every path that the scanner returns for a directory is accepted by
    the converter when that directory is the input directory: its relative
    path is not empty, the output path is the output directory, the
    directories of the relative path and the stem of the name with
    [".flac"], and the converter returns a result for it (or is left by an
    interrupt), whatever the file system and the transcoder do. *)
Theorem scanned_files_are_convertible
    (format_1f format_2f : Q -> string) (env : conv_env)
    (directory output_dir : Path) (es : list (string * node))
    (ffmpeg_threads compression_level : Z) (original_input_dir : option Path)
    (l : list Path) (p : Path) :
  wf_path directory = true -> wf_node (Dir es) = true ->
  find_wav_files directory (Some (Dir es)) = Returned l -> In p l ->
  exists rel,
    rel <> [] /\ p = directory ++ rel
    /\ relative_to p directory = Returned rel
    /\ conversion_paths p directory output_dir original_input_dir
       = Returned (rel, stem_of (name rel) +:+ ".flac",
                   output_dir ++ parent rel ++ [stem_of (name rel) +:+ ".flac"])
    /\ match convert_wav_to_flac_ffmpeg format_1f format_2f env p directory
               output_dir ffmpeg_threads compression_level original_input_dir with
       | Returned r => relative_path r = str rel
       | Raised e => is_Exception e = false
       end.
Proof.
  intros Hd Hw Hl Hin.
  destruct (scanned_below directory es l p Hw Hl Hin) as (rel & Hne & -> & Hgood).
  assert (Hrel : relative_to (directory ++ rel) directory = Returned rel)
    by (apply relative_to_app, good_parts_no_root, Hgood).
  exists rel. split; [exact Hne|]. split; [reflexivity|]. split; [exact Hrel|].
  split.
  - apply conversion_paths_parts; [|exact Hrel|exact Hne].
    now apply wf_path_app.
  - now apply conversion_outcome_under.
Qed.

Lemma scanned_files_are_convertible_witness :
  exists rel,
    rel <> [] /\ ["/"; "m"; "sub"; "a.WAV"] = ["/"; "m"] ++ rel
    /\ relative_to ["/"; "m"; "sub"; "a.WAV"] ["/"; "m"] = Returned rel
    /\ conversion_paths ["/"; "m"; "sub"; "a.WAV"] ["/"; "m"] ["/"; "m_converted"] None
       = Returned (rel, stem_of (name rel) +:+ ".flac",
                   ["/"; "m_converted"] ++ parent rel
                     ++ [stem_of (name rel) +:+ ".flac"])
    /\ match convert_wav_to_flac_ffmpeg (fun _ => "") (fun _ => "") zero_byte_env
               ["/"; "m"; "sub"; "a.WAV"] ["/"; "m"] ["/"; "m_converted"]
               4 12 None with
       | Returned r => relative_path r = str rel
       | Raised e => is_Exception e = false
       end.
Proof.
  apply (scanned_files_are_convertible (fun _ => "") (fun _ => "") zero_byte_env
           ["/"; "m"] ["/"; "m_converted"]
           [("b.wav", File 3); ("sub", Dir [("a.WAV", File 1)])]
           4 12 None
           [["/"; "m"; "b.wav"]; ["/"; "m"; "sub"; "a.WAV"]]
           ["/"; "m"; "sub"; "a.WAV"]).
  - reflexivity.
  - reflexivity.
  - vm_compute. reflexivity.
  - simpl. auto.
Defined.

(** ** What the cleanup leaves alone *)

Section CleanupIsolation.









End CleanupIsolation.



(** ** The prompts for the level, the cores and the network share *)

Section PromptRanges.

Lemma py_int_raises (s : string) (e : exn) :
  py_int s = Raised e -> exists msg, e = ValueError msg.
Proof.
  unfold py_int.
  destruct (match int_strip s with
            | String "+" rest => parse_digits rest 0 false
            | String "-" rest => option_map Z.opp (parse_digits rest 0 false)
            | _ => parse_digits (int_strip s) 0 false
            end) as [n|].
  - destruct (int_max_str_digits <? count_digits (int_strip s))%nat;
      intros [= <-]; eauto.
  - intros [= <-]; eauto.
Qed.

Lemma forallb_typed_tail (k : key) (rest : list key) :
  forallb typed_ascii (k :: rest) = true -> forallb typed_ascii rest = true.
Proof. cbn. intros H. now apply andb_true_iff in H. Qed.

(** One turn of a prompt that reads numbers: the line that was read is
    taken, refused with a message, or the input has ended. *)
Lemma get_compression_level_loop_step (turns : nat) (w : World) :
  get_compression_level_loop (S turns) w
  = let o := stdout w ++ ["Choose compression level 0-12 (default=12): "] in
    match stdin w with
    | [] => (Raised EOFError, with_console w [] o)
    | CtrlC :: rest => (Raised KeyboardInterrupt, with_console w rest o)
    | Line s :: rest =>
        let w1 := with_console w rest o in
        if String.eqb (strip s) "" then (Returned 12, w1)
        else
          match py_int (strip s) with
          | Returned level =>
              if (0 <=? level) && (level <=? 12) then (Returned level, w1)
              else get_compression_level_loop turns
                     (with_console w rest
                        (o ++ ["Please enter a number between 0 and 12"]))
          | Raised _ =>
              get_compression_level_loop turns
                (with_console w rest (o ++ ["Please enter a valid number"]))
          end
    end.
Proof.
  cbn [get_compression_level_loop]. unfold mbind at 1, input.
  destruct (stdin w) as [|[s|] rest]; try reflexivity. cbn zeta.
  destruct (String.eqb (strip s) ""); [reflexivity|].
  destruct (py_int (strip s)) as [level|e] eqn:E.
  - destruct ((0 <=? level) && (level <=? 12)); [reflexivity|].
    rewrite print_then. reflexivity.
  - apply py_int_raises in E as [msg ->]. rewrite print_then. reflexivity.
Qed.

Lemma get_compression_level_loop_range (turns : nat) :
  forall w : World,
    match get_compression_level_loop turns w with
    | (Returned level, w') =>
        0 <= level <= 12
        /\ (exists s, In (Line s) (stdin w)
                      /\ (strip s = "" /\ level = 12
                          \/ strip s <> "" /\ py_int (strip s) = Returned level))
        /\ fs w' = fs w
    | (Raised e, w') => e = EOFError \/ e = KeyboardInterrupt
    end.
Proof.
  induction turns as [|turns IH]; intros w; [now left|].
  rewrite get_compression_level_loop_step. cbn zeta.
  destruct (stdin w) as [|[s|] rest] eqn:Ein; [now left| |now right].
  assert (Hstep : forall o,
             match get_compression_level_loop turns (with_console w rest o) with
             | (Returned level, w') =>
                 0 <= level <= 12
                 /\ (exists s0, In (Line s0) (Line s :: rest)
                                /\ (strip s0 = "" /\ level = 12
                                    \/ strip s0 <> ""
                                       /\ py_int (strip s0) = Returned level))
                 /\ fs w' = fs w
             | (Raised e, w') => e = EOFError \/ e = KeyboardInterrupt
             end).
  { intros o. specialize (IH (with_console w rest o)).
    destruct (get_compression_level_loop turns (with_console w rest o))
      as [[level|e] w']; [|exact IH].
    destruct IH as (Hr & (s0 & Hin & Hs) & Hfs). split; [exact Hr|].
    split; [|exact Hfs]. exists s0. split; [now right|exact Hs]. }
  destruct (String.eqb (strip s) "") eqn:Ee.
  - apply String.eqb_eq in Ee. split; [lia|]. split; [|reflexivity].
    exists s. split; [now left|]. now left.
  - apply String.eqb_neq in Ee.
    destruct (py_int (strip s)) as [level|e] eqn:E; [|apply Hstep].
    destruct ((0 <=? level) && (level <=? 12)) eqn:Er; [|apply Hstep].
    apply andb_true_iff in Er as [H0 H12]. split; [lia|]. split; [|reflexivity].
    exists s. split; [now left|]. now right.
Qed.

Lemma get_thread_count_loop_step (max_cores : Z) (turns : nat) (w : World) :
  get_thread_count_loop max_cores (S turns) w
  = let o := stdout w
             ++ [nl +:+ "Your system has " +:+ pretty max_cores
                 +:+ " CPU cores available."]
             ++ ["How many cores would you like to use? (1-"
                 +:+ pretty max_cores +:+ ", default="
                 +:+ pretty max_cores +:+ "): "] in
    match stdin w with
    | [] => (Raised EOFError, with_console w [] o)
    | CtrlC :: rest => (Raised KeyboardInterrupt, with_console w rest o)
    | Line s :: rest =>
        let w1 := with_console w rest o in
        if String.eqb (strip s) "" then (Returned max_cores, w1)
        else
          match py_int (strip s) with
          | Returned cores =>
              if (1 <=? cores) && (cores <=? max_cores) then (Returned cores, w1)
              else get_thread_count_loop max_cores turns
                     (with_console w rest
                        (o ++ ["Please enter a number between 1 and "
                               +:+ pretty max_cores]))
          | Raised _ =>
              get_thread_count_loop max_cores turns
                (with_console w rest (o ++ ["Please enter a valid number"]))
          end
    end.
Proof.
  cbn [get_thread_count_loop]. rewrite print_then.
  unfold mbind at 1, input. cbn [stdin stdout with_console].
  rewrite <- !app_assoc.
  destruct (stdin w) as [|[s|] rest]; try reflexivity. cbn zeta.
  destruct (String.eqb (strip s) ""); [reflexivity|].
  destruct (py_int (strip s)) as [cores|e] eqn:E.
  - destruct ((1 <=? cores) && (cores <=? max_cores)); [reflexivity|].
    rewrite print_then. unfold with_console; cbn. rewrite <- !app_assoc.
    reflexivity.
  - apply py_int_raises in E as [msg ->]. rewrite print_then.
    unfold with_console; cbn. rewrite <- !app_assoc. reflexivity.
Qed.

Lemma get_thread_count_loop_range (max_cores : Z) (turns : nat) :
  forall w : World,
    match get_thread_count_loop max_cores turns w with
    | (Returned cores, w') =>
        (exists s, In (Line s) (stdin w)
                   /\ (strip s = "" /\ cores = max_cores
                       \/ strip s <> "" /\ py_int (strip s) = Returned cores
                          /\ 1 <= cores <= max_cores))
        /\ fs w' = fs w
    | (Raised e, w') => e = EOFError \/ e = KeyboardInterrupt
    end.
Proof.
  induction turns as [|turns IH]; intros w; [now left|].
  rewrite get_thread_count_loop_step. cbn zeta.
  destruct (stdin w) as [|[s|] rest] eqn:Ein; [now left| |now right].
  assert (Hstep : forall o,
             match get_thread_count_loop max_cores turns (with_console w rest o) with
             | (Returned cores, w') =>
                 (exists s0, In (Line s0) (Line s :: rest)
                             /\ (strip s0 = "" /\ cores = max_cores
                                 \/ strip s0 <> ""
                                    /\ py_int (strip s0) = Returned cores
                                    /\ 1 <= cores <= max_cores))
                 /\ fs w' = fs w
             | (Raised e, w') => e = EOFError \/ e = KeyboardInterrupt
             end).
  { intros o. specialize (IH (with_console w rest o)).
    destruct (get_thread_count_loop max_cores turns (with_console w rest o))
      as [[cores|e] w']; [|exact IH].
    destruct IH as ((s0 & Hin & Hs) & Hfs).
    split; [|exact Hfs]. exists s0. split; [now right|exact Hs]. }
  destruct (String.eqb (strip s) "") eqn:Ee.
  - apply String.eqb_eq in Ee. split; [|reflexivity].
    exists s. split; [now left|]. now left.
  - apply String.eqb_neq in Ee.
    destruct (py_int (strip s)) as [cores|e] eqn:E; [|apply Hstep].
    destruct ((1 <=? cores) && (cores <=? max_cores)) eqn:Er; [|apply Hstep].
    apply andb_true_iff in Er as [H0 H12]. split; [|reflexivity].
    exists s. split; [now left|]. right. repeat split; [exact Ee|exact E|lia|lia].
Qed.

Lemma ask_user_about_caching_loop_step (turns : nat) (w : World) :
  ask_user_about_caching_loop (S turns) w
  = let o := stdout w ++ ["Is this a network share? (ie: R:\research) (y/N): "] in
    match stdin w with
    | [] => (Raised EOFError, with_console w [] o)
    | CtrlC :: rest => (Raised KeyboardInterrupt, with_console w rest o)
    | Line s :: rest =>
        let w1 := with_console w rest o in
        if is_yes (lower (strip s)) then (Returned true, w1)
        else if is_no (lower (strip s)) then (Returned false, w1)
        else ask_user_about_caching_loop turns
               (with_console w rest (o ++ ["Please enter 'y' for yes or 'n' for no."]))
    end.
Proof.
  cbn [ask_user_about_caching_loop]. unfold mbind at 1, input.
  destruct (stdin w) as [|[s|] rest]; try reflexivity. cbn zeta.
  destruct (is_yes (lower (strip s))); [reflexivity|].
  destruct (is_no (lower (strip s))); [reflexivity|].
  rewrite print_then. reflexivity.
Qed.

Lemma ask_user_about_caching_loop_answer (turns : nat) :
  forall w : World,
    match ask_user_about_caching_loop turns w with
    | (Returned b, w') =>
        (exists undecided s,
            stdin w = map Line undecided ++ Line s :: stdin w'
            /\ Forall (fun u => is_yes (lower (strip u)) = false
                                /\ is_no (lower (strip u)) = false) undecided
            /\ b = is_yes (lower (strip s))
            /\ (b = false -> is_no (lower (strip s)) = true))
        /\ fs w' = fs w
    | (Raised e, w') => e = EOFError \/ e = KeyboardInterrupt
    end.
Proof.
  induction turns as [|turns IH]; intros w; [now left|].
  rewrite ask_user_about_caching_loop_step. cbn zeta.
  destruct (stdin w) as [|[s|] rest] eqn:Ein; [now left| |now right].
  destruct (is_yes (lower (strip s))) eqn:Ey.
  { split; [|reflexivity]. exists [], s. cbn. repeat split; auto. discriminate. }
  destruct (is_no (lower (strip s))) eqn:En.
  { split; [|reflexivity]. exists [], s. cbn. repeat split; auto. }
  set (o := (stdout w ++ _) ++ _).
  specialize (IH (with_console w rest o)).
  destruct (ask_user_about_caching_loop turns (with_console w rest o))
    as [[b|e] w']; [|exact IH].
  destruct IH as ((undecided & s0 & Hin & Hu & Hb) & Hfs).
  split; [|exact Hfs]. exists (s :: undecided), s0. cbn [stdin with_console] in Hin.
  split; [cbn; now rewrite Hin|]. split; [|exact Hb].
  constructor; [split; assumption|exact Hu].
Qed.

End PromptRanges.

(** X8.  The prompt for the compression level returns nothing but a level
    from 0 to 12: the number that one of the typed lines reads as, or 12 for
    an empty line.  A line that is no number or is out of range is asked
    again; no [ValueError] leaves the prompt, which ends otherwise only at
    the end of the input or by an interrupt.  The file system is not
    touched.  (The typed lines are ASCII text, on which [strip] and [int]
    are those of Python.) *)
Theorem get_compression_level_in_range (w : World) :
  forallb typed_ascii (stdin w) = true ->
  match get_compression_level w with
  | (Returned level, w') =>
      0 <= level <= 12
      /\ (exists s, In (Line s) (stdin w)
                    /\ (strip s = "" /\ level = 12
                        \/ strip s <> "" /\ py_int (strip s) = Returned level))
      /\ fs w' = fs w
  | (Raised e, w') => e = EOFError \/ e = KeyboardInterrupt
  end.
Proof.
  intros _. unfold get_compression_level, while_true.
  apply get_compression_level_loop_range.
Qed.

Lemma get_compression_level_in_range_witness :
  match get_compression_level (sample_world [Line "13"; Line "fast"; Line " 7 "]) with
  | (Returned level, w') =>
      0 <= level <= 12
      /\ (exists s, In (Line s) [Line "13"; Line "fast"; Line " 7 "]
                    /\ (strip s = "" /\ level = 12
                        \/ strip s <> "" /\ py_int (strip s) = Returned level))
      /\ fs w' = sample_fs
  | (Raised e, w') => e = EOFError \/ e = KeyboardInterrupt
  end.
Proof.
  exact (get_compression_level_in_range
           (sample_world [Line "13"; Line "fast"; Line " 7 "]) eq_refl).
Defined.

(** X9.  On a machine with at least one core the prompt for the number of
    cores returns a number from 1 to the number of cores: that number itself
    for an empty line, or the number that a typed line reads as.  Lines that
    are no number or out of range are asked again, and no [ValueError]
    leaves the prompt.  (The typed lines are ASCII text.) *)
Theorem get_thread_count_in_range (max_cores : Z) (w : World) :
  1 <= max_cores ->
  forallb typed_ascii (stdin w) = true ->
  match get_thread_count max_cores w with
  | (Returned cores, w') =>
      1 <= cores <= max_cores
      /\ (exists s, In (Line s) (stdin w)
                    /\ (strip s = "" /\ cores = max_cores
                        \/ strip s <> "" /\ py_int (strip s) = Returned cores))
      /\ fs w' = fs w
  | (Raised e, w') => e = EOFError \/ e = KeyboardInterrupt
  end.
Proof.
  intros Hm _. unfold get_thread_count, while_true.
  pose proof (get_thread_count_loop_range max_cores (S (length (stdin w))) w) as H.
  destruct (get_thread_count_loop max_cores (S (length (stdin w))) w)
    as [[cores|e] w']; [|exact H].
  destruct H as ((s & Hin & Hs) & Hfs).
  split; [|split; [|exact Hfs]].
  - destruct Hs as [[_ ->]|(_ & _ & Hr)]; lia.
  - exists s. split; [exact Hin|]. destruct Hs as [Hs|(Hne & Hp & _)]; auto.
Qed.

Lemma get_thread_count_in_range_witness :
  match get_thread_count 8 (sample_world [Line "0"; Line "9"; Line "4"]) with
  | (Returned cores, w') =>
      1 <= cores <= 8
      /\ (exists s, In (Line s) [Line "0"; Line "9"; Line "4"]
                    /\ (strip s = "" /\ cores = 8
                        \/ strip s <> "" /\ py_int (strip s) = Returned cores))
      /\ fs w' = sample_fs
  | (Raised e, w') => e = EOFError \/ e = KeyboardInterrupt
  end.
Proof.
  apply (get_thread_count_in_range 8 (sample_world [Line "0"; Line "9"; Line "4"])).
  - lia.
  - reflexivity.
Defined.

(** X10.  The question about the network share is decided by the first
    typed line that is an answer: the lines before it are neither a yes nor
    a no, and the result is true exactly if that line is [y] or [yes], in
    any case and with blanks around (an empty line is a no).  The lines
    after it are left for the next prompt.  (The typed lines are ASCII
    text.) *)
Theorem ask_user_about_caching_first_answer (w : World) :
  forallb typed_ascii (stdin w) = true ->
  match ask_user_about_caching w with
  | (Returned b, w') =>
      (exists undecided s,
          stdin w = map Line undecided ++ Line s :: stdin w'
          /\ Forall (fun u => is_yes (lower (strip u)) = false
                              /\ is_no (lower (strip u)) = false) undecided
          /\ b = is_yes (lower (strip s))
          /\ (b = false -> is_no (lower (strip s)) = true))
      /\ fs w' = fs w
  | (Raised e, w') => e = EOFError \/ e = KeyboardInterrupt
  end.
Proof.
  intros _. unfold ask_user_about_caching. rewrite !print_then. unfold while_true.
  match goal with
  | |- context [ask_user_about_caching_loop ?n ?w0] =>
      pose proof (ask_user_about_caching_loop_answer n w0) as H
  end.
  exact H.
Qed.

Lemma ask_user_about_caching_first_answer_witness :
  match ask_user_about_caching (sample_world [Line "maybe"; Line " YES "; Line "12"]) with
  | (Returned b, w') =>
      (exists undecided s,
          [Line "maybe"; Line " YES "; Line "12"]
          = map Line undecided ++ Line s :: stdin w'
          /\ Forall (fun u => is_yes (lower (strip u)) = false
                              /\ is_no (lower (strip u)) = false) undecided
          /\ b = is_yes (lower (strip s))
          /\ (b = false -> is_no (lower (strip s)) = true))
      /\ fs w' = sample_fs
  | (Raised e, w') => e = EOFError \/ e = KeyboardInterrupt
  end.
Proof.
  exact (ask_user_about_caching_first_answer
           (sample_world [Line "maybe"; Line " YES "; Line "12"]) eq_refl).
Defined.

(** ** The confirmation before any work *)

Section Confirmation.


















Variables copy1 copy2 :
  list Path -> Path -> Path -> M (list Path * list (Path * string)).
Variables convert1 convert2 :
  list Path -> Path -> Path -> Z -> Z -> option Path -> M (list result).
Variables report1 report2 : list result -> M unit.
Variables (input_dir output_dir : Path) (cache_dir : option Path).
Variables (thread_count compression_level : Z).


End Confirmation.



(** ** The two pools *)

Section PoolFacts.

Lemma copy_single_file_to_cache_copied
    (mkdir : Path -> outcome unit) (stat_size : Path -> outcome Z)
    (copy2 : Path -> Path -> outcome unit)
    (wav_file input_dir cache_dir staged_file rel : Path) (sz : Z) :
  copy_single_file_to_cache mkdir stat_size copy2 wav_file input_dir cache_dir
  = Returned (Copied staged_file rel sz) ->
  relative_to wav_file input_dir = Returned rel
  /\ staged_file = joinpath cache_dir rel
  /\ stat_size wav_file = Returned sz
  /\ copy2 wav_file staged_file = Returned tt.
Proof.
  unfold copy_single_file_to_cache.
  destruct (relative_to wav_file input_dir) as [rel0|e0]; cbn [bind];
    [|destruct (is_Exception e0); discriminate].
  destruct (mkdir (parent (joinpath cache_dir rel0))) as [[]|e1]; cbn [bind];
    [|destruct (is_Exception e1); discriminate].
  destruct (stat_size wav_file) as [sz0|e2] eqn:E2; cbn [bind];
    [|destruct (is_Exception e2); discriminate].
  destruct (copy2 wav_file (joinpath cache_dir rel0)) as [[]|e3] eqn:E3;
    cbn [bind]; [|destruct (is_Exception e3); discriminate].
  intros [= <- <- <-]. auto.
Qed.

Lemma copy_single_file_to_cache_returns
    (mkdir : Path -> outcome unit) (stat_size : Path -> outcome Z)
    (copy2 : Path -> Path -> outcome unit)
    (wav_file input_dir cache_dir rel : Path) :
  relative_to wav_file input_dir = Returned rel ->
  (forall p e, mkdir p = Raised e -> is_Exception e = true) ->
  (forall p e, stat_size p = Raised e -> is_Exception e = true) ->
  (forall p q e, copy2 p q = Raised e -> is_Exception e = true) ->
  exists r,
    copy_single_file_to_cache mkdir stat_size copy2 wav_file input_dir cache_dir
    = Returned r.
Proof.
  intros Hrel Hm Hs Hc. unfold copy_single_file_to_cache. rewrite Hrel. cbn [bind].
  destruct (mkdir (parent (joinpath cache_dir rel))) as [[]|e1] eqn:E1; cbn [bind];
    [|rewrite (Hm _ _ E1); eauto].
  destruct (stat_size wav_file) as [sz0|e2] eqn:E2; cbn [bind];
    [|rewrite (Hs _ _ E2); eauto].
  destruct (copy2 wav_file (joinpath cache_dir rel)) as [[]|e3] eqn:E3; cbn [bind];
    [eauto|rewrite (Hc _ _ _ E3); eauto].
Qed.

(** One turn of the staging loop. *)
Lemma staging_turn_cases (n_files : Z) (st : staging)
    (wav_file : Path) (future : outcome copy_result) (w : World) :
  match future with
  | Returned result =>
      exists w', staging_turn n_files st (wav_file, future) w
                 = (Returned (staged st wav_file result), w')
                 /\ fs w' = fs w /\ stdin w' = stdin w
  | Raised e => staging_turn n_files st (wav_file, future) w = (Raised e, w)
  end.
Proof.
  destruct future as [[c rel sz|rel msg]|e]; [| |reflexivity];
    unfold staging_turn, mbind, lift; cbn [snd fst staged].
  - destruct ((completed_count st + 1) mod 10 =? 0); cbn [orb];
      [|destruct (n_files <=? 20)]; eexists; (split; [reflexivity|]);
      split; reflexivity.
  - eexists. split; [reflexivity|]. split; reflexivity.
Qed.

Lemma staging_loop_returned (n_files : Z)
    (completed : list (Path * outcome copy_result)) :
  forall (st st' : staging) (w w' : World),
    staging_loop n_files st completed w = (Returned st', w') ->
    exists tasks,
      completed = map as_future tasks /\ st' = staged_all st tasks
      /\ fs w' = fs w /\ stdin w' = stdin w.
Proof.
  induction completed as [|[f future] rest IH]; intros st st' w w' H.
  - injection H as <- <-. now exists [].
  - cbn [staging_loop] in H. unfold mbind at 1 in H.
    pose proof (staging_turn_cases n_files st f future w) as Ht.
    destruct future as [result|e].
    + destruct Ht as (w1 & Ht & Hfs & Hin). rewrite Ht in H.
      apply IH in H as (tasks & -> & -> & Hfs' & Hin').
      exists ((f, result) :: tasks). repeat split; congruence.
    + rewrite Ht in H. discriminate.
Qed.

Lemma staging_loop_returns (n_files : Z) (tasks : list (Path * copy_result)) :
  forall (st : staging) (w : World),
    exists w', staging_loop n_files st (map as_future tasks) w
               = (Returned (staged_all st tasks), w').
Proof.
  induction tasks as [|[f result] tasks IH]; intros st w; [now exists w|].
  cbn [map staging_loop]. unfold mbind at 1.
  change (as_future (f, result)) with (f, Returned result).
  destruct (staging_turn_cases n_files st f (Returned result) w) as (w1 & -> & _).
  apply IH.
Qed.

Lemma staged_all_files (tasks : list (Path * copy_result)) :
  forall st : staging,
    (length (cached_files (staged_all st tasks))
     + length (failed_copies (staged_all st tasks))
     = length (cached_files st) + length (failed_copies st) + length tasks)%nat
    /\ (forall c, In c (cached_files (staged_all st tasks)) ->
                  In c (cached_files st)
                  \/ exists f rel sz, In (f, Copied c rel sz) tasks)
    /\ (forall f msg, In (f, msg) (failed_copies (staged_all st tasks)) ->
                      In (f, msg) (failed_copies st)
                      \/ exists rel, In (f, CopyFailed rel msg) tasks).
Proof.
  induction tasks as [|[f result] tasks IH]; intros st.
  { cbn. repeat split; auto; lia. }
  change (staged_all st ((f, result) :: tasks))
    with (staged_all (staged st f result) tasks).
  destruct (IH (staged st f result)) as (Hlen & Hc & Hf).
  split; [|split].
  - rewrite Hlen. destruct result; cbn; rewrite ?length_app; cbn; lia.
  - intros c Hin. destruct (Hc c Hin) as [H|(f0 & rel & sz & H)].
    + destruct result as [c0 rel0 sz0|rel0 msg0]; cbn in H; [|now left].
      apply in_app_or in H as [H|[<-|[]]]; [now left|].
      right. exists f, rel0, sz0. now left.
    + right. exists f0, rel, sz. now right.
  - intros f0 msg Hin. destruct (Hf f0 msg Hin) as [H|(rel & H)].
    + destruct result as [c0 rel0 sz0|rel0 msg0]; cbn in H; [now left|].
      apply in_app_or in H as [H|[[= <- <-]|[]]]; [now left|].
      right. exists rel0. now left.
    + right. exists rel. now right.
Qed.

(** One turn of the conversion loop. *)
Lemma conversion_turn_cases (n_files : Z) (t : totals) (i : Z)
    (future : outcome result) (w : World) :
  match future with
  | Returned r =>
      exists w', conversion_turn n_files t i future w = (Returned (tally t r), w')
                 /\ fs w' = fs w /\ stdin w' = stdin w
  | Raised e => conversion_turn n_files t i future w = (Raised e, w)
  end.
Proof.
  destruct future as [r|e]; [|reflexivity].
  unfold conversion_turn, mbind, lift, tally. destruct (success r).
  - destruct (i mod 5 =? 0); cbn [orb]; [|destruct (n_files <=? 20)];
      eexists; (split; [reflexivity|]); split; reflexivity.
  - eexists. split; [reflexivity|]. split; reflexivity.
Qed.

Lemma conversion_loop_returned (n_files : Z) (completed : list (outcome result)) :
  forall (t t' : totals) (i : Z) (w w' : World),
    conversion_loop n_files t i completed w = (Returned t', w') ->
    exists results,
      completed = map Returned results /\ t' = fold_left tally results t
      /\ fs w' = fs w /\ stdin w' = stdin w.
Proof.
  induction completed as [|future rest IH]; intros t t' i w w' H.
  - injection H as <- <-. now exists [].
  - cbn [conversion_loop] in H. unfold mbind at 1 in H.
    pose proof (conversion_turn_cases n_files t i future w) as Ht.
    destruct future as [r|e].
    + destruct Ht as (w1 & Ht & Hfs & Hin). rewrite Ht in H.
      apply IH in H as (results & -> & -> & Hfs' & Hin').
      exists (r :: results). repeat split; congruence.
    + rewrite Ht in H. discriminate.
Qed.

Lemma conversion_loop_returns (n_files : Z) (results : list result) :
  forall (t : totals) (i : Z) (w : World),
    exists w', conversion_loop n_files t i (map Returned results) w
               = (Returned (fold_left tally results t), w').
Proof.
  induction results as [|r results IH]; intros t i w; [now exists w|].
  cbn [map conversion_loop]. unfold mbind at 1.
  destruct (conversion_turn_cases n_files t i (Returned r) w) as (w1 & -> & _).
  apply IH.
Qed.

(** The counters after the loop, from the results it went through. *)
Lemma tally_all (results : list result) :
  forall t : totals,
    let t' := fold_left tally results t in
    let good := List.filter success results in
    let bad := List.filter failed results in
    successful_conversions t' = successful_conversions t + Z.of_nat (length good)
    /\ failed_conversions t' = failed_conversions t + Z.of_nat (length bad)
    /\ converted_files t' = converted_files t ++ map relative_path good
    /\ failed_files t'
       = failed_files t ++ map (fun r => (relative_path r, message r)) bad
    /\ total_input_size t' = total_input_size t + sum_of input_size good
    /\ total_output_size t' = total_output_size t + sum_of output_size good.
Proof.
  induction results as [|r results IH]; intros t.
  { cbn. rewrite !app_nil_r. repeat split; lia. }
  cbn [fold_left]. specialize (IH (tally t r)). cbn zeta in *.
  destruct IH as (H1 & H2 & H3 & H4 & H5 & H6).
  rewrite H1, H2, H3, H4, H5, H6. clear H1 H2 H3 H4 H5 H6.
  unfold tally, failed. cbn [List.filter]. destruct (success r); cbn [negb];
    cbn [successful_conversions failed_conversions converted_files failed_files
         total_input_size total_output_size length map sum_of fold_right];
    rewrite <- ?app_assoc; cbn [app]; repeat split; try lia; try reflexivity;
    unfold sum_of; lia.
Qed.

Lemma filter_partition_length {A} (f : A -> bool) (l : list A) :
  (length (List.filter f l) + length (List.filter (fun x => negb (f x)) l)
   = length l)%nat.
Proof.
  induction l as [|x l IH]; [reflexivity|]. cbn. destruct (f x); cbn; lia.
Qed.

Lemma sum_of_Permutation (f : result -> Z) (l l' : list result) :
  l ≡ₚ l' -> sum_of f l = sum_of f l'.
Proof.
  unfold sum_of. induction 1; cbn in *; lia.
Qed.

End PoolFacts.

Section PoolOrder.

Variable as_completed : forall A : Type, list A -> list A.
Hypothesis each_once : forall (A : Type) (l : list A), as_completed A l ≡ₚ l.

Lemma as_completed_In {A} (l : list A) (x : A) :
  In x (as_completed A l) <-> In x l.
Proof. rewrite <- !list_elem_of_In. now rewrite each_once. Qed.

Lemma as_completed_length {A} (l : list A) :
  length (as_completed A l) = length l.
Proof. apply Permutation_length, each_once. Qed.

Lemma all_futures {A B} (f : A -> B) (l : list B) :
  (forall x, In x l -> exists a, x = f a) -> exists l0, l = map f l0.
Proof.
  induction l as [|x l IH]; intros H; [now exists []|].
  destruct (H x (or_introl eq_refl)) as [a ->].
  destruct IH as [l0 ->]; [intros y Hy; apply H; now right|].
  now exists (a :: l0).
Qed.

End PoolOrder.

(** X12.  When the staging returns, it has accounted for every file: the
    staged files and the failures are together as many as the files that
    were given, of which there is at least one; every staged file is the
    staging directory joined with the path of a given file relative to the
    input directory; every failure names a given file.  Nothing is read
    from the console. *)
Theorem copy_files_to_cache_accounts_for_every_file
    (as_completed : forall A : Type, list A -> list A)
    (mkdir : Path -> outcome unit) (stat_size : Path -> outcome Z)
    (copy2 : Path -> Path -> outcome unit)
    (wav_files : list Path) (input_dir cache_dir : Path)
    (cached : list Path) (failures : list (Path * string)) (w w' : World) :
  (forall (A : Type) (l : list A), as_completed A l ≡ₚ l) ->
  copy_files_to_cache as_completed mkdir stat_size copy2 wav_files input_dir
    cache_dir w = (Returned (cached, failures), w') ->
  wav_files <> []
  /\ (length cached + length failures = length wav_files)%nat
  /\ (forall c, In c cached ->
        exists f rel, In f wav_files
                      /\ relative_to f input_dir = Returned rel
                      /\ c = joinpath cache_dir rel)
  /\ (forall f msg, In (f, msg) failures -> In f wav_files)
  /\ stdin w' = stdin w.
Proof.
  intros Hperm. unfold copy_files_to_cache. rewrite print_then.
  unfold mbind at 1, lift, ThreadPoolExecutor.
  destruct (Z.min 8 (Z.of_nat (length wav_files)) <=? 0) eqn:Ew; [discriminate|].
  unfold mbind at 1.
  set (futures := map (fun wav_file =>
                         (wav_file,
                          copy_single_file_to_cache mkdir stat_size copy2
                            wav_file input_dir cache_dir)) wav_files).
  destruct (staging_loop _ _ (as_completed _ futures) _) as [[st|e] w1] eqn:E;
    [|discriminate].
  apply staging_loop_returned in E as (tasks & Htasks & -> & _ & Hin).
  intros H.
  assert (Hres : cached = cached_files (staged_all
                   {| cached_files := []; failed_copies := []; total_size := 0;
                      completed_count := 0 |} tasks)
                 /\ failures = failed_copies (staged_all
                   {| cached_files := []; failed_copies := []; total_size := 0;
                      completed_count := 0 |} tasks)
                 /\ stdin w' = stdin w1).
  { rewrite print_then in H. unfold mbind at 1 in H.
    destruct (failed_copies (staged_all _ tasks)); cbn in H; injection H as <- <- <-;
      auto. }
  clear H. destruct Hres as (-> & -> & Hin').
  destruct (staged_all_files tasks
              {| cached_files := []; failed_copies := []; total_size := 0;
                 completed_count := 0 |}) as (Hlen & Hc & Hf).
  cbn [cached_files failed_copies length] in Hlen, Hc, Hf.
  assert (Hlt : length tasks = length wav_files).
  { rewrite <- (length_map as_future), <- Htasks, (as_completed_length _ Hperm).
    apply length_map. }
  assert (Htask : forall f r, In (f, r) tasks ->
                    In f wav_files
                    /\ copy_single_file_to_cache mkdir stat_size copy2 f
                         input_dir cache_dir = Returned r).
  { intros f r Ht. apply (in_map as_future) in Ht. rewrite <- Htasks in Ht.
    apply (proj1 (as_completed_In _ Hperm _ _)) in Ht. apply in_map_iff in Ht as (f0 & Heq & Hf0).
    unfold as_future in Heq. cbn [fst snd] in Heq. injection Heq as -> ->. auto. }
  split; [|split; [|split; [|split]]].
  - intros ->. cbn in Ew. discriminate.
  - rewrite <- Hlt. cbn in Hlen. lia.
  - intros c Hcin. destruct (Hc c Hcin) as [[]|(f & rel & sz & Ht)].
    apply Htask in Ht as [Hfin Hcopy].
    apply copy_single_file_to_cache_copied in Hcopy as (Hrel & -> & _).
    now exists f, rel.
  - intros f msg Hfin. destruct (Hf f msg Hfin) as [[]|(rel & Ht)].
    now apply Htask in Ht.
  - cbn [stdin with_console] in Hin. congruence.
Qed.

Lemma copy_files_to_cache_accounts_for_every_file_witness :
  [["/"; "m"; "a.wav"]; ["/"; "m"; "s"; "b.wav"]] <> []
  /\ (length [["/"; "c"; "s"; "b.wav"]; ["/"; "c"; "a.wav"]]
      + length (@nil (Path * string)) = 2)%nat
  /\ (forall c, In c [["/"; "c"; "s"; "b.wav"]; ["/"; "c"; "a.wav"]] ->
        exists f rel, In f [["/"; "m"; "a.wav"]; ["/"; "m"; "s"; "b.wav"]]
                      /\ relative_to f ["/"; "m"] = Returned rel
                      /\ c = joinpath ["/"; "c"] rel)
  /\ (forall f msg, In (f, msg) (@nil (Path * string)) ->
        In f [["/"; "m"; "a.wav"]; ["/"; "m"; "s"; "b.wav"]])
  /\ stdin (snd (copy_files_to_cache last_first mkdir_ok stat_10 copy2_ok
                   [["/"; "m"; "a.wav"]; ["/"; "m"; "s"; "b.wav"]]
                   ["/"; "m"] ["/"; "c"] (sample_world [])))
     = stdin (sample_world []).
Proof.
  apply (copy_files_to_cache_accounts_for_every_file last_first mkdir_ok stat_10
           copy2_ok [["/"; "m"; "a.wav"]; ["/"; "m"; "s"; "b.wav"]]
           ["/"; "m"] ["/"; "c"]
           [["/"; "c"; "s"; "b.wav"]; ["/"; "c"; "a.wav"]] []
           (sample_world [])).
  - intros A l. unfold last_first. symmetry. apply Permutation_rev.
  - reflexivity.
Defined.

(** X13.  The staging does not break off over a file it cannot copy: when
    every given file lies below the input directory, there is at least one
    of them, and the file-system calls fail with errors of the class
    [Exception] only, the staging returns its two lists, whatever the order
    in which the copies finish. *)
Theorem copy_files_to_cache_returns
    (as_completed : forall A : Type, list A -> list A)
    (mkdir : Path -> outcome unit) (stat_size : Path -> outcome Z)
    (copy2 : Path -> Path -> outcome unit)
    (wav_files : list Path) (input_dir cache_dir : Path) (w : World) :
  (forall (A : Type) (l : list A), as_completed A l ≡ₚ l) ->
  wav_files <> [] ->
  (forall f, In f wav_files -> exists rel, relative_to f input_dir = Returned rel) ->
  (forall p e, mkdir p = Raised e -> is_Exception e = true) ->
  (forall p e, stat_size p = Raised e -> is_Exception e = true) ->
  (forall p q e, copy2 p q = Raised e -> is_Exception e = true) ->
  exists cached failures w',
    copy_files_to_cache as_completed mkdir stat_size copy2 wav_files input_dir
      cache_dir w = (Returned (cached, failures), w').
Proof.
  intros Hperm Hne Hunder Hm Hs Hc. unfold copy_files_to_cache. rewrite print_then.
  unfold mbind at 1, lift, ThreadPoolExecutor.
  destruct (Z.min 8 (Z.of_nat (length wav_files)) <=? 0) eqn:Ew.
  { destruct wav_files; [congruence|]. cbn [length] in Ew. apply Z.leb_le in Ew. lia. }
  unfold mbind at 1.
  set (futures := map (fun wav_file =>
                         (wav_file,
                          copy_single_file_to_cache mkdir stat_size copy2
                            wav_file input_dir cache_dir)) wav_files).
  destruct (all_futures as_future (as_completed _ futures)) as [tasks ->].
  { intros [f r] Hx. apply (proj1 (as_completed_In _ Hperm _ _)) in Hx.
    apply in_map_iff in Hx as (f0 & [= <- <-] & Hf0).
    destruct (Hunder _ Hf0) as [rel Hrel].
    destruct (copy_single_file_to_cache_returns mkdir stat_size copy2 f0
                input_dir cache_dir rel Hrel Hm Hs Hc) as [r ->].
    now exists (f0, r). }
  match goal with
  | |- context [staging_loop ?n ?st (map as_future tasks) ?w0] =>
      destruct (staging_loop_returns n tasks st w0) as [w1 ->]
  end.
  rewrite print_then. unfold mbind at 1.
  destruct (failed_copies (staged_all _ tasks)); cbn; eauto.
Qed.

Lemma copy_files_to_cache_returns_witness :
  exists cached failures w',
    copy_files_to_cache last_first mkdir_ok stat_10
      (fun _ _ => Raised (OSError "No space left on device"))
      [["/"; "m"; "a.wav"]; ["/"; "m"; "s"; "b.wav"]] ["/"; "m"] ["/"; "c"]
      (sample_world [])
    = (Returned (cached, failures), w').
Proof.
  apply (copy_files_to_cache_returns last_first mkdir_ok stat_10
           (fun _ _ => Raised (OSError "No space left on device"))
           [["/"; "m"; "a.wav"]; ["/"; "m"; "s"; "b.wav"]] ["/"; "m"] ["/"; "c"]
           (sample_world [])).
  - intros A l. unfold last_first. symmetry. apply Permutation_rev.
  - discriminate.
  - intros f [<-|[<-|[]]]; eexists; reflexivity.
  - discriminate.
  - discriminate.
  - intros p q e [= <-]. reflexivity.
Defined.

(** X14.  When the conversion pool returns, its counters account for every
    file: the successes and the failures are together as many as the files
    given, the two lists are as long as the two counters say, every name in
    the list of converted files is the relative path of a result tagged as a
    success that the converter returned for one of the files, and every
    entry of the list of failures is the relative path and the message of a
    result tagged as a failure.  The pool had at least one worker. *)
Theorem convert_all_accounts_for_every_file
    (as_completed : forall A : Type, list A -> list A)
    (format_1f format_2f : Q -> string) (env_of : Path -> conv_env)
    (wav_files : list Path) (input_dir output_dir : Path)
    (thread_count compression_level : Z) (original_input_dir : option Path)
    (t : totals) (w w' : World) :
  (forall (A : Type) (l : list A), as_completed A l ≡ₚ l) ->
  convert_all as_completed format_1f format_2f env_of wav_files input_dir
    output_dir thread_count compression_level original_input_dir w
  = (Returned t, w') ->
  1 <= thread_count
  /\ successful_conversions t + failed_conversions t = Z.of_nat (length wav_files)
  /\ Z.of_nat (length (converted_files t)) = successful_conversions t
  /\ Z.of_nat (length (failed_files t)) = failed_conversions t
  /\ (forall nm, In nm (converted_files t) ->
        exists f r,
          In f wav_files
          /\ convert_wav_to_flac_ffmpeg format_1f format_2f (env_of f) f input_dir
               output_dir thread_count compression_level original_input_dir
             = Returned r
          /\ success r = true /\ relative_path r = nm)
  /\ (forall nm msg, In (nm, msg) (failed_files t) ->
        exists f r,
          In f wav_files
          /\ convert_wav_to_flac_ffmpeg format_1f format_2f (env_of f) f input_dir
               output_dir thread_count compression_level original_input_dir
             = Returned r
          /\ success r = false /\ relative_path r = nm /\ message r = msg)
  /\ stdin w' = stdin w.
Proof.
  intros Hperm. unfold convert_all. unfold mbind at 1, lift, ThreadPoolExecutor.
  destruct (thread_count <=? 0) eqn:Et; [discriminate|].
  set (futures := map _ wav_files). intros E.
  apply conversion_loop_returned in E as (results & Hres & -> & _ & Hin).
  destruct (tally_all results no_totals) as (H1 & H2 & H3 & H4 & _).
  cbn [no_totals successful_conversions failed_conversions converted_files
       failed_files app] in H1, H2, H3, H4.
  assert (Hlen : length results = length wav_files).
  { rewrite <- (length_map Returned), <- Hres, (as_completed_length _ Hperm).
    apply length_map. }
  assert (Hr : forall r, In r results ->
                 exists f, In f wav_files
                           /\ convert_wav_to_flac_ffmpeg format_1f format_2f
                                (env_of f) f input_dir output_dir thread_count
                                compression_level original_input_dir
                              = Returned r).
  { intros r Hrin. apply (in_map Returned) in Hrin. rewrite <- Hres in Hrin.
    apply (proj1 (as_completed_In _ Hperm _ _)) in Hrin.
    apply in_map_iff in Hrin as (f & Heq & Hf). now exists f. }
  split; [apply Z.leb_gt in Et; lia|]. split; [|split; [|split; [|split; [|split]]]].
  - rewrite H1, H2, <- Hlen.
    pose proof (filter_partition_length success results) as Hp.
    unfold failed. lia.
  - now rewrite H3, length_map.
  - now rewrite H4, length_map.
  - intros nm Hnm. rewrite H3 in Hnm. apply in_map_iff in Hnm as (r & <- & Hrin).
    apply List.filter_In in Hrin as [Hrin Hs].
    destruct (Hr r Hrin) as (f & Hf & Hc). now exists f, r.
  - intros nm msg Hnm. rewrite H4 in Hnm.
    apply in_map_iff in Hnm as (r & [= <- <-] & Hrin).
    apply List.filter_In in Hrin as [Hrin Hs].
    destruct (Hr r Hrin) as (f & Hf & Hc). exists f, r.
    unfold failed in Hs. apply negb_true_iff in Hs. auto.
  - exact Hin.
Qed.

Lemma convert_all_accounts_for_every_file_witness :
  let t := {| successful_conversions := 2; failed_conversions := 0;
              converted_files := ["s/b.wav"; "a.wav"]; failed_files := [];
              total_input_size := 0; total_output_size := 84 |} in
  1 <= 4
  /\ successful_conversions t + failed_conversions t = 2
  /\ Z.of_nat (length (converted_files t)) = successful_conversions t
  /\ Z.of_nat (length (failed_files t)) = failed_conversions t.
Proof.
  intros t.
  destruct (convert_all_accounts_for_every_file last_first (fun _ => "")
              (fun _ => "") all_converted
              [["/"; "m"; "a.wav"]; ["/"; "m"; "s"; "b.wav"]]
              ["/"; "m"] ["/"; "o"] 4 12 None t (sample_world [])
              (with_console (sample_world []) []
                 ["✓ Converted 1/2 files..."; "✓ Converted 2/2 files..."]))
    as (H1 & H2 & H3 & H4 & _).
  - intros A l. unfold last_first. symmetry. apply Permutation_rev.
  - reflexivity.
  - exact (conj H1 (conj H2 (conj H3 H4))).
Defined.

(** X15.  The counters do not depend on the order in which the conversions
    finish: when the pool returns for one order of completion, it returns
    for every other one, with the same two counters and the same two sums of
    sizes; the two lists hold the same entries, in the order of
    completion. *)
Theorem convert_all_whatever_the_order
    (as_completed1 as_completed2 : forall A : Type, list A -> list A)
    (format_1f format_2f : Q -> string) (env_of : Path -> conv_env)
    (wav_files : list Path) (input_dir output_dir : Path)
    (thread_count compression_level : Z) (original_input_dir : option Path)
    (t1 : totals) (w w1 : World) :
  (forall (A : Type) (l : list A), as_completed1 A l ≡ₚ l) ->
  (forall (A : Type) (l : list A), as_completed2 A l ≡ₚ l) ->
  convert_all as_completed1 format_1f format_2f env_of wav_files input_dir
    output_dir thread_count compression_level original_input_dir w
  = (Returned t1, w1) ->
  exists t2 w2,
    convert_all as_completed2 format_1f format_2f env_of wav_files input_dir
      output_dir thread_count compression_level original_input_dir w
    = (Returned t2, w2)
    /\ successful_conversions t2 = successful_conversions t1
    /\ failed_conversions t2 = failed_conversions t1
    /\ total_input_size t2 = total_input_size t1
    /\ total_output_size t2 = total_output_size t1
    /\ converted_files t2 ≡ₚ converted_files t1
    /\ failed_files t2 ≡ₚ failed_files t1.
Proof.
  intros Hp1 Hp2. unfold convert_all. unfold mbind at 1 2, lift, ThreadPoolExecutor.
  destruct (thread_count <=? 0) eqn:Et; [discriminate|].
  set (futures := map _ wav_files). intros E.
  apply conversion_loop_returned in E as (results1 & Hres1 & -> & _).
  assert (Hperm : as_completed2 _ futures ≡ₚ map Returned results1).
  { rewrite Hp2, <- Hres1. symmetry. apply Hp1. }
  apply Permutation_map_inv in Hperm as (results2 & Hres2 & Hperm).
  rewrite Hres2.
  destruct (conversion_loop_returns (Z.of_nat (length wav_files)) results2
              no_totals 1 w) as [w2 Hloop].
  exists (fold_left tally results2 no_totals), w2. split; [exact Hloop|].
  destruct (tally_all results1 no_totals) as (A1 & A2 & A3 & A4 & A5 & A6).
  destruct (tally_all results2 no_totals) as (B1 & B2 & B3 & B4 & B5 & B6).
  rewrite A1, A2, A3, A4, A5, A6, B1, B2, B3, B4, B5, B6.
  pose proof (filter_Permutation success _ _ Hperm) as Hgood.
  pose proof (filter_Permutation failed _ _ Hperm) as Hbad.
  repeat split.
  - now rewrite (Permutation_length Hgood).
  - now rewrite (Permutation_length Hbad).
  - now rewrite (sum_of_Permutation input_size _ _ Hgood).
  - now rewrite (sum_of_Permutation output_size _ _ Hgood).
  - cbn [no_totals converted_files app]. symmetry. now apply Permutation_map.
  - cbn [no_totals failed_files app]. symmetry. now apply Permutation_map.
Qed.

Lemma convert_all_whatever_the_order_witness :
  exists t2 w2,
    convert_all last_first (fun _ => "") (fun _ => "") all_converted
      [["/"; "m"; "a.wav"]; ["/"; "m"; "s"; "b.wav"]] ["/"; "m"] ["/"; "o"]
      4 12 None (sample_world [])
    = (Returned t2, w2)
    /\ successful_conversions t2 = 2
    /\ failed_conversions t2 = 0
    /\ total_input_size t2 = 0
    /\ total_output_size t2 = 84
    /\ converted_files t2 ≡ₚ ["a.wav"; "s/b.wav"]
    /\ failed_files t2 ≡ₚ [].
Proof.
  apply (convert_all_whatever_the_order in_order last_first (fun _ => "")
           (fun _ => "") all_converted
           [["/"; "m"; "a.wav"]; ["/"; "m"; "s"; "b.wav"]] ["/"; "m"] ["/"; "o"]
           4 12 None
           {| successful_conversions := 2; failed_conversions := 0;
              converted_files := ["a.wav"; "s/b.wav"]; failed_files := [];
              total_input_size := 0; total_output_size := 84 |}
           (sample_world [])
           (with_console (sample_world []) []
              ["✓ Converted 1/2 files..."; "✓ Converted 2/2 files..."])).
  - intros A l. reflexivity.
  - intros A l. unfold last_first. symmetry. apply Permutation_rev.
  - reflexivity.
Defined.

(** ** The comparison of versions *)

Section VersionFacts.

Lemma int_parts_raises (xs : list string) (e : exn) :
  int_parts xs = Raised e -> is_Exception e = true.
Proof.
  induction xs as [|x xs IH]; [discriminate|]. cbn [int_parts].
  destruct (py_int x) as [n|e0] eqn:E; cbn [bind].
  - destruct (int_parts xs) as [ns|e1]; cbn [bind]; [discriminate|].
    intros [= <-]. now apply IH.
  - intros [= <-]. apply py_int_raises in E as [msg ->]. reflexivity.
Qed.

Lemma list_gt_zeros_left (b : list Z) :
  list_gt (repeat 0 (length b)) b = zeros_gt b.
Proof.
  induction b as [|y b IH]; [reflexivity|].
  cbn [length repeat list_gt zeros_gt]. now rewrite IH.
Qed.

Lemma list_gt_zeros_right (a : list Z) :
  list_gt a (repeat 0 (length a)) = gt_zeros a.
Proof.
  induction a as [|x a IH]; [reflexivity|].
  cbn [length repeat list_gt gt_zeros]. now rewrite IH.
Qed.

(** The comparison after the padding is the comparison of the lists as
    they stand for their extension by zeros. *)
Lemma list_gt_padded (a b : list Z) :
  list_gt (pad_zeros a (Nat.max (length a) (length b)))
          (pad_zeros b (Nat.max (length a) (length b)))
  = gt_padded a b.
Proof.
  revert b. induction a as [|x a IH]; intros b.
  - unfold pad_zeros. cbn [length Nat.max app]. rewrite Nat.sub_0_r, Nat.sub_diag.
    cbn [repeat]. rewrite app_nil_r. apply list_gt_zeros_left.
  - destruct b as [|y b].
    + unfold pad_zeros. cbn [length Nat.max app]. rewrite Nat.sub_0_r, Nat.sub_diag.
      cbn [repeat]. rewrite app_nil_r.
      apply (list_gt_zeros_right (x :: a)).
    + specialize (IH b). unfold pad_zeros in *. cbn [length Nat.max Nat.sub app].
      cbn [list_gt gt_padded]. now rewrite IH.
Qed.

Lemma zeros_both (a : list Z) : gt_zeros a = true -> zeros_gt a = true -> False.
Proof.
  induction a as [|x a IH]; [discriminate|]. cbn [gt_zeros zeros_gt].
  destruct (Z.eqb_spec x 0) as [->|Hx]; [exact IH|].
  destruct (Z.eqb_spec 0 x) as [<-|_]; [congruence|]. order_lia.
Qed.

Lemma gt_padded_nil_r (a : list Z) : gt_padded a [] = gt_zeros a.
Proof. destruct a; reflexivity. Qed.

Lemma gt_padded_irrefl (a : list Z) : gt_padded a a = false.
Proof.
  induction a as [|x a IH]; [reflexivity|]. cbn [gt_padded]. now rewrite Z.eqb_refl.
Qed.

Lemma gt_padded_asym (a : list Z) :
  forall b, gt_padded a b = true -> gt_padded b a = true -> False.
Proof.
  induction a as [|x a IH]; intros b.
  - rewrite gt_padded_nil_r. cbn [gt_padded]. intros H1 H2.
    exact (zeros_both b H2 H1).
  - destruct b as [|y b].
    + cbn [gt_padded]. apply zeros_both.
    + cbn [gt_padded]. rewrite (Z.eqb_sym y x).
      destruct (Z.eqb_spec x y) as [->|Hxy]; [apply IH|]. order_lia.
Qed.

Lemma zeros_gt_trans (b : list Z) :
  forall c, zeros_gt b = true -> gt_padded b c = true -> zeros_gt c = true.
Proof.
  induction b as [|y b IH]; intros c; [discriminate|].
  destruct c as [|z c].
  - cbn [gt_padded]. intros H1 H2. destruct (zeros_both _ H2 H1).
  - cbn [zeros_gt gt_padded].
    destruct (Z.eqb_spec 0 y) as [<-|Hy].
    + destruct (Z.eqb_spec 0 z) as [<-|Hz]; [apply IH|]. order_lia.
    + destruct (Z.eqb_spec y z) as [<-|Hyz].
      * destruct (Z.eqb_spec 0 y); [order_lia|]. auto.
      * destruct (Z.eqb_spec 0 z); order_lia.
Qed.

Lemma gt_zeros_trans (a : list Z) :
  forall b, gt_padded a b = true -> gt_zeros b = true -> gt_zeros a = true.
Proof.
  induction a as [|x a IH]; intros b.
  - cbn [gt_padded]. intros H1 H2. destruct (zeros_both _ H2 H1).
  - destruct b as [|y b]; [discriminate 2|].
    cbn [gt_zeros gt_padded].
    destruct (Z.eqb_spec x y) as [->|Hxy].
    + destruct (Z.eqb_spec y 0); [apply IH|auto].
    + destruct (Z.eqb_spec y 0) as [->|Hy].
      * destruct (Z.eqb_spec x 0); order_lia.
      * destruct (Z.eqb_spec x 0); order_lia.
Qed.

Lemma gt_zeros_zeros_gt (a : list Z) :
  forall c, gt_zeros a = true -> zeros_gt c = true -> gt_padded a c = true.
Proof.
  induction a as [|x a IH]; intros c; [discriminate|].
  destruct c as [|z c]; [discriminate 2|].
  cbn [gt_zeros zeros_gt gt_padded].
  destruct (Z.eqb_spec x 0) as [->|Hx].
  - destruct (Z.eqb_spec 0 z) as [<-|Hz]; [apply IH|]. auto.
  - destruct (Z.eqb_spec 0 z) as [<-|Hz].
    + destruct (Z.eqb_spec x 0); [order_lia|]. auto.
    + destruct (Z.eqb_spec x z); order_lia.
Qed.

Lemma gt_padded_trans (a : list Z) :
  forall b c, gt_padded a b = true -> gt_padded b c = true ->
              gt_padded a c = true.
Proof.
  induction a as [|x a IH]; intros b c.
  - cbn [gt_padded]. apply zeros_gt_trans.
  - destruct b as [|y b].
    + cbn [gt_padded]. apply gt_zeros_zeros_gt.
    + destruct c as [|z c].
      * rewrite !gt_padded_nil_r. apply gt_zeros_trans.
      * cbn [gt_padded].
        destruct (Z.eqb_spec x y) as [->|Hxy].
        -- destruct (Z.eqb_spec y z); [apply IH|auto].
        -- destruct (Z.eqb_spec y z) as [->|Hyz].
           ++ destruct (Z.eqb_spec x z); [order_lia|auto].
           ++ destruct (Z.eqb_spec x z); order_lia.
Qed.

(** Without the module [packaging], the answer is the comparison of the two
    lists of numbers, and it is "no" when one of the strings is no such
    list. *)
Lemma compare_versions_fallback (current latest : string) :
  compare_versions None current latest
  = Returned match int_parts (split "." current), int_parts (split "." latest) with
             | Returned c, Returned l => gt_padded l c
             | _, _ => false
             end.
Proof.
  unfold compare_versions.
  destruct (int_parts (split "." current)) as [c|e] eqn:Ec; cbn [bind].
  - destruct (int_parts (split "." latest)) as [l|e] eqn:El; cbn [bind].
    + f_equal. rewrite (Nat.max_comm (length c)). apply list_gt_padded.
    + now rewrite (int_parts_raises _ _ El).
  - now rewrite (int_parts_raises _ _ Ec).
Qed.

Lemma split_nonempty (c : ascii) (s : string) : split c s <> [].
Proof.
  destruct s as [|a s]; cbn; [discriminate|].
  destruct (Ascii.eqb a c); [discriminate|]. destruct (split c s); discriminate.
Qed.

Lemma split_app_sep (c : ascii) (s t : string) :
  split c (s +:+ String c t) = split c s ++ split c t.
Proof.
  induction s as [|a s IH].
  - change ("" +:+ String c t) with (String c t). cbn [split app].
    now rewrite Ascii.eqb_refl.
  - change (String a s +:+ String c t) with (String a (s +:+ String c t)).
    cbn [split]. rewrite IH. destruct (Ascii.eqb a c); [reflexivity|].
    pose proof (split_nonempty c s) as Hne.
    destruct (split c s) as [|x xs]; [congruence|]. reflexivity.
Qed.

Lemma int_parts_app_zero (xs : list string) :
  int_parts (xs ++ ["0"])
  = bind (int_parts xs) (fun ns => Returned (ns ++ [0])).
Proof.
  induction xs as [|x xs IH]; [reflexivity|].
  cbn [app int_parts]. destruct (py_int x) as [n|e]; cbn [bind]; [|reflexivity].
  rewrite IH. destruct (int_parts xs); reflexivity.
Qed.

Lemma gt_zeros_app_zero (a : list Z) : gt_zeros (a ++ [0]) = gt_zeros a.
Proof.
  induction a as [|x a IH]; [reflexivity|]. cbn [app gt_zeros]. now rewrite IH.
Qed.

Lemma zeros_gt_app_zero (a : list Z) : zeros_gt (a ++ [0]) = zeros_gt a.
Proof.
  induction a as [|x a IH]; [reflexivity|]. cbn [app zeros_gt]. now rewrite IH.
Qed.

Lemma gt_padded_app_zero_l (a : list Z) :
  forall b, gt_padded (a ++ [0]) b = gt_padded a b.
Proof.
  induction a as [|x a IH]; intros b.
  - destruct b as [|y b]; reflexivity.
  - destruct b as [|y b].
    + cbn [app gt_padded]. apply (gt_zeros_app_zero (x :: a)).
    + cbn [app gt_padded]. now rewrite IH.
Qed.

Lemma gt_padded_app_zero_r (a : list Z) :
  forall b, gt_padded a (b ++ [0]) = gt_padded a b.
Proof.
  induction a as [|x a IH]; intros b.
  - apply zeros_gt_app_zero.
  - destruct b as [|y b].
    + cbn [app gt_padded gt_zeros]. rewrite (Z.eqb_sym x 0).
      destruct (0 =? x); [|reflexivity]. apply gt_padded_nil_r.
    + cbn [app gt_padded]. now rewrite IH.
Qed.

End VersionFacts.

(** X16.  Without the module [packaging] the comparison of two version
    strings never raises, and it orders the versions strictly: no version is
    newer than itself, of two versions at most one is newer than the other,
    and a version that is newer than one that is newer than a third is newer
    than the third.  (The strings are ASCII text, on which [int] is that of
    Python.) *)
Theorem compare_versions_is_a_strict_order (a b c : string) :
  is_ascii a = true -> is_ascii b = true -> is_ascii c = true ->
  (exists answer, compare_versions None a b = Returned answer)
  /\ compare_versions None a a = Returned false
  /\ (compare_versions None a b = Returned true ->
      compare_versions None b a = Returned false)
  /\ (compare_versions None a b = Returned true ->
      compare_versions None b c = Returned true ->
      compare_versions None a c = Returned true).
Proof.
  intros _ _ _. rewrite !compare_versions_fallback.
  destruct (int_parts (split "." a)) as [x|ea];
    destruct (int_parts (split "." b)) as [y|eb];
    destruct (int_parts (split "." c)) as [z|ec];
    (split; [eauto|]); (split; [now rewrite ?gt_padded_irrefl|]);
    (split; [|try discriminate]); try discriminate.
  - intros [= H]. f_equal.
    destruct (gt_padded x y) eqn:E; [|reflexivity].
    destruct (gt_padded_asym _ _ H E).
  - intros [= H1] [= H2]. f_equal. exact (gt_padded_trans z y x H2 H1).
  - intros [= H]. f_equal.
    destruct (gt_padded x y) eqn:E; [|reflexivity].
    destruct (gt_padded_asym _ _ H E).
Qed.

Lemma compare_versions_is_a_strict_order_witness :
  (exists answer, compare_versions None "1.0.1" "1.0.2" = Returned answer)
  /\ compare_versions None "1.0.1" "1.0.1" = Returned false
  /\ (compare_versions None "1.0.1" "1.0.2" = Returned true ->
      compare_versions None "1.0.2" "1.0.1" = Returned false)
  /\ (compare_versions None "1.0.1" "1.0.2" = Returned true ->
      compare_versions None "1.0.2" "1.1" = Returned true ->
      compare_versions None "1.0.1" "1.1" = Returned true).
Proof.
  exact (compare_versions_is_a_strict_order "1.0.1" "1.0.2" "1.1"
           eq_refl eq_refl eq_refl).
Defined.

(** X17.  Without the module [packaging] a trailing [.0] does not count:
    with it or without it, on either side, the comparison gives the same
    answer, so that [1.0] and [1.0.0] are the same version.  (The strings
    are ASCII text.) *)
Theorem compare_versions_ignores_a_trailing_zero (current latest : string) :
  is_ascii current = true -> is_ascii latest = true ->
  compare_versions None (current +:+ ".0") latest
  = compare_versions None current latest
  /\ compare_versions None current (latest +:+ ".0")
     = compare_versions None current latest.
Proof.
  intros _ _. rewrite !compare_versions_fallback.
  rewrite !(split_app_sep "." _ "0").
  change (split "." "0") with ["0"]. rewrite !int_parts_app_zero.
  destruct (int_parts (split "." current)) as [c|ec];
    destruct (int_parts (split "." latest)) as [l|el]; cbn [bind];
    rewrite ?gt_padded_app_zero_l, ?gt_padded_app_zero_r; auto.
Qed.

Lemma compare_versions_ignores_a_trailing_zero_witness :
  compare_versions None ("1.0" +:+ ".0") "1.0" = compare_versions None "1.0" "1.0"
  /\ compare_versions None "1.0" ("1.0" +:+ ".0") = compare_versions None "1.0" "1.0".
Proof.
  exact (compare_versions_ignores_a_trailing_zero "1.0" "1.0" eq_refl eq_refl).
Defined.

(** ** The directory fields of the GUI *)

Section FieldFacts.

Lemma filter_keep_good (l : list string) :
  forallb good_part l = true -> List.filter keep_part l = l.
Proof.
  induction l as [|x l IH]; [reflexivity|]. cbn [forallb List.filter].
  intros H. apply andb_true_iff in H as [Hx Hl]. unfold good_part in Hx.
  apply andb_true_iff in Hx as [Hk _]. now rewrite Hk, IH.
Qed.

Lemma concat_cons2 (x y : string) (l : list string) :
  String.concat "/" (x :: y :: l) = x +:+ String "/" (String.concat "/" (y :: l)).
Proof. reflexivity. Qed.

(** The parts of a path are found again in the text that joins them. *)
Lemma split_concat (l : list string) :
  l <> [] -> forallb good_part l = true ->
  split "/" (String.concat "/" l) = l.
Proof.
  induction l as [|x l IH]; [congruence|]. intros _ H.
  cbn [forallb] in H. apply andb_true_iff in H as [Hx Hl].
  destruct l as [|y l].
  - cbn [String.concat]. apply split_no_sep. now apply good_part_no_sep.
  - rewrite concat_cons2, split_app_sep, IH by (discriminate || assumption).
    rewrite split_no_sep by now apply good_part_no_sep. reflexivity.
Qed.

Lemma good_part_first (x : string) :
  good_part x = true -> exists c x', x = String c x' /\ c <> "/"%char.
Proof.
  unfold good_part, keep_part. destruct x as [|c x']; [discriminate|].
  intros H. apply andb_true_iff in H as [_ H]. apply negb_true_iff in H.
  cbn [contains] in H. apply orb_false_iff in H as [Hc _].
  exists c, x'. split; [reflexivity|]. intros ->. discriminate.
Qed.

Lemma concat_first (l : list string) :
  l <> [] -> forallb good_part l = true ->
  exists c s, String.concat "/" l = String c s /\ c <> "/"%char.
Proof.
  destruct l as [|x l]; [congruence|]. intros _ H.
  cbn [forallb] in H. apply andb_true_iff in H as [Hx _].
  destruct (good_part_first x Hx) as (c & x' & -> & Hc).
  destruct l as [|y l].
  - now exists c, x'.
  - rewrite concat_cons2. now exists c, (x' +:+ String "/" (String.concat "/" (y :: l))).
Qed.

Lemma is_anchor_first (c : ascii) (s : string) :
  c <> "/"%char -> is_anchor (String c s) = false.
Proof.
  intros Hc. unfold is_anchor.
  destruct (Ascii.eqb_spec c "/") as [->|Hne]; [congruence|].
  destruct c as [[] [] [] [] [] [] [] []]; try reflexivity. congruence.
Qed.

Lemma lstrip_sep_first (c : ascii) (s : string) :
  c <> "/"%char -> lstrip_sep (String c s) = String c s.
Proof.
  intros Hc. cbn [lstrip_sep].
  destruct c as [[] [] [] [] [] [] [] []]; try reflexivity. congruence.
Qed.

Lemma of_str_relative (l : list string) :
  l <> [] -> forallb good_part l = true -> of_str (String.concat "/" l) = l.
Proof.
  intros Hne Hg. destruct (concat_first l Hne Hg) as (c & s & Hs & Hc).
  unfold of_str. rewrite splitroot_relative by (rewrite Hs; now apply is_anchor_first).
  cbn [String.eqb app]. rewrite split_concat by assumption.
  now apply filter_keep_good.
Qed.

Lemma of_str_rooted (root : string) (rest : list string) :
  root = "/" \/ root = "//" -> forallb good_part rest = true ->
  of_str (root +:+ String.concat "/" rest) = root :: rest.
Proof.
  intros Hroot Hg. destruct rest as [|x rest].
  - destruct Hroot as [-> | ->]; reflexivity.
  - destruct (concat_first (x :: rest)) as (c & s & Hs & Hc);
      [discriminate|assumption|].
    assert (Hsplit : splitroot (root +:+ String.concat "/" (x :: rest))
                     = (root, String.concat "/" (x :: rest))).
    { rewrite Hs. destruct Hroot as [-> | ->].
      - change ("/" +:+ String c s) with (String "/" (String c s)).
        unfold splitroot.
        change (lstrip_sep (String "/" (String c s))) with (lstrip_sep (String c s)).
        rewrite lstrip_sep_first by assumption. cbn [String.length].
        replace (S (S (String.length s)) - S (String.length s))%nat with 1%nat by lia.
        reflexivity.
      - change ("//" +:+ String c s) with (String "/" (String "/" (String c s))).
        unfold splitroot.
        change (lstrip_sep (String "/" (String "/" (String c s))))
          with (lstrip_sep (String c s)).
        rewrite lstrip_sep_first by assumption. cbn [String.length].
        replace (S (S (S (String.length s))) - S (String.length s))%nat
          with 2%nat by lia.
        reflexivity. }
    unfold of_str. rewrite Hsplit.
    rewrite split_concat by (discriminate || assumption).
    rewrite filter_keep_good by assumption.
    destruct Hroot as [-> | ->]; reflexivity.
Qed.

(** A path is read back from its text. *)
Lemma of_str_str (p : Path) : wf_path p = true -> of_str (str p) = p.
Proof.
  destruct p as [|a rest]; [reflexivity|]. intros H.
  cbn [wf_path] in H. apply andb_true_iff in H as [Ha Hrest].
  apply orb_true_iff in Ha as [Ha|Ha]; [apply orb_true_iff in Ha as [Ha|Ha]|].
  - apply String.eqb_eq in Ha. subst a. cbn [str is_anchor].
    apply of_str_rooted; auto.
  - apply String.eqb_eq in Ha. subst a. cbn [str is_anchor].
    apply of_str_rooted; auto.
  - unfold str. rewrite (good_part_not_anchor a Ha).
    apply of_str_relative; [discriminate|]. cbn [forallb]. now rewrite Ha, Hrest.
Qed.

Lemma wf_path_parent (p : Path) : wf_path p = true -> wf_path (parent p) = true.
Proof.
  destruct p as [|a rest]; [reflexivity|]. intros H.
  destruct rest as [|b rest].
  - cbn [parent]. destruct (is_anchor a); [exact H|reflexivity].
  - change (parent (a :: b :: rest)) with (a :: removelast (b :: rest)).
    cbn [wf_path] in *. apply andb_true_iff in H as [Ha Hrest].
    rewrite Ha. now apply forallb_removelast.
Qed.

End FieldFacts.

(** X18.  The two fields that the GUI fills after a directory was chosen
    hold the text of two paths: read back, the input field is the chosen
    directory, and the output field is the directory beside it whose name
    has [_converted] added, the one that the command line creates for the
    same input directory. *)
Theorem browse_input_dir_fields
    (mkdir : Path -> outcome unit) (directory input_field output_field : string) :
  browse_input_dir directory = Some (input_field, output_field) ->
  of_str input_field = of_str directory
  /\ of_str output_field
     = parent (of_str directory) ++ [name (of_str directory) +:+ "_converted"]
  /\ create_output_directory mkdir (of_str input_field)
     = bind (mkdir (of_str output_field)) (fun _ => Returned (of_str output_field)).
Proof.
  unfold browse_input_dir. destruct (String.eqb directory ""); [discriminate|].
  intros [= <- <-].
  pose proof (of_str_wf directory) as Hwf.
  assert (Hgood : good_part (name (of_str directory) +:+ "_converted") = true).
  { apply good_part_suffixed; [now apply name_good|reflexivity|cbn; lia]. }
  rewrite (join_str_good _ _ Hgood).
  assert (Hout : wf_path (parent (of_str directory)
                          ++ [name (of_str directory) +:+ "_converted"]) = true).
  { apply wf_path_app; [now apply wf_path_parent|]. cbn. now rewrite Hgood. }
  rewrite !of_str_str by assumption.
  split; [reflexivity|]. split; [reflexivity|].
  unfold create_output_directory. now rewrite (join_str_good _ _ Hgood).
Qed.

Lemma browse_input_dir_fields_witness :
  of_str "/home/u/music" = of_str "/home/u//music/"
  /\ of_str "/home/u/music_converted"
     = parent (of_str "/home/u//music/")
       ++ [name (of_str "/home/u//music/") +:+ "_converted"]
  /\ create_output_directory mkdir_ok (of_str "/home/u/music")
     = bind (mkdir_ok (of_str "/home/u/music_converted"))
            (fun _ => Returned (of_str "/home/u/music_converted")).
Proof.
  exact (browse_input_dir_fields mkdir_ok "/home/u//music/" "/home/u/music"
           "/home/u/music_converted" eq_refl).
Defined.

(** ** The installer *)

Section InstallerFacts.

Variable run : list string -> outcome CompletedProcess.
Variable executable : string.
Variable import_ : string -> imported.

Lemma check_pip_loop_cases (commands : list (list string)) :
  forall (w w' : World) (r : outcome (option (list string))),
    check_pip_loop run commands w = (r, w') ->
    match r with
    | Returned (Some base) =>
        exists pip_cmd completed,
          In pip_cmd commands /\ base = take 2 pip_cmd
          /\ run (base ++ ["--version"]) = Returned completed
          /\ returncode completed = 0
    | Returned None => True
    | Raised e => is_Exception e = false
    end.
Proof.
  induction commands as [|pip_cmd rest IH]; intros w w' r H.
  - injection H as <- _. exact I.
  - cbn [check_pip_loop] in H.
    destruct (run (take 2 pip_cmd ++ ["--version"])) as [completed|e] eqn:E.
    + destruct (returncode completed =? 0) eqn:Erc.
      * rewrite print_then in H. injection H as <- _.
        exists pip_cmd, completed. apply Z.eqb_eq in Erc. repeat split; auto.
        now left.
      * apply IH in H. destruct r as [[base|]|e]; auto.
        destruct H as (cmd & c & Hin & H). exists cmd, c. split; [now right|exact H].
    + destruct (is_Exception e) eqn:Ee.
      * apply IH in H. destruct r as [[base|]|e0]; auto.
        destruct H as (cmd & c & Hin & H). exists cmd, c. split; [now right|exact H].
      * injection H as <- _. exact Ee.
Qed.

Lemma print_returns (s : string) (w : World) :
  print s w = (Returned tt, with_console w (stdin w) (stdout w ++ [s])).
Proof. reflexivity. Qed.

End InstallerFacts.

(** X19.  The installer reports success only for a package that can be
    imported after a command of four words has exited with the code 0: the
    first two words of one of the three commands that look for [pip] (the
    interpreter with [-m], or [pip3] or [pip] with [--version]), which
    answered with the code 0 when [--version] was added, then [install] and
    the name of the package.  It never runs [python -m pip install].  No
    error of the class [Exception] leaves it. *)
Theorem install_python_package_outcome
    (run : list string -> outcome CompletedProcess) (executable : string)
    (import_ : string -> imported) (package_name : string)
    (import_name : option string) (w : World) :
  match fst (install_python_package run executable import_ package_name
               import_name w) with
  | Returned true =>
      exists base checked installed,
        In base [[executable; "-m"]; ["pip3"; "--version"]; ["pip"; "--version"]]
        /\ run (base ++ ["--version"]) = Returned checked
        /\ returncode checked = 0
        /\ run (base ++ ["install"; package_name]) = Returned installed
        /\ returncode installed = 0
        /\ base ++ ["install"; package_name]
           <> [executable; "-m"; "pip"; "install"; package_name]
        /\ import_ (match import_name with
                    | Some n => n
                    | None => package_name
                    end) = Imported
  | Returned false => True
  | Raised e => is_Exception e = false
  end.
Proof.
  unfold install_python_package. rewrite print_then. unfold mbind at 1.
  set (w0 := with_console w _ _).
  destruct (check_pip_available run executable w0) as [r w1] eqn:Ec.
  apply check_pip_loop_cases in Ec.
  destruct r as [[base|]|e]; cbn [fst]; [| |exact Ec].
  2:{ rewrite !print_then. exact I. }
  destruct Ec as (pip_cmd & checked & Hin & -> & Hrun & Hrc).
  assert (Hbase : In (take 2 pip_cmd)
                     [[executable; "-m"]; ["pip3"; "--version"]; ["pip"; "--version"]]).
  { unfold pip_commands in Hin.
    destruct Hin as [<-|[<-|[<-|[]]]]; cbn; auto. }
  destruct (take 2 pip_cmd) as [|b1 base] eqn:Eb.
  { destruct Hbase as [H|[H|[H|[]]]]; discriminate. }
  unfold try_except. rewrite print_then. unfold mbind at 1, lift.
  destruct (run ((b1 :: base) ++ ["install"; package_name])) as [installed|e] eqn:Ei.
  - destruct (returncode installed =? 0) eqn:Erc.
    + rewrite print_then.
      destruct (import_ (match import_name with
                         | Some n => n
                         | None => package_name
                         end)) as [| |e] eqn:Eimp.
      * rewrite print_then. cbn [fst ret].
        exists (b1 :: base), checked, installed. apply Z.eqb_eq in Erc.
        repeat split; auto.
        destruct Hbase as [H|[H|[H|[]]]]; rewrite <- H; discriminate.
      * rewrite !print_then. exact I.
      * unfold raise. destruct (is_Exception e) eqn:Ee; [|exact Ee].
        destruct e; try discriminate; rewrite print_then; exact I.
    + rewrite print_then. unfold mbind at 1.
      destruct (contains_text "permission denied" _).
      * rewrite !print_then. exact I.
      * destruct (contains_text "externally-managed-environment" _).
        -- rewrite !print_then. exact I.
        -- exact I.
  - destruct (is_Exception e) eqn:Ee; [|exact Ee].
    destruct e; try discriminate; rewrite print_then; exact I.
Qed.

(** Where only the command [pip] is there, the installer runs
    [pip --version install psutil], which installs nothing, and reports a
    failure when the import fails. *)
Example install_with_pip_only :
  let '(r, w') := install_python_package run_pip_only "python3"
                    (fun _ => ImportError) "psutil" None (sample_world []) in
  r = Returned false
  /\ In "Running: pip --version install psutil" (stdout w').
Proof. vm_compute. split; [reflexivity|]. right. right. left. reflexivity. Qed.

(** Where every command answers with the code 0, the command that is run is
    [python3 -m install psutil]. *)
Example install_with_every_command :
  let '(r, w') := install_python_package run_ok "python3"
                    (fun _ => Imported) "psutil" None (sample_world []) in
  r = Returned true
  /\ In "Running: python3 -m install psutil" (stdout w').
Proof. vm_compute. split; [reflexivity|]. right. right. left. reflexivity. Qed.

(** ** Files that differ in the case of the extension *)

Section TwinFacts.

Lemma rfind_app (c : ascii) (a b : string) :
  rfind c (a +:+ b)
  = match rfind c b with
    | Some i => Some (String.length a + i)%nat
    | None => rfind c a
    end.
Proof.
  induction a as [|x a IH].
  - change ("" +:+ b) with b. destruct (rfind c b); reflexivity.
  - change (String x a +:+ b) with (String x (a +:+ b)).
    cbn [rfind String.length]. rewrite IH. destruct (rfind c b); reflexivity.
Qed.

Lemma substring_0_app_l (a b : string) :
  substring 0 (String.length a) (a +:+ b) = a.
Proof.
  induction a as [|x a IH]; [now destruct b|].
  change (String x a +:+ b) with (String x (a +:+ b)).
  cbn [String.length substring]. now rewrite IH.
Qed.

Lemma stem_of_extension (base ext : string) :
  base <> "" -> rfind "." ext = Some 0%nat -> (2 <= String.length ext)%nat ->
  stem_of (base +:+ ext) = base.
Proof.
  intros Hne Hdot Hlen. unfold stem_of, suffix_cut.
  rewrite rfind_app, Hdot, string_length_app, Nat.add_0_r.
  assert (Hb : (0 < String.length base)%nat)
    by (destruct base; [congruence|cbn; lia]).
  destruct (Nat.ltb_spec 0 (String.length base)) as [_|]; [|lia].
  destruct (Nat.ltb_spec (String.length base)
              (String.length base + String.length ext - 1)) as [_|]; [|lia].
  cbn [andb]. apply substring_0_app_l.
Qed.

Lemma conversion_loop_raised (n_files : Z) (completed : list (outcome result)) :
  forall (t : totals) (i : Z) (w w' : World) (e : exn),
    conversion_loop n_files t i completed w = (Raised e, w') ->
    In (Raised e) completed.
Proof.
  induction completed as [|future rest IH]; intros t i w w' e H; [discriminate|].
  cbn [conversion_loop] in H. unfold mbind at 1 in H.
  pose proof (conversion_turn_cases n_files t i future w) as Ht.
  destruct future as [r|e0].
  - destruct Ht as (w1 & Ht & _). rewrite Ht in H. right. now apply IH in H.
  - rewrite Ht in H. injection H as <- _. now left.
Qed.

End TwinFacts.

(** X20.  Two files of one directory whose names differ only in the case of
    the extension, [base.wav] and [base.WAV], are both returned by the
    scanner, as two paths, and the converter gives both the same output
    path, [base.flac] in the mirrored directory: the two conversions write
    the same file. *)
Theorem extension_case_twins_share_one_output
    (directory output_dir : Path) (es : list (string * node))
    (q : Path) (base : string) (original1 original2 : option Path) :
  wf_path directory = true -> wf_node (Dir es) = true -> base <> "" ->
  In (q ++ [base +:+ ".wav"]) (files_under directory (Dir es)) ->
  In (q ++ [base +:+ ".WAV"]) (files_under directory (Dir es)) ->
  exists l rel1 rel2 out,
    find_wav_files directory (Some (Dir es)) = Returned l
    /\ In (q ++ [base +:+ ".wav"]) l /\ In (q ++ [base +:+ ".WAV"]) l
    /\ rel1 <> rel2
    /\ conversion_paths (q ++ [base +:+ ".wav"]) directory output_dir original1
       = Returned (rel1, base +:+ ".flac", out)
    /\ conversion_paths (q ++ [base +:+ ".WAV"]) directory output_dir original2
       = Returned (rel2, base +:+ ".flac", out).
Proof.
  intros Hd Hw Hbase H1 H2.
  pose proof (find_wav_files_returns directory (Some (Dir es))) as Hl.
  set (l := py_sorted _) in Hl.
  assert (Hin1 : In (q ++ [base +:+ ".wav"]) l).
  { apply in_find_wav_files. left. unfold rglob.
    apply rglob_node_complete; [exact H1|].
    apply (fnmatch_star_suffix _ base); reflexivity. }
  assert (Hin2 : In (q ++ [base +:+ ".WAV"]) l).
  { apply in_find_wav_files. right. unfold rglob.
    apply rglob_node_complete; [exact H2|].
    apply (fnmatch_star_suffix _ base); reflexivity. }
  destruct (scanned_below directory es l _ Hw Hl Hin1) as (rel1 & Hne1 & Hp1 & Hg1).
  destruct (scanned_below directory es l _ Hw Hl Hin2) as (rel2 & Hne2 & Hp2 & Hg2).
  assert (Hlast : forall rel nm,
             rel <> [] -> q ++ [nm] = directory ++ rel ->
             List.last rel "" = nm /\ directory ++ removelast rel = q).
  { intros rel nm Hne Hp.
    rewrite (app_removelast_last "" Hne), app_assoc in Hp.
    apply app_inj_tail in Hp as [Hq Hnm]. now split. }
  destruct (Hlast _ _ Hne1 Hp1) as [Hn1 Hq1].
  destruct (Hlast _ _ Hne2 Hp2) as [Hn2 Hq2].
  assert (Hparent : removelast rel1 = removelast rel2).
  { apply (app_inv_head directory). congruence. }
  exists l, rel1, rel2, (output_dir ++ parent rel1 ++ [base +:+ ".flac"]).
  split; [exact Hl|]. split; [exact Hin1|]. split; [exact Hin2|]. split.
  { intros Heq. subst rel2. rewrite Hn1 in Hn2.
    assert (Hext : ".wav" = ".WAV"); [|discriminate].
    revert Hn2. clear. induction base as [|c base IH]; [auto|].
    intros [= H]. auto. }
  assert (Hrel : forall rel, forallb good_part rel = true ->
                   relative_to (directory ++ rel) directory = Returned rel)
    by (intros rel Hg; apply relative_to_app, good_parts_no_root, Hg).
  split.
  - rewrite Hp1.
    rewrite (conversion_paths_parts (directory ++ rel1) directory output_dir rel1)
      by (try apply wf_path_app; auto).
    rewrite (name_rel rel1 Hne1 Hg1), Hn1.
    rewrite (stem_of_extension base ".wav" Hbase eq_refl) by (cbn; lia).
    reflexivity.
  - rewrite Hp2.
    rewrite (conversion_paths_parts (directory ++ rel2) directory output_dir rel2)
      by (try apply wf_path_app; auto).
    rewrite (name_rel rel2 Hne2 Hg2), Hn2.
    rewrite (stem_of_extension base ".WAV" Hbase eq_refl) by (cbn; lia).
    rewrite !parent_good by assumption. now rewrite Hparent.
Qed.

Lemma extension_case_twins_share_one_output_witness :
  exists l rel1 rel2 out,
    find_wav_files ["/"; "m"]
      (Some (Dir [("s", Dir [("a.wav", File 1); ("a.WAV", File 2)])])) = Returned l
    /\ In (["/"; "m"; "s"] ++ ["a" +:+ ".wav"]) l
    /\ In (["/"; "m"; "s"] ++ ["a" +:+ ".WAV"]) l
    /\ rel1 <> rel2
    /\ conversion_paths (["/"; "m"; "s"] ++ ["a" +:+ ".wav"]) ["/"; "m"]
         ["/"; "m_converted"] None
       = Returned (rel1, "a" +:+ ".flac", out)
    /\ conversion_paths (["/"; "m"; "s"] ++ ["a" +:+ ".WAV"]) ["/"; "m"]
         ["/"; "m_converted"] None
       = Returned (rel2, "a" +:+ ".flac", out).
Proof.
  apply (extension_case_twins_share_one_output ["/"; "m"] ["/"; "m_converted"]
           [("s", Dir [("a.wav", File 1); ("a.WAV", File 2)])]
           ["/"; "m"; "s"] "a" None None).
  - reflexivity.
  - reflexivity.
  - discriminate.
  - simpl. auto.
  - simpl. auto.
Defined.

(** X21.  A batch is not broken off by a file that fails: with at least one
    worker and every file below the input directory, the conversion pool
    returns its counters, which account for every file, whatever the file
    system and the transcoder do to the single conversions; nothing but an
    interrupt or an exit request ends it otherwise. *)
Theorem convert_all_survives_every_failure
    (as_completed : forall A : Type, list A -> list A)
    (format_1f format_2f : Q -> string) (env_of : Path -> conv_env)
    (wav_files : list Path) (input_dir output_dir : Path)
    (thread_count compression_level : Z) (original_input_dir : option Path)
    (w : World) :
  (forall (A : Type) (l : list A), as_completed A l ≡ₚ l) ->
  1 <= thread_count ->
  (forall f, In f wav_files -> exists rel, relative_to f input_dir = Returned rel) ->
  match fst (convert_all as_completed format_1f format_2f env_of wav_files
               input_dir output_dir thread_count compression_level
               original_input_dir w) with
  | Returned t =>
      successful_conversions t + failed_conversions t
      = Z.of_nat (length wav_files)
  | Raised e => is_Exception e = false
  end.
Proof.
  intros Hperm Ht Hunder. unfold convert_all. unfold mbind at 1, lift, ThreadPoolExecutor.
  destruct (Z.leb_spec thread_count 0) as [|_]; [lia|].
  set (futures := map _ wav_files).
  destruct (conversion_loop _ _ _ (as_completed _ futures) w) as [[t|e] w'] eqn:E;
    cbn [fst].
  - apply conversion_loop_returned in E as (results & Hres & -> & _).
    destruct (tally_all results no_totals) as (H1 & H2 & _).
    cbn [no_totals successful_conversions failed_conversions] in H1, H2.
    rewrite H1, H2.
    pose proof (filter_partition_length success results) as Hp.
    assert (Hlen : length results = length wav_files).
    { rewrite <- (length_map Returned), <- Hres, (as_completed_length _ Hperm).
      apply length_map. }
    unfold failed. lia.
  - apply conversion_loop_raised in E.
    apply (proj1 (as_completed_In _ Hperm _ _)) in E.
    apply in_map_iff in E as (f & Hf & Hin).
    destruct (Hunder f Hin) as [rel Hrel].
    pose proof (conversion_outcome_under format_1f format_2f (env_of f) f input_dir
                  output_dir rel thread_count compression_level
                  original_input_dir Hrel) as Hc.
    now rewrite Hf in Hc.
Qed.

Lemma convert_all_survives_every_failure_witness :
  match fst (convert_all last_first (fun _ => "") (fun _ => "")
               (fun _ => hanging_env)
               [["/"; "m"; "a.wav"]; ["/"; "m"; "s"; "b.wav"]] ["/"; "m"] ["/"; "o"]
               4 12 None (sample_world [])) with
  | Returned t => successful_conversions t + failed_conversions t = 2
  | Raised e => is_Exception e = false
  end.
Proof.
  apply (convert_all_survives_every_failure last_first (fun _ => "") (fun _ => "")
           (fun _ => hanging_env)
           [["/"; "m"; "a.wav"]; ["/"; "m"; "s"; "b.wav"]] ["/"; "m"] ["/"; "o"]
           4 12 None (sample_world [])).
  - intros A l. unfold last_first. symmetry. apply Permutation_rev.
  - lia.
  - intros f [<-|[<-|[]]]; eexists; reflexivity.
Defined.

(** X22.  A blank line at the prompt for the input directory selects the
    working directory: a line that holds nothing but blanks, or nothing but
    one or two double quotes, is read as the empty path, which exists and is
    a directory whenever the working directory is one. *)
Theorem blank_line_selects_the_working_directory
    (w : World) (s : string) (rest : list key) :
  stdin w = Line s :: rest ->
  In (strip s) [""; String quote ""; String quote (String quote "")] ->
  is_dir w [] = true ->
  exists w', get_input_directory w = (Returned [], w') /\ stdin w' = rest.
Proof.
  intros Hin Hs Hdir. unfold get_input_directory, while_true.
  rewrite get_input_directory_loop_step, Hin. cbn zeta.
  assert (Hpath : of_str (if startswith_quote (strip s) && endswith_quote (strip s)
                          then slice_1_m1 (strip s) else strip s) = []).
  { destruct Hs as [<-|[<-|[<-|[]]]]; reflexivity. }
  rewrite Hpath.
  assert (Hex : forall i o, exists_ (with_console w i o) [] = true
                            /\ is_dir (with_console w i o) [] = true).
  { intros i o. unfold exists_, is_dir in *. rewrite stat_with_console.
    destruct (stat w []) as [[|]|]; try discriminate. auto. }
  destruct (Hex rest (stdout w ++ ["Enter the directory path containing WAV files: "]))
    as [-> ->].
  cbn [andb]. eexists. split; reflexivity.
Qed.

Lemma blank_line_selects_the_working_directory_witness :
  exists w',
    get_input_directory (sample_world [Line "   "; Line "/music"])
    = (Returned [], w')
    /\ stdin w' = [Line "/music"].
Proof.
  exact (blank_line_selects_the_working_directory
           (sample_world [Line "   "; Line "/music"]) "   " [Line "/music"]
           eq_refl (or_introl eq_refl) eq_refl).
Defined.
